(** * RAGify front end: the answer formatter and the session handlers

    A shallow embedding of [MainApp] (the application page component)
    and of the parts of [apiService] it calls.

    - Part 1 embeds [formatAnswer]: JavaScript strings are sequences of
      UTF-16 code units, the four regular expressions of the function
      are written with a small backtracking matcher, and the JSX the
      function returns is a tree of elements.
    - Part 2 embeds the event handlers [handleFiles], [handleProcess],
      [handleResetDatabase] and [handleAsk] in a state-and-exception
      monad over the component state and a trace of the calls made to
      the backend and to the console.
    - Part 3 defines what the properties speak of, among it the
      handlers cut at their [await]s and the configurations the
      component goes through when their runs overlap, and Part 4
      states and proves the properties. *)

From Stdlib Require Import String Ascii.
From Stdlib Require Import List NArith ZArith Arith Bool Lia.
From Stdlib Require Import DecimalString.
Import ListNotations.
Local Open Scope list_scope.

(* ================================================================== *)
(** * Part 1: [formatAnswer]                                           *)
(* ================================================================== *)

(** ** JavaScript strings *)

(** A string is its sequence of UTF-16 code units. *)
#[warnings="-notation-for-abbreviation"]
Notation jsstring := (list N) (only parsing).

(** ASCII literals. *)
Definition js (s : string) : jsstring :=
  map N_of_ascii (list_ascii_of_string s).

Definition LF : N := 10%N.
Definition STAR : N := 42%N.
Definition SPACE : N := 32%N.

Fixpoint jsstring_eqb (a b : jsstring) : bool :=
  match a, b with
  | [], [] => true
  | x :: a', y :: b' => N.eqb x y && jsstring_eqb a' b'
  | _, _ => false
  end.

(** The class [\s] of a regular expression, which is also what
    [String.prototype.trim] removes: WhiteSpace and LineTerminator. *)
Definition is_ws (c : N) : bool :=
  ((9 <=? c) && (c <=? 13) || (c =? 32) || (c =? 160) || (c =? 5760)
   || (8192 <=? c) && (c <=? 8202) || (c =? 8232) || (c =? 8233)
   || (c =? 8239) || (c =? 8287) || (c =? 12288) || (c =? 65279))%N.

(** LineTerminator: what [.] does not match. *)
Definition is_line_terminator (c : N) : bool :=
  ((c =? 10) || (c =? 13) || (c =? 8232) || (c =? 8233))%N.

(** [.] *)
Definition dot (c : N) : bool := negb (is_line_terminator c).
(** [\d] *)
Definition is_digit (c : N) : bool := ((48 <=? c) && (c <=? 57))%N.
(** [[\*\-\•]] *)
Definition is_bullet_marker (c : N) : bool :=
  ((c =? 42) || (c =? 45) || (c =? 8226))%N.
(** [[^*]] *)
Definition not_star (c : N) : bool := negb (c =? STAR)%N.
Definition is_char (a : N) (c : N) : bool := (c =? a)%N.

(** [s.trim()] *)
Fixpoint trimStart (s : jsstring) : jsstring :=
  match s with
  | c :: t => if is_ws c then trimStart t else s
  | [] => []
  end.

Definition trimEnd (s : jsstring) : jsstring := rev (trimStart (rev s)).

Definition trim (s : jsstring) : jsstring := trimEnd (trimStart s).

(** Truthiness of a string: non-empty. *)
Definition truthy (s : jsstring) : bool :=
  match s with [] => false | _ :: _ => true end.

(** [s.includes('**')] *)
Fixpoint includes_stars (s : jsstring) : bool :=
  match s with
  | a :: t =>
      match t with
      | b :: _ => ((a =? STAR) && (b =? STAR))%N || includes_stars t
      | [] => false
      end
  | [] => false
  end.

(** [s.split('\n')] *)
Fixpoint split_LF_from (cur : jsstring) (s : jsstring) : list jsstring :=
  match s with
  | [] => [rev cur]
  | c :: t =>
      if (c =? LF)%N then rev cur :: split_LF_from [] t
      else split_LF_from (c :: cur) t
  end.

Definition split_LF (s : jsstring) : list jsstring := split_LF_from [] s.

(** [lines.join(' ')] *)
Fixpoint join_space (l : list jsstring) : jsstring :=
  match l with
  | [] => []
  | [x] => x
  | x :: rest => x ++ SPACE :: join_space rest
  end.

(** ** A backtracking matcher

    A pattern is a function from the input at the current position to
    the result of the match; the rest of the pattern is its
    continuation [k], which receives the text matched by the last
    repetition and the input that is left.  The quantifiers are greedy
    and give characters back one at a time when the continuation
    fails, as the ECMAScript matcher does. *)

Section Matcher.
Variable A : Type.

(** One character of a class. *)
Definition chr (cls : N -> bool) (k : jsstring -> option A)
  (s : jsstring) : option A :=
  match s with
  | c :: t => if cls c then k t else None
  | [] => None
  end.

(** [cls*], greedy. *)
Fixpoint many (cls : N -> bool) (k : jsstring -> jsstring -> option A)
  (s : jsstring) : option A :=
  match s with
  | c :: t =>
      if cls c then
        match many cls (fun m r => k (c :: m) r) t with
        | Some x => Some x
        | None => k [] s
        end
      else k [] s
  | [] => k [] s
  end.

(** [cls+], greedy. *)
Definition many1 (cls : N -> bool) (k : jsstring -> jsstring -> option A)
  (s : jsstring) : option A :=
  match s with
  | c :: t => if cls c then many cls (fun m r => k (c :: m) r) t else None
  | [] => None
  end.
End Matcher.
Arguments chr {A} cls k s.
Arguments many {A} cls k s.
Arguments many1 {A} cls k s.

(** [/\n\s*\n/] at the current position: the input after the match. *)
Definition re_blank_line : jsstring -> option jsstring :=
  chr (is_char LF) (many is_ws (fun _ => chr (is_char LF) (fun r => Some r))).

(** [/\*\*([^*]+)\*\*/] at the current position: group 1 and the input
    after the match.  [/\*\*[^*]+\*\*/] matches the same text. *)
Definition re_header : jsstring -> option (jsstring * jsstring) :=
  chr (is_char STAR) (chr (is_char STAR) (many1 not_star (fun g =>
    chr (is_char STAR) (chr (is_char STAR) (fun r => Some (g, r)))))).

(** [/^\s*[\*\-\•]\s+/] from the start of the input. *)
Definition re_bullet_marker : jsstring -> option unit :=
  many is_ws (fun _ => chr is_bullet_marker (many1 is_ws (fun _ _ => Some tt))).

(** [/^\s*[\*\-\•]\s+(.+)/] from the start of the input: group 1. *)
Definition re_bullet : jsstring -> option jsstring :=
  many is_ws (fun _ => chr is_bullet_marker (many1 is_ws (fun _ =>
    many1 dot (fun g _ => Some g)))).

(** [/^\s*\d+\.\s+/] from the start of the input. *)
Definition re_number_marker : jsstring -> option unit :=
  many is_ws (fun _ => many1 is_digit (fun _ => chr (is_char 46)
    (many1 is_ws (fun _ _ => Some tt)))).

(** [/^\s*\d+\.\s+(.+)/] from the start of the input: group 1. *)
Definition re_number : jsstring -> option jsstring :=
  many is_ws (fun _ => many1 is_digit (fun _ => chr (is_char 46)
    (many1 is_ws (fun _ => many1 dot (fun g _ => Some g))))).

(** The leftmost match of the header pattern in a line: the text before
    the match, group 1, and the text after the match. *)
Fixpoint header_search (before : jsstring) (s : jsstring)
  : option (jsstring * jsstring * jsstring) :=
  match re_header s with
  | Some (g, r) => Some (rev before, g, r)
  | None =>
      match s with
      | c :: t => header_search (c :: before) t
      | [] => None
      end
  end.

(** [line.match(/\*\*([^*]+)\*\*/)], its element [1]. *)
Definition match_header (line : jsstring) : option jsstring :=
  match header_search [] line with
  | Some (_, g, _) => Some g
  | None => None
  end.

(** [line.replace(/\*\*[^*]+\*\*/, '')] *)
Definition replace_header (line : jsstring) : jsstring :=
  match header_search [] line with
  | Some (b, _, r) => b ++ r
  | None => line
  end.

(** [text.split(/\n\s*\n/)].  The position [q] of the built-in advances
    one code unit at a time; at a match the pending piece is closed and
    the matched code units are skipped ([skip] counts those that are
    left).  The pattern matches no empty string. *)
Fixpoint split_blank_from (skip : nat) (cur : jsstring) (s : jsstring)
  : list jsstring :=
  match s with
  | [] => [rev cur]
  | c :: t =>
      match skip with
      | S n => split_blank_from n cur t
      | O =>
          match re_blank_line s with
          | Some r => rev cur :: split_blank_from (length t - length r) [] t
          | None => split_blank_from 0 (c :: cur) t
          end
      end
  end.

Definition split_blank (s : jsstring) : list jsstring :=
  split_blank_from 0 [] s.

(** ** The JSX that [formatAnswer] returns *)

#[warnings="-register-all"]
Inductive Jsx : Type :=
| p (text : jsstring)
| h3 (text : jsstring)
| li (text : jsstring)
| div (children : list Jsx)
| ul (children : list Jsx)
| ol (children : list Jsx).

(** [item.type === 'li'] *)
Definition is_li (e : Jsx) : bool :=
  match e with li _ => true | _ => false end.

(** [{cond && <tag>...</tag>}]: nothing is rendered when [cond] is false. *)
Definition render_if (cond : bool) (e : Jsx) : list Jsx :=
  if cond then [e] else [].

(** ** [formatAnswer] *)

(** [section.split('\n').map(line => line.trim()).filter(line => line)] *)
Definition section_lines (section : jsstring) : list jsstring :=
  filter truthy (map trim (split_LF section)).

(** The body of [lines.forEach] in the header branch; the state is
    [elements] and [currentContent]. *)
Definition header_step (st : list Jsx * jsstring) (line : jsstring)
  : list Jsx * jsstring :=
  let '(elements, currentContent) := st in
  if includes_stars line then
    let '(elements, currentContent) :=
      if truthy (trim currentContent)
      then (elements ++ [p (trim currentContent)], [])
      else (elements, currentContent) in
    match match_header line with
    | Some headerMatch1 =>
        let elements := elements ++ [h3 headerMatch1] in
        let afterHeader := trim (replace_header line) in
        if truthy afterHeader
        then (elements, currentContent ++ afterHeader ++ [SPACE])
        else (elements, currentContent)
    | None => (elements, currentContent)
    end
  else (elements, currentContent ++ line ++ [SPACE]).

Definition header_section (lines : list jsstring) : Jsx :=
  let '(elements, currentContent) := fold_left header_step lines ([], []) in
  let elements :=
    if truthy (trim currentContent)
    then elements ++ [p (trim currentContent)]
    else elements in
  div elements.

(** The body of [lines.forEach] in the bullet branch and in the
    numbered branch, which differ in the pattern only; the state is
    [bulletItems] (resp. [numberedItems]) and [nonBulletContent]. *)
Definition list_step (item : jsstring -> option jsstring)
  (st : list Jsx * jsstring) (line : jsstring) : list Jsx * jsstring :=
  let '(items, content) := st in
  match item line with
  | Some text =>
      let '(items, content) :=
        if truthy (trim content)
        then (items ++ [p (trim content)], [])
        else (items, content) in
      (items ++ [li text], content)
  | None => (items, content ++ line ++ [SPACE])
  end.

Definition list_section (item : jsstring -> option jsstring)
  (wrap : list Jsx -> Jsx) (lines : list jsstring) : Jsx :=
  let '(items, content) := fold_left (list_step item) lines ([], []) in
  let items :=
    if truthy (trim content) then items ++ [p (trim content)] else items in
  let others := filter (fun e => negb (is_li e)) items in
  let lis := filter is_li items in
  div (render_if (0 <? length others) (div others)
       ++ render_if (0 <? length lis) (wrap lis)).

Definition is_some {A} (o : option A) : bool :=
  match o with Some _ => true | None => false end.

(** The callback of [sections.map]; [None] is [null]. *)
Definition format_section (section : jsstring) : option Jsx :=
  let lines := section_lines section in
  if (length lines =? 0) then None
  else
    let hasHeaders := includes_stars section in
    if hasHeaders then Some (header_section lines)
    else
      let hasBullets := existsb (fun line => is_some (re_bullet_marker line)) lines in
      if hasBullets then Some (list_section re_bullet ul lines)
      else
        let hasNumbers := existsb (fun line => is_some (re_number_marker line)) lines in
        if hasNumbers then Some (list_section re_number ol lines)
        else Some (p (join_space lines)).

(** [text.replace(/\*\*/g, '**')] puts back what it takes out. *)
Definition replace_stars_by_stars (text : jsstring) : jsstring := text.

Definition formatAnswer (text : jsstring) : list (option Jsx) :=
  let cleanText := trim (replace_stars_by_stars text) in
  let sections := filter (fun s => truthy (trim s)) (split_blank cleanText) in
  map format_section sections.

(** ** The display blocks of the rendered tree *)

Inductive DisplayBlock : Type :=
| Heading (text : jsstring)
| Paragraph (text : jsstring)
| BulletList (items : list jsstring)
| NumberedList (items : list jsstring).

Definition li_text (e : Jsx) : list jsstring :=
  match e with li t => [t] | _ => [] end.

(** The blocks a rendered tree shows, in document order: [<h3>] is a
    heading, [<p>] a paragraph, [<ul>] and [<ol>] are lists of their
    [<li>] children, and [<div>] only groups. *)
Fixpoint blocks (e : Jsx) : list DisplayBlock :=
  match e with
  | p t => [Paragraph t]
  | h3 t => [Heading t]
  | li t => []
  | div cs => flat_map blocks cs
  | ul cs => [BulletList (flat_map li_text cs)]
  | ol cs => [NumberedList (flat_map li_text cs)]
  end.

Definition blocks_opt (o : option Jsx) : list DisplayBlock :=
  match o with Some e => blocks e | None => [] end.

(** [format] of the specification: the blocks of all sections, in
    section order. *)
Definition format (raw : jsstring) : list DisplayBlock :=
  flat_map blocks_opt (formatAnswer raw).

(** Two lines: [a], a line feed, [b]. *)
Definition ln (a b : jsstring) : jsstring := a ++ LF :: b.

(* ================================================================== *)
(** * Part 2: the session state and its handlers                       *)
(* ================================================================== *)

(** ** Data *)

Definition Date := N.
Definition Error := jsstring.

Record File : Type := {
  file_name : jsstring;
  file_type : jsstring;
  file_size : N
}.

(** [interface Document]; the fields marked [?] are optional. *)
Record Document : Type := {
  doc_id : jsstring;
  doc_name : jsstring;
  doc_size : N;
  uploadedAt : Date;
  temp_path : option jsstring;
  processed : option bool
}.

Record QnAItem : Type := {
  qna_id : jsstring;
  qna_question : jsstring;
  qna_answer : jsstring;
  timestamp : Date
}.

Record DatabaseStatus : Type := {
  count : Z;
  status : jsstring
}.

(** The requests and responses of [apiService]. *)
Record ProcessRequest : Type := {
  file_path : jsstring;
  filename : jsstring;
  use_handwriting_ocr : bool
}.

Record ProcessResponse : Type := {
  process_success : bool;
  process_message : jsstring;
  process_filename : jsstring;
  chunks_created : Z;
  processing_method : jsstring;
  total_characters : option Z
}.

Record QueryRequest : Type := {
  query : jsstring;
  n_results : option Z
}.

Record QueryResponse : Type := {
  query_success : bool;
  query_query : jsstring;
  query_answer : jsstring;
  retrieved_documents : list jsstring;
  relevant_document_ids : list Z;
  context_used : jsstring
}.

Record StatusResponse : Type := {
  status_success : bool;
  document_count : Z;
  database_status : jsstring;
  status_message : jsstring
}.

Record ResetResponse : Type := {
  reset_success : bool;
  reset_message : jsstring;
  actions_performed : list jsstring
}.

Record UploadResponse : Type := {
  upload_message : jsstring;
  upload_filename : jsstring;
  upload_temp_path : jsstring;
  upload_size : Z
}.

(** The state of [MainApp]: one field for each [useState]. *)
Record State : Type := {
  documents : list Document;
  question : jsstring;
  qnaHistory : list QnAItem;
  isProcessing : bool;
  enableHandwriting : bool;
  dragActive : bool;
  currentAnswer : jsstring;
  isAsking : bool;
  databaseStatus : DatabaseStatus;
  isUploading : bool
}.

Definition initial_state : State := {|
  documents := [];
  question := [];
  qnaHistory := [];
  isProcessing := false;
  enableHandwriting := false;
  dragActive := false;
  currentAnswer := [];
  isAsking := false;
  databaseStatus := {| count := 0%Z; status := js "unknown" |};
  isUploading := false
|}.

(** ** Effects

    An awaited promise either resolves with a value or rejects with an
    error, which [await] throws. *)
Inductive Outcome (A : Type) : Type :=
| Resolved (a : A)
| Rejected (error : Error).
Arguments Resolved {A} a.
Arguments Rejected {A} error.

(** What a handler does to the outside: the calls to [apiService],
    each with its outcome, and the calls to [console.error]. *)
Inductive Event : Type :=
| UploadFile (file : File) (res : Outcome UploadResponse)
| ProcessDocument (req : ProcessRequest) (res : Outcome ProcessResponse)
| QueryDocuments (req : QueryRequest) (res : Outcome QueryResponse)
| GetStatus (res : Outcome StatusResponse)
| ResetDatabase (res : Outcome ResetResponse)
| ConsoleError (message : jsstring) (error : Error).

(** The environment of the component.  The backend answers a call as
    it pleases, knowing all that happened before; [Math_random_id n] is
    the [n]-th value of [Math.random().toString(36).substring(2, 9)]
    and [new_Date] the clock. *)
Record Env : Type := {
  api_uploadFile : list Event -> File -> Outcome UploadResponse;
  api_processDocument : list Event -> ProcessRequest -> Outcome ProcessResponse;
  api_queryDocuments : list Event -> QueryRequest -> Outcome QueryResponse;
  api_getStatus : list Event -> Outcome StatusResponse;
  api_resetDatabase : list Event -> Outcome ResetResponse;
  Math_random_id : nat -> jsstring;
  new_Date : list Event -> Date
}.

Record World : Type := {
  state : State;
  trace : list Event;
  draws : nat
}.

Definition initial_world : World :=
  {| state := initial_state; trace := []; draws := 0 |}.

(** A computation reads the environment, changes the world, and returns
    or throws. *)
Definition M (A : Type) : Type := Env -> World -> Outcome A * World.

Definition ret {A} (a : A) : M A := fun _ w => (Resolved a, w).

Definition bind {A B} (m : M A) (f : A -> M B) : M B :=
  fun env w =>
    match m env w with
    | (Resolved a, w') => f a env w'
    | (Rejected error, w') => (Rejected error, w')
    end.

Notation "x <- m ;; k" := (bind m (fun x => k))
  (at level 61, m at next level, right associativity).
Notation "m ;; k" := (bind m (fun _ => k))
  (at level 61, right associativity).

(** [try { m } catch (error) { h error }] *)
Definition try_catch {A} (m : M A) (h : Error -> M A) : M A :=
  fun env w =>
    match m env w with
    | (Resolved a, w') => (Resolved a, w')
    | (Rejected error, w') => h error env w'
    end.

(** [try { m } finally { f }] *)
Definition try_finally {A} (m : M A) (f : M unit) : M A :=
  fun env w =>
    let '(r, w') := m env w in
    match f env w' with
    | (Resolved _, w'') => (r, w'')
    | (Rejected error, w'') => (Rejected error, w'')
    end.

(** [for (const x of l) { body x }] *)
Fixpoint for_of {A} (l : list A) (body : A -> M unit) : M unit :=
  match l with
  | [] => ret tt
  | x :: rest => body x ;; for_of rest body
  end.

Definition read {A} (f : State -> A) : M A :=
  fun _ w => (Resolved (f (state w)), w).

Definition modify (f : State -> State) : M unit :=
  fun _ w => (Resolved tt, {| state := f (state w); trace := trace w; draws := draws w |}).

Definition emit (e : Event) (w : World) : World :=
  {| state := state w; trace := trace w ++ [e]; draws := draws w |}.

(** [await apiService.f(...)]: the call goes into the trace with its
    outcome. *)
Definition call {A} (f : Env -> list Event -> Outcome A)
  (ev : Outcome A -> Event) : M A :=
  fun env w => let r := f env (trace w) in (r, emit (ev r) w).

Definition uploadFile (file : File) : M UploadResponse :=
  call (fun env t => api_uploadFile env t file) (UploadFile file).
Definition processDocument (req : ProcessRequest) : M ProcessResponse :=
  call (fun env t => api_processDocument env t req) (ProcessDocument req).
Definition queryDocuments (req : QueryRequest) : M QueryResponse :=
  call (fun env t => api_queryDocuments env t req) (QueryDocuments req).
Definition getStatus : M StatusResponse := call api_getStatus GetStatus.
Definition resetDatabase : M ResetResponse := call api_resetDatabase ResetDatabase.

Definition console_error (message : jsstring) (error : Error) : M unit :=
  fun _ w => (Resolved tt, emit (ConsoleError message error) w).

(** [Math.random().toString(36).substring(2, 9)] *)
Definition random_id : M jsstring :=
  fun env w =>
    (Resolved (Math_random_id env (draws w)),
     {| state := state w; trace := trace w; draws := S (draws w) |}).

(** [new Date()] *)
Definition now : M Date :=
  fun env w => (Resolved (new_Date env (trace w)), w).

(** The setters of [useState], each with the change it makes to the
    state; one that is given a function applies it to the state of the
    moment. *)
Definition with_documents (f : list Document -> list Document) (s : State) : State :=
  {| documents := f (documents s); question := question s;
     qnaHistory := qnaHistory s; isProcessing := isProcessing s;
     enableHandwriting := enableHandwriting s; dragActive := dragActive s;
     currentAnswer := currentAnswer s; isAsking := isAsking s;
     databaseStatus := databaseStatus s; isUploading := isUploading s |}.
Definition setDocuments (f : list Document -> list Document) : M unit := modify (with_documents f).
Definition with_question (v : jsstring) (s : State) : State :=
  {| documents := documents s; question := v;
     qnaHistory := qnaHistory s; isProcessing := isProcessing s;
     enableHandwriting := enableHandwriting s; dragActive := dragActive s;
     currentAnswer := currentAnswer s; isAsking := isAsking s;
     databaseStatus := databaseStatus s; isUploading := isUploading s |}.
Definition setQuestion (v : jsstring) : M unit := modify (with_question v).
Definition with_qnaHistory (f : list QnAItem -> list QnAItem) (s : State) : State :=
  {| documents := documents s; question := question s;
     qnaHistory := f (qnaHistory s); isProcessing := isProcessing s;
     enableHandwriting := enableHandwriting s; dragActive := dragActive s;
     currentAnswer := currentAnswer s; isAsking := isAsking s;
     databaseStatus := databaseStatus s; isUploading := isUploading s |}.
Definition setQnaHistory (f : list QnAItem -> list QnAItem) : M unit := modify (with_qnaHistory f).
Definition with_isProcessing (v : bool) (s : State) : State :=
  {| documents := documents s; question := question s;
     qnaHistory := qnaHistory s; isProcessing := v;
     enableHandwriting := enableHandwriting s; dragActive := dragActive s;
     currentAnswer := currentAnswer s; isAsking := isAsking s;
     databaseStatus := databaseStatus s; isUploading := isUploading s |}.
Definition setIsProcessing (v : bool) : M unit := modify (with_isProcessing v).
Definition with_enableHandwriting (v : bool) (s : State) : State :=
  {| documents := documents s; question := question s;
     qnaHistory := qnaHistory s; isProcessing := isProcessing s;
     enableHandwriting := v; dragActive := dragActive s;
     currentAnswer := currentAnswer s; isAsking := isAsking s;
     databaseStatus := databaseStatus s; isUploading := isUploading s |}.
Definition setEnableHandwriting (v : bool) : M unit := modify (with_enableHandwriting v).
Definition with_dragActive (v : bool) (s : State) : State :=
  {| documents := documents s; question := question s;
     qnaHistory := qnaHistory s; isProcessing := isProcessing s;
     enableHandwriting := enableHandwriting s; dragActive := v;
     currentAnswer := currentAnswer s; isAsking := isAsking s;
     databaseStatus := databaseStatus s; isUploading := isUploading s |}.
Definition setDragActive (v : bool) : M unit := modify (with_dragActive v).
Definition with_currentAnswer (v : jsstring) (s : State) : State :=
  {| documents := documents s; question := question s;
     qnaHistory := qnaHistory s; isProcessing := isProcessing s;
     enableHandwriting := enableHandwriting s; dragActive := dragActive s;
     currentAnswer := v; isAsking := isAsking s;
     databaseStatus := databaseStatus s; isUploading := isUploading s |}.
Definition setCurrentAnswer (v : jsstring) : M unit := modify (with_currentAnswer v).
Definition with_isAsking (v : bool) (s : State) : State :=
  {| documents := documents s; question := question s;
     qnaHistory := qnaHistory s; isProcessing := isProcessing s;
     enableHandwriting := enableHandwriting s; dragActive := dragActive s;
     currentAnswer := currentAnswer s; isAsking := v;
     databaseStatus := databaseStatus s; isUploading := isUploading s |}.
Definition setIsAsking (v : bool) : M unit := modify (with_isAsking v).
Definition with_databaseStatus (v : DatabaseStatus) (s : State) : State :=
  {| documents := documents s; question := question s;
     qnaHistory := qnaHistory s; isProcessing := isProcessing s;
     enableHandwriting := enableHandwriting s; dragActive := dragActive s;
     currentAnswer := currentAnswer s; isAsking := isAsking s;
     databaseStatus := v; isUploading := isUploading s |}.
Definition setDatabaseStatus (v : DatabaseStatus) : M unit := modify (with_databaseStatus v).
Definition with_isUploading (v : bool) (s : State) : State :=
  {| documents := documents s; question := question s;
     qnaHistory := qnaHistory s; isProcessing := isProcessing s;
     enableHandwriting := enableHandwriting s; dragActive := dragActive s;
     currentAnswer := currentAnswer s; isAsking := isAsking s;
     databaseStatus := databaseStatus s; isUploading := v |}.
Definition setIsUploading (v : bool) : M unit := modify (with_isUploading v).

(** ** The handlers *)

(** The effect that runs when the component mounts. *)
Definition fetchStatus : M unit :=
  try_catch
    (status <- getStatus ;;
     setDatabaseStatus {| count := document_count status;
                          status := database_status status |})
    (fun error => console_error (js "Failed to fetch database status:") error).

(** The callback of [files.filter]. *)
Definition valid_file (file : File) : bool :=
  let isPDF := jsstring_eqb (file_type file) (js "application/pdf") in
  let isValidSize := (file_size file <=? 200 * 1024 * 1024)%N in
  isPDF && isValidSize.

(** The body of the loop of [handleFiles]. *)
Definition upload_one (file : File) : M unit :=
  try_catch
    (uploadResponse <- uploadFile file ;;
     id <- random_id ;;
     date <- now ;;
     let newDocument := {|
       doc_id := id;
       doc_name := file_name file;
       doc_size := file_size file;
       uploadedAt := date;
       temp_path := Some (upload_temp_path uploadResponse);
       processed := Some false
     |} in
     setDocuments (fun prev => prev ++ [newDocument]))
    (fun error =>
       console_error (js "Failed to upload " ++ file_name file ++ js ":") error).

Definition handleFiles (files : list File) : M unit :=
  let validFiles := filter valid_file files in
  setIsUploading true ;;
  for_of validFiles upload_one ;;
  setIsUploading false.

(** Truthiness of the optional fields of a document. *)
Definition is_processed (doc : Document) : bool :=
  match processed doc with Some b => b | None => false end.

Definition has_temp_path (doc : Document) : bool :=
  match temp_path doc with Some path => truthy path | None => false end.

(** [{ ...d, processed: true }] *)
Definition set_processed (d : Document) : Document :=
  {| doc_id := doc_id d; doc_name := doc_name d; doc_size := doc_size d;
     uploadedAt := uploadedAt d; temp_path := temp_path d;
     processed := Some true |}.

(** [d => d.id === doc.id ? { ...d, processed: true } : d] *)
Definition mark_processed (id : jsstring) (d : Document) : Document :=
  if jsstring_eqb (doc_id d) id then set_processed d else d.

(** The request [handleProcess] sends for a document whose temporary
    path is [path]. *)
Definition process_request (enableHandwriting : bool) (doc : Document)
  (path : jsstring) : ProcessRequest :=
  {| file_path := path;
     filename := doc_name doc;
     use_handwriting_ocr := enableHandwriting |}.

(** The body of the loop of [handleProcess]. *)
Definition process_one (enableHandwriting : bool) (doc : Document) : M unit :=
  match temp_path doc with
  | Some path =>
      if truthy path then
        processResponse <-
          processDocument (process_request enableHandwriting doc path) ;;
        if process_success processResponse
        then setDocuments (map (mark_processed (doc_id doc)))
        else ret tt
      else ret tt
  | None => ret tt
  end.

(** [documents.filter(doc => !doc.processed && doc.temp_path)] *)
Definition unprocessed (documents : list Document) : list Document :=
  filter (fun doc => negb (is_processed doc) && has_temp_path doc) documents.

(** [documents] and [enableHandwriting] are those of the render that
    created the handler. *)
Definition handleProcess : M unit :=
  documents <- read documents ;;
  enableHandwriting <- read enableHandwriting ;;
  setIsProcessing true ;;
  try_finally
    (try_catch
       (let unprocessedDocs := unprocessed documents in
        for_of unprocessedDocs (process_one enableHandwriting) ;;
        status <- getStatus ;;
        setDatabaseStatus {| count := document_count status;
                             status := database_status status |})
       (fun error => console_error (js "Processing failed:") error))
    (setIsProcessing false).

Definition handleResetDatabase : M unit :=
  try_catch
    (resetResponse <- resetDatabase ;;
     if reset_success resetResponse then
       setDocuments (fun _ => []) ;;
       setQnaHistory (fun _ => []) ;;
       setCurrentAnswer [] ;;
       status <- getStatus ;;
       setDatabaseStatus {| count := document_count status;
                            status := database_status status |}
     else ret tt)
    (fun error => console_error (js "Reset failed:") error).

Definition not_found_message : jsstring :=
  js "Sorry, I couldn't find relevant information in your documents.".

Definition error_message : jsstring :=
  js "An error occurred while processing your question. Please try again.".

Definition handleAsk : M unit :=
  question <- read question ;;
  if negb (truthy (trim question)) then ret tt
  else
    setIsAsking true ;;
    let newQuestion := question in
    setQuestion [] ;;
    try_finally
      (try_catch
         (queryResponse <- queryDocuments {| query := newQuestion;
                                             n_results := Some 10%Z |} ;;
          if query_success queryResponse then
            setCurrentAnswer (query_answer queryResponse) ;;
            id <- random_id ;;
            date <- now ;;
            let newQnA := {|
              qna_id := id;
              qna_question := newQuestion;
              qna_answer := query_answer queryResponse;
              timestamp := date
            |} in
            setQnaHistory (fun prev => newQnA :: prev)
          else
            setCurrentAnswer not_found_message)
         (fun error =>
            console_error (js "Query failed:") error ;;
            setCurrentAnswer error_message))
      (setIsAsking false).

(** Running a handler to its end. *)
Definition exec {A} (m : M A) (env : Env) (w : World) : World := snd (m env w).

(** The events a handler added to the trace of [w]. *)
Definition new_events (w w' : World) : list Event :=
  skipn (length (trace w)) (trace w').

(* ================================================================== *)
(** * Part 3: the vocabulary of the properties                         *)
(* ================================================================== *)

(** ** What is observed of a run *)

(** The files handed to [apiService.uploadFile], in call order. *)
Definition uploaded_files (evs : list Event) : list File :=
  flat_map (fun e => match e with UploadFile f _ => [f] | _ => [] end) evs.

(** The requests handed to [apiService.processDocument], in call order. *)
Definition process_requests (evs : list Event) : list ProcessRequest :=
  flat_map (fun e => match e with ProcessDocument r _ => [r] | _ => [] end) evs.

(** A call to [apiService.getStatus] was made. *)
Definition status_fetched (evs : list Event) : Prop :=
  exists res, In (GetStatus res) evs.

(** A call to [apiService.processDocument] threw. *)
Definition process_threw (evs : list Event) : Prop :=
  exists req error, In (ProcessDocument req (Rejected error)) evs.

(** A call to [apiService.processDocument] that returned. *)
Definition process_returned (e : Event) : Prop :=
  exists req r, e = ProcessDocument req (Resolved r).

(** The document [handleFiles] makes of an uploaded file. *)
Definition new_document (env : Env) (w : World) (file : File)
  (r : UploadResponse) : Document :=
  {| doc_id := Math_random_id env (draws w);
     doc_name := file_name file;
     doc_size := file_size file;
     uploadedAt := new_Date env (trace w ++ [UploadFile file (Resolved r)]);
     temp_path := Some (upload_temp_path r);
     processed := Some false |}.

(** The request that [handleProcess] sends for [doc]. *)
Definition doc_request (enableHandwriting : bool) (doc : Document)
  : ProcessRequest :=
  process_request enableHandwriting doc
    (match temp_path doc with Some path => path | None => [] end).

(** The request that [handleAsk] sends for the question [q]. *)
Definition ask_request (q : jsstring) : QueryRequest :=
  {| query := q; n_results := Some 10%Z |}.

(** The database status shown for a status response. *)
Definition status_of (s : StatusResponse) : DatabaseStatus :=
  {| count := document_count s; status := database_status s |}.

(** [ds'] is [ds] with some documents marked as processed. *)
Definition only_marked (ds ds' : list Document) : Prop :=
  Forall2 (fun d d' => d' = d \/ d' = set_processed d) ds ds'.

(** The two ways a run of [handleProcess] goes.  Either every
    unprocessed document is sent and every call returns, and the
    status call follows; *)
Definition process_run_completed (w w' : World) (evs : list Event) : Prop :=
  exists pevs tail,
    evs = pevs ++ tail /\
    Forall process_returned pevs /\
    process_requests pevs =
      map (doc_request (enableHandwriting (state w)))
          (unprocessed (documents (state w))) /\
    ((exists s, tail = [GetStatus (Resolved s)] /\
        databaseStatus (state w') = status_of s)
     \/
     (exists error,
        tail = [GetStatus (Rejected error);
                ConsoleError (js "Processing failed:") error] /\
        databaseStatus (state w') = databaseStatus (state w))).

(** or the call for some document throws, and the error is logged. *)
Definition process_run_aborted (w w' : World) (evs : list Event) : Prop :=
  exists pre doc post pevs error,
    unprocessed (documents (state w)) = pre ++ doc :: post /\
    evs = pevs ++
      [ProcessDocument (doc_request (enableHandwriting (state w)) doc)
         (Rejected error);
       ConsoleError (js "Processing failed:") error] /\
    Forall process_returned pevs /\
    process_requests pevs = map (doc_request (enableHandwriting (state w))) pre /\
    databaseStatus (state w') = databaseStatus (state w).

(** ** The invariant of the documents *)

(** No two documents have the same identifier. *)
Definition unique_ids (ds : list Document) : Prop := NoDup (map doc_id ds).

(** The number of documents with [processed = true]. *)
Definition processed_count (ds : list Document) : nat :=
  length (filter is_processed ds).

Definition documents_ok (w : World) : Prop :=
  unique_ids (documents (state w)) /\
  processed_count (documents (state w)) <= length (documents (state w)).

(** The worlds between whole runs: the component starts in
    [initial_world]; the mount effect and the four handlers run one
    after the other, each to its end, and between them the user edits
    the question, ticks the handwriting box and drags files over the
    drop zone.  The worlds inside a run and those of runs that overlap
    are those of [async_reachable] below. *)
Inductive reachable (env : Env) : World -> Prop :=
| reach_initial : reachable env initial_world
| reach_mount w :
    reachable env w -> reachable env (exec fetchStatus env w)
| reach_addFiles w files :
    reachable env w -> reachable env (exec (handleFiles files) env w)
| reach_processAll w :
    reachable env w -> reachable env (exec handleProcess env w)
| reach_resetDatabase w :
    reachable env w -> reachable env (exec handleResetDatabase env w)
| reach_ask w :
    reachable env w -> reachable env (exec handleAsk env w)
| reach_setQuestion w q :
    reachable env w -> reachable env (exec (setQuestion q) env w)
| reach_setEnableHandwriting w b :
    reachable env w -> reachable env (exec (setEnableHandwriting b) env w)
| reach_setDragActive w b :
    reachable env w -> reachable env (exec (setDragActive b) env w).

(** The first [n] identifiers that [Math.random] gave differ from one
    another.  Nothing is asked of the identifiers it gives later. *)
Definition distinct_draws (env : Env) (n : nat) : Prop :=
  forall i j, i < n -> j < n ->
    Math_random_id env i = Math_random_id env j -> i = j.

(** The identifiers of the documents differ and each was drawn. *)
Definition ids_drawn (env : Env) (w : World) : Prop :=
  unique_ids (documents (state w)) /\
  forall id, In id (map doc_id (documents (state w))) ->
    exists i, i < draws w /\ id = Math_random_id env i.

(** ** Lines and buffers *)

(** A text that starts and ends with a character that is not white
    space: what [trim] returns when it returns anything. *)
Definition starts_clean (s : jsstring) : Prop :=
  exists c t, s = c :: t /\ is_ws c = false.

Definition ends_clean (s : jsstring) : Prop :=
  exists t c, s = t ++ [c] /\ is_ws c = false.

Definition tidy (s : jsstring) : Prop := starts_clean s /\ ends_clean s.

(** The content buffers of [formatAnswer]: each piece followed by a
    space. *)
Definition spaced (pieces : list jsstring) : jsstring :=
  concat (map (fun x => x ++ [SPACE]) pieces).

(** A line has a header span. *)
Definition has_header_span (line : jsstring) : bool :=
  is_some (match_header line).

(** A line with [**] and no span that closes. *)
Definition unbalanced (line : jsstring) : Prop :=
  includes_stars line = true /\ match_header line = None.

(** The items of the lines, in line order. *)
Definition list_items (item : jsstring -> option jsstring)
  (lines : list jsstring) : list jsstring :=
  flat_map (fun line => match item line with Some t => [t] | None => [] end)
    lines.

Definition close_run (run : list jsstring) : list (list jsstring) :=
  match run with [] => [] | _ :: _ => [run] end.

(** The maximal runs of consecutive lines that are not items, in line
    order; [run] is the run that is open. *)
Fixpoint prose_runs (item : jsstring -> option jsstring)
  (run : list jsstring) (lines : list jsstring) : list (list jsstring) :=
  match lines with
  | [] => close_run run
  | line :: rest =>
      match item line with
      | Some _ => close_run run ++ prose_runs item [] rest
      | None => prose_runs item (run ++ [line]) rest
      end
  end.

Definition paragraph_of (run : list jsstring) : Jsx := p (join_space run).

Definition not_li (e : Jsx) : bool := negb (is_li e).

Definition nonempty {A} (l : list A) : bool := 0 <? length l.

(** ** The sections as the specification words them *)

(** A buffer is closed as one paragraph, its pieces joined by single
    spaces, when it is not empty. *)
Definition spec_flush (buffer : list jsstring) : list DisplayBlock :=
  match buffer with
  | [] => []
  | _ :: _ => [Paragraph (join_space buffer)]
  end.

(** The header section.  Lines without a header span go into the
    buffer; a line with one closes the buffer as a paragraph, gives a
    heading with the text inside the span, and what is left of the
    line once the span is taken out starts the next buffer.  The end
    of the section closes the buffer. *)
Definition spec_header_step (st : list DisplayBlock * list jsstring)
  (line : jsstring) : list DisplayBlock * list jsstring :=
  let '(out, buffer) := st in
  match header_search [] line with
  | Some (before, inner, after) =>
      let rest := trim (before ++ after) in
      (out ++ spec_flush buffer ++ [Heading inner],
       if truthy rest then [rest] else [])
  | None => (out, buffer ++ [line])
  end.

Definition spec_header_blocks (lines : list jsstring) : list DisplayBlock :=
  let '(out, buffer) := fold_left spec_header_step lines ([], []) in
  out ++ spec_flush buffer.

(** The bullet section: the text of all the lines that are not items,
    as one paragraph when there is any, then one list of all the
    items. *)
Definition spec_bullet_blocks (lines : list jsstring) : list DisplayBlock :=
  let prose := filter (fun line => negb (is_some (re_bullet line))) lines in
  spec_flush prose ++ [BulletList (list_items re_bullet lines)].

(** ** Sample inputs *)

Definition summary_and_body : jsstring :=
  ln (js "**Summary**") (js "This is the body.").

Definition title_and_unbalanced : jsstring :=
  ln (js "**Title**") (js "** hello").

Definition intro_and_two_items : jsstring :=
  ln (js "Intro text") (ln (js "* item one") (js "* item two")).

Definition interleaved : jsstring :=
  ln (js "a") (ln (js "* x") (ln (js "b") (js "* y"))).

Definition MiB : N := (1024 * 1024)%N.

Definition pdf (name : string) : File :=
  {| file_name := js name; file_type := js "application/pdf";
     file_size := 10 * MiB |}.

(** A 10 MiB PDF, a 5 MiB text file and a 250 MiB PDF. *)
Definition sample_files : list File :=
  [ pdf "a.pdf";
    {| file_name := js "notes.txt"; file_type := js "text/plain";
       file_size := 5 * MiB |};
    {| file_name := js "big.pdf"; file_type := js "application/pdf";
       file_size := 250 * MiB |} ].

Definition sample_status : StatusResponse :=
  {| status_success := true; document_count := 1%Z;
     database_status := js "ready"; status_message := js "ok" |}.

Definition sample_upload : UploadResponse :=
  {| upload_message := js "uploaded"; upload_filename := js "a.pdf";
     upload_temp_path := js "/tmp/a.pdf"; upload_size := 10%Z |}.

Definition sample_process (success : bool) : ProcessResponse :=
  {| process_success := success; process_message := js "done";
     process_filename := js "a.pdf"; chunks_created := 3%Z;
     processing_method := js "text"; total_characters := None |}.

Definition sample_query (success : bool) : QueryResponse :=
  {| query_success := success; query_query := js "what?";
     query_answer := js "**Summary**"; retrieved_documents := [];
     relevant_document_ids := []; context_used := [] |}.

Definition sample_reset (success : bool) : ResetResponse :=
  {| reset_success := success; reset_message := js "reset";
     actions_performed := [] |}.

(** A backend whose upload, status, query and reset calls return and
    whose process call ends as [process] says; the [n]-th identifier
    drawn is [id n]. *)
Definition sample_env (id : nat -> jsstring)
  (process : ProcessRequest -> Outcome ProcessResponse) : Env :=
  {| api_uploadFile := fun _ _ => Resolved sample_upload;
     api_processDocument := fun _ req => process req;
     api_queryDocuments := fun _ _ => Resolved (sample_query true);
     api_getStatus := fun _ => Resolved sample_status;
     api_resetDatabase := fun _ => Resolved (sample_reset true);
     Math_random_id := id;
     new_Date := fun t => N.of_nat (length t) |}.

(** The process call throws for "b.pdf" and returns [success = true]
    for any other file; every identifier drawn is "x". *)
Definition fails_on_b (req : ProcessRequest) : Outcome ProcessResponse :=
  if jsstring_eqb (filename req) (js "b.pdf")
  then Rejected (js "HTTP error! status: 500")
  else Resolved (sample_process true).

Definition env_b_throws : Env := sample_env (fun _ => js "x") fails_on_b.

(** The process call returns [success = false] for "a.pdf" and
    [success = true] for any other file. *)
Definition refuses_a (req : ProcessRequest) : Outcome ProcessResponse :=
  Resolved (sample_process (negb (jsstring_eqb (filename req) (js "a.pdf")))).

Definition env_a_refused : Env := sample_env (fun _ => js "x") refuses_a.

(** A generator of identifiers of seven characters in base 36 whose
    first two identifiers differ and whose third is the first again. *)
Definition two_then_again (n : nat) : jsstring :=
  nth n [js "k3j9x2a"; js "p0q8w7e"] (js "k3j9x2a").

Definition env_base36 : Env := sample_env two_then_again refuses_a.

Definition sample_doc (id name : string) : Document :=
  {| doc_id := js id; doc_name := js name; doc_size := 10%N;
     uploadedAt := 0%N; temp_path := Some (js "/tmp/" ++ js name);
     processed := Some false |}.

Definition world_with (s : State) : World :=
  {| state := s; trace := []; draws := 0 |}.

(** A world with two uploaded documents, neither processed. *)
Definition two_docs : World :=
  world_with
    (with_documents (fun _ => [sample_doc "d1" "a.pdf"; sample_doc "d2" "b.pdf"])
       initial_state).

(** A world in which the user has typed a question. *)
Definition asking : World :=
  world_with (with_question (js "what?") initial_state).

(** ** The rest of the component *)

(** [handleDrag], on the type of the drag event; [e.preventDefault()]
    and [e.stopPropagation()] act on the event alone. *)
Definition handleDrag (type : jsstring) : M unit :=
  if jsstring_eqb type (js "dragenter") || jsstring_eqb type (js "dragover")
  then setDragActive true
  else if jsstring_eqb type (js "dragleave")
  then setDragActive false
  else ret tt.

(** [handleDrop], on [Array.from(e.dataTransfer.files)]. *)
Definition handleDrop (files : list File) : M unit :=
  setDragActive false ;;
  handleFiles files.

(** [handleFileInput], on [e.target.files], which may be [null]. *)
Definition handleFileInput (files : option (list File)) : M unit :=
  match files with
  | Some files => handleFiles files
  | None => ret tt
  end.

(** [onKeyDown] of the question box, on [e.key] and [e.shiftKey]. *)
Definition onKeyDown (key : jsstring) (shiftKey : bool) : M unit :=
  if jsstring_eqb key (js "Enter") && negb shiftKey
  then handleAsk
  else ret tt.

(** [disabled] of the Process button. *)
Definition process_disabled (s : State) : bool :=
  (length (filter (fun d => negb (is_processed d)) (documents s)) =? 0)
  || isProcessing s.

(** [disabled] of the Ask button. *)
Definition ask_disabled (s : State) : bool :=
  negb (truthy (trim (question s))) || isAsking s
  || (count (databaseStatus s) =? 0)%Z.

(** ** More vocabulary *)

(** A text of white space only. *)
Definition all_ws (s : jsstring) : bool := forallb is_ws s.

(** A block shows some text: a heading and a list item are not empty,
    a paragraph is trimmed and not empty, a list has an item. *)
Definition shows_text (b : DisplayBlock) : Prop :=
  match b with
  | Heading t => t <> []
  | Paragraph t => tidy t
  | BulletList items | NumberedList items =>
      items <> [] /\ Forall (fun t => t <> []) items
  end.

(** The elements the loops push: a paragraph is trimmed and not empty,
    a heading and an item are not empty. *)
Definition leaf_ok (e : Jsx) : Prop :=
  match e with
  | p t => tidy t
  | h3 t | li t => t <> []
  | div _ | ul _ | ol _ => False
  end.

(** A block that is no list. *)
Definition is_prose (b : DisplayBlock) : Prop :=
  match b with
  | Heading _ | Paragraph _ => True
  | BulletList _ | NumberedList _ => False
  end.

(** The files of the upload calls that returned, in call order. *)
Definition accepted_uploads (evs : list Event) : list (File * UploadResponse) :=
  flat_map (fun e => match e with
                     | UploadFile f (Resolved r) => [(f, r)]
                     | _ => []
                     end) evs.

(** Every process call of the run returned [success = true]. *)
Definition all_processed_ok (evs : list Event) : Prop :=
  forall req res, In (ProcessDocument req res) evs ->
    exists r, res = Resolved r /\ process_success r = true.

(** The requests handed to [apiService.queryDocuments], in call order. *)
Definition query_requests (evs : list Event) : list QueryRequest :=
  flat_map (fun e => match e with QueryDocuments r _ => [r] | _ => [] end) evs.

(** The documents once each document of [docs] has been marked by
    its identifier, as the loop of [handleProcess] does when every
    call succeeds. *)
Definition mark_all (docs ds : list Document) : list Document :=
  fold_left (fun ds doc => map (mark_processed (doc_id doc)) ds) docs ds.

(** A document once the documents of [docs] have been marked. *)
Definition marked_by (docs : list Document) (d : Document) : Document :=
  if existsb (fun doc => jsstring_eqb (doc_id d) (doc_id doc)) docs
  then set_processed d else d.

(** A backend whose process calls all return [success = true]. *)
Definition env_all_ok : Env :=
  sample_env (fun _ => js "x") (fun _ => Resolved (sample_process true)).

(** What [handleProcess] may change of a document: nothing but the
    flag, and the flag from unprocessed to processed only. *)
Definition same_but_processed (d d' : Document) : Prop :=
  doc_id d' = doc_id d /\ doc_name d' = doc_name d /\
  doc_size d' = doc_size d /\ uploadedAt d' = uploadedAt d /\
  temp_path d' = temp_path d /\
  (is_processed d = true -> is_processed d' = true).

(** What is shown of a document that [handleFiles] made. *)
Definition uploaded_as (fr : File * UploadResponse) (d : Document) : Prop :=
  doc_name d = file_name (fst fr) /\ doc_size d = file_size (fst fr) /\
  temp_path d = Some (upload_temp_path (snd fr)) /\
  processed d = Some false.

(** A world in which the user has typed a question while the database
    is empty and an earlier question is still in flight. *)
Definition asking_when_disabled : World :=
  world_with (with_isAsking true (with_question (js "what?") initial_state)).

(** ** The component between awaits

    An [async] handler runs up to its first [await] and goes on when
    the awaited promise settles; in between, the component is rendered
    with the state it has, other handlers start and other promises
    settle.  A [Task] is what is left of a handler at an [await]: the
    call it waits for, the code that runs when the call settles with
    [r], up to the next [await] ([resume r]), and what is left of the
    handler then ([next r]). *)
Inductive Task : Type :=
| Done
| AwaitUpload (file : File)
    (resume : Outcome UploadResponse -> M unit)
    (next : Outcome UploadResponse -> Task)
| AwaitProcess (req : ProcessRequest)
    (resume : Outcome ProcessResponse -> M unit)
    (next : Outcome ProcessResponse -> Task)
| AwaitQuery (req : QueryRequest)
    (resume : Outcome QueryResponse -> M unit)
    (next : Outcome QueryResponse -> Task)
| AwaitStatus
    (resume : Outcome StatusResponse -> M unit)
    (next : Outcome StatusResponse -> Task)
| AwaitReset
    (resume : Outcome ResetResponse -> M unit)
    (next : Outcome ResetResponse -> Task).

(** The code after [await apiService.getStatus()], with the message of
    the [catch] that encloses it. *)
Definition show_status (message : jsstring) (r : Outcome StatusResponse)
  : M unit :=
  match r with
  | Resolved status =>
      setDatabaseStatus {| count := document_count status;
                           status := database_status status |}
  | Rejected error => console_error message error
  end.

(** [fetchStatus], at its [await]. *)
Definition fetchStatus_async : M Task :=
  ret (AwaitStatus (show_status (js "Failed to fetch database status:"))
         (fun _ => Done)).

(** The body of the loop of [handleFiles] after its [await]. *)
Definition uploaded (file : File) (r : Outcome UploadResponse) : M unit :=
  match r with
  | Resolved uploadResponse =>
      id <- random_id ;;
      date <- now ;;
      let newDocument := {|
        doc_id := id;
        doc_name := file_name file;
        doc_size := file_size file;
        uploadedAt := date;
        temp_path := Some (upload_temp_path uploadResponse);
        processed := Some false
      |} in
      setDocuments (fun prev => prev ++ [newDocument])
  | Rejected error =>
      console_error (js "Failed to upload " ++ file_name file ++ js ":") error
  end.

(** The loop of [handleFiles] at the [await] for the first of [files];
    after the last file [setIsUploading(false)] runs at once. *)
Fixpoint uploading (files : list File) : Task :=
  match files with
  | [] => Done
  | file :: rest =>
      AwaitUpload file
        (fun r =>
           uploaded file r ;;
           match rest with
           | [] => setIsUploading false
           | _ :: _ => ret tt
           end)
        (fun _ => uploading rest)
  end.

(** [handleFiles], up to its first [await]. *)
Definition handleFiles_async (files : list File) : M Task :=
  let validFiles := filter valid_file files in
  setIsUploading true ;;
  match validFiles with
  | [] => setIsUploading false ;; ret Done
  | _ :: _ => ret (uploading validFiles)
  end.

(** The body of the loop of [handleProcess] after its [await]: a call
    that throws leaves the loop for the [catch] and the [finally]. *)
Definition processed_one (doc : Document) (r : Outcome ProcessResponse)
  : M unit :=
  match r with
  | Resolved processResponse =>
      if process_success processResponse
      then setDocuments (map (mark_processed (doc_id doc)))
      else ret tt
  | Rejected error =>
      console_error (js "Processing failed:") error ;;
      setIsProcessing false
  end.

(** The loop of [handleProcess] at the [await] for the first of [docs]
    that has a path, and the status call after the loop. *)
Fixpoint processing (enableHandwriting : bool) (docs : list Document) : Task :=
  match docs with
  | [] =>
      AwaitStatus
        (fun r => show_status (js "Processing failed:") r ;;
                  setIsProcessing false)
        (fun _ => Done)
  | doc :: rest =>
      match temp_path doc with
      | Some path =>
          if truthy path then
            AwaitProcess (process_request enableHandwriting doc path)
              (processed_one doc)
              (fun r =>
                 match r with
                 | Resolved _ => processing enableHandwriting rest
                 | Rejected _ => Done
                 end)
          else processing enableHandwriting rest
      | None => processing enableHandwriting rest
      end
  end.

(** [handleProcess], up to its first [await]; the documents it goes
    through are those of the moment it starts. *)
Definition handleProcess_async : M Task :=
  documents <- read documents ;;
  enableHandwriting <- read enableHandwriting ;;
  setIsProcessing true ;;
  ret (processing enableHandwriting (unprocessed documents)).

(** The code of [handleResetDatabase] after its first [await]. *)
Definition was_reset (r : Outcome ResetResponse) : M unit :=
  match r with
  | Resolved resetResponse =>
      if reset_success resetResponse then
        setDocuments (fun _ => []) ;;
        setQnaHistory (fun _ => []) ;;
        setCurrentAnswer []
      else ret tt
  | Rejected error => console_error (js "Reset failed:") error
  end.

Definition handleResetDatabase_async : M Task :=
  ret (AwaitReset was_reset
         (fun r =>
            match r with
            | Resolved resetResponse =>
                if reset_success resetResponse
                then AwaitStatus (show_status (js "Reset failed:"))
                       (fun _ => Done)
                else Done
            | Rejected _ => Done
            end)).

(** The code of [handleAsk] after its [await]. *)
Definition answered (newQuestion : jsstring) (r : Outcome QueryResponse)
  : M unit :=
  match r with
  | Resolved queryResponse =>
      if query_success queryResponse then
        setCurrentAnswer (query_answer queryResponse) ;;
        id <- random_id ;;
        date <- now ;;
        let newQnA := {|
          qna_id := id;
          qna_question := newQuestion;
          qna_answer := query_answer queryResponse;
          timestamp := date
        |} in
        setQnaHistory (fun prev => newQnA :: prev)
      else
        setCurrentAnswer not_found_message
  | Rejected error =>
      console_error (js "Query failed:") error ;;
      setCurrentAnswer error_message
  end.

Definition handleAsk_async : M Task :=
  question <- read question ;;
  if negb (truthy (trim question)) then ret Done
  else
    setIsAsking true ;;
    let newQuestion := question in
    setQuestion [] ;;
    ret (AwaitQuery {| query := newQuestion; n_results := Some 10%Z |}
           (fun r => answered newQuestion r ;; setIsAsking false)
           (fun _ => Done)).

(** What starts a handler: the mount of the component and the events
    of the page. *)
Inductive UserEvent : Type :=
| Mount
| DragOver (type : jsstring)
| Drop (files : list File)
| FileInput (files : option (list File))
| ChangeQuestion (value : jsstring)
| KeyDown (key : jsstring) (shiftKey : bool)
| CheckHandwriting (checked : bool)
| ClickProcess
| ClickReset
| ClickAsk.

(** The handler of an event, run to its end with nothing in between. *)
Definition handler (e : UserEvent) : M unit :=
  match e with
  | Mount => fetchStatus
  | DragOver type => handleDrag type
  | Drop files => handleDrop files
  | FileInput files => handleFileInput files
  | ChangeQuestion value => setQuestion value
  | KeyDown key shiftKey => onKeyDown key shiftKey
  | CheckHandwriting checked => setEnableHandwriting checked
  | ClickProcess => handleProcess
  | ClickReset => handleResetDatabase
  | ClickAsk => handleAsk
  end.

(** The handler of an event up to its first [await]. *)
Definition start (e : UserEvent) : M Task :=
  match e with
  | Mount => fetchStatus_async
  | DragOver type => handleDrag type ;; ret Done
  | Drop files => setDragActive false ;; handleFiles_async files
  | FileInput files =>
      match files with
      | Some files => handleFiles_async files
      | None => ret Done
      end
  | ChangeQuestion value => setQuestion value ;; ret Done
  | KeyDown key shiftKey =>
      if jsstring_eqb key (js "Enter") && negb shiftKey
      then handleAsk_async
      else ret Done
  | CheckHandwriting checked => setEnableHandwriting checked ;; ret Done
  | ClickProcess => handleProcess_async
  | ClickReset => handleResetDatabase_async
  | ClickAsk => handleAsk_async
  end.

(** The component at some moment: its world and the handlers that
    wait at an [await]. *)
Record Config : Type := {
  world : World;
  pending : list Task
}.

Definition initial_config : Config :=
  {| world := initial_world; pending := [] |}.

(** An event starts its handler, which runs up to its first [await]. *)
Definition begin (env : Env) (e : UserEvent) (c : Config) : Config :=
  match start e env (world c) with
  | (Resolved t, w) => {| world := w; pending := t :: pending c |}
  | (Rejected _, w) => {| world := w; pending := pending c |}
  end.

(** What a call settles with. *)
Inductive Reply : Type :=
| UploadReply (r : Outcome UploadResponse)
| ProcessReply (r : Outcome ProcessResponse)
| QueryReply (r : Outcome QueryResponse)
| StatusReply (r : Outcome StatusResponse)
| ResetReply (r : Outcome ResetResponse).

(** The call a task waits for settles: the call goes into the trace
    with its outcome and the task runs up to its next [await]. *)
Definition settle (env : Env) (t : Task) (reply : Reply) (w : World)
  : option (World * Task) :=
  match t, reply with
  | AwaitUpload file resume next, UploadReply r =>
      Some (exec (resume r) env (emit (UploadFile file r) w), next r)
  | AwaitProcess req resume next, ProcessReply r =>
      Some (exec (resume r) env (emit (ProcessDocument req r) w), next r)
  | AwaitQuery req resume next, QueryReply r =>
      Some (exec (resume r) env (emit (QueryDocuments req r) w), next r)
  | AwaitStatus resume next, StatusReply r =>
      Some (exec (resume r) env (emit (GetStatus r) w), next r)
  | AwaitReset resume next, ResetReply r =>
      Some (exec (resume r) env (emit (ResetDatabase r) w), next r)
  | _, _ => None
  end.

Fixpoint replace_at {A} (i : nat) (x : A) (l : list A) : list A :=
  match l, i with
  | [], _ => []
  | _ :: rest, 0 => x :: rest
  | y :: rest, S j => y :: replace_at j x rest
  end.

(** The call of the [i]-th waiting handler settles with [reply];
    nothing happens when no handler waits there for such a call. *)
Definition deliver (env : Env) (i : nat) (reply : Reply) (c : Config) : Config :=
  match nth_error (pending c) i with
  | Some t =>
      match settle env t reply (world c) with
      | Some (w, t') => {| world := w; pending := replace_at i t' (pending c) |}
      | None => c
      end
  | None => c
  end.

(** The configurations the component can be in.  Events come at any
    moment, also while handlers wait, and the calls settle in any
    order and with any outcome, so that these are the states between
    the runs of the handlers, those inside a run, and those of runs
    that overlap.  Events on a button that is disabled are let
    through. *)
Inductive async_reachable (env : Env) : Config -> Prop :=
| async_initial : async_reachable env initial_config
| async_begin c e :
    async_reachable env c -> async_reachable env (begin env e c)
| async_deliver c i reply :
    async_reachable env c -> async_reachable env (deliver env i reply c).

(** A task that runs to its end with nothing in between, each call
    settling as the backend of [env] says. *)
Fixpoint drive (env : Env) (t : Task) (w : World) : World :=
  match t with
  | Done => w
  | AwaitUpload file resume next =>
      let r := api_uploadFile env (trace w) file in
      drive env (next r) (exec (resume r) env (emit (UploadFile file r) w))
  | AwaitProcess req resume next =>
      let r := api_processDocument env (trace w) req in
      drive env (next r) (exec (resume r) env (emit (ProcessDocument req r) w))
  | AwaitQuery req resume next =>
      let r := api_queryDocuments env (trace w) req in
      drive env (next r) (exec (resume r) env (emit (QueryDocuments req r) w))
  | AwaitStatus resume next =>
      let r := api_getStatus env (trace w) in
      drive env (next r) (exec (resume r) env (emit (GetStatus r) w))
  | AwaitReset resume next =>
      let r := api_resetDatabase env (trace w) in
      drive env (next r) (exec (resume r) env (emit (ResetDatabase r) w))
  end.

(** An event whose handler runs to its end with nothing in between. *)
Definition run_alone (env : Env) (e : UserEvent) (w : World) : World :=
  match start e env w with
  | (Resolved t, w0) => drive env t w0
  | (Rejected _, w0) => w0
  end.

(** What a piece of a handler may do to the documents and to the
    count of the identifiers drawn: keep the identifiers of the
    documents, empty the documents, or add one document whose
    identifier is the one drawn. *)
Inductive documents_step (env : Env) (w w' : World) : Prop :=
| step_same :
    map doc_id (documents (state w')) = map doc_id (documents (state w)) ->
    draws w <= draws w' ->
    documents_step env w w'
| step_clear :
    documents (state w') = [] ->
    draws w <= draws w' ->
    documents_step env w w'
| step_append d :
    documents (state w') = documents (state w) ++ [d] ->
    doc_id d = Math_random_id env (draws w) ->
    draws w' = S (draws w) ->
    documents_step env w w'.

(** Every piece of a task, whatever its calls settle with and whatever
    the world it resumes in, is a step of [R]. *)
Fixpoint task_steps (R : World -> World -> Prop) (env : Env) (t : Task) : Prop :=
  match t with
  | Done => True
  | AwaitUpload file resume next =>
      forall r,
        (forall w, R w (exec (resume r) env (emit (UploadFile file r) w))) /\
        task_steps R env (next r)
  | AwaitProcess req resume next =>
      forall r,
        (forall w, R w (exec (resume r) env (emit (ProcessDocument req r) w))) /\
        task_steps R env (next r)
  | AwaitQuery req resume next =>
      forall r,
        (forall w, R w (exec (resume r) env (emit (QueryDocuments req r) w))) /\
        task_steps R env (next r)
  | AwaitStatus resume next =>
      forall r,
        (forall w, R w (exec (resume r) env (emit (GetStatus r) w))) /\
        task_steps R env (next r)
  | AwaitReset resume next =>
      forall r,
        (forall w, R w (exec (resume r) env (emit (ResetDatabase r) w))) /\
        task_steps R env (next r)
  end.

(** The two halves of the invariant of the documents, the second under
    the one thing it depends on: that the identifiers drawn up to now
    differ. *)
Definition documents_sound (env : Env) (w : World) : Prop :=
  processed_count (documents (state w)) <= length (documents (state w)) /\
  (distinct_draws env (draws w) -> unique_ids (documents (state w))).

(** Two files are dropped; the first upload returns; the Process
    button is clicked while the second upload is under way; the second
    upload returns; the process call for the first document returns.
    The status call of [handleProcess] is still to come. *)
Definition overlapping_runs : Config :=
  deliver env_base36 0 (ProcessReply (Resolved (sample_process true)))
    (deliver env_base36 1 (UploadReply (Resolved sample_upload))
       (begin env_base36 ClickProcess
          (deliver env_base36 0 (UploadReply (Resolved sample_upload))
             (begin env_base36 (Drop [pdf "a.pdf"; pdf "b.pdf"])
                initial_config)))).

(** ** [apiService]: the calls over HTTP *)

Module Api.

Definition API_BASE_URL : jsstring := js "http://localhost:8000".

(** A value that [response.json()] resolves with.  A number is kept
    by what this code can see of it: whether it is falsy (zero or
    NaN), and the text [ToString] gives for it.  An object is the list
    of its own properties. *)
#[warnings="-register-all"]
Inductive Json : Type :=
| JNull
| JBool (b : bool)
| JNumber (falsy : bool) (text : jsstring)
| JString (s : jsstring)
| JArray (items : list Json)
| JObject (props : list (jsstring * Json)).

(** What [fetch] resolves with: [response.ok], [response.status] and
    the outcome of [response.json()]. *)
Record Response : Type := {
  ok : bool;
  status : N;
  json : Outcome Json
}.

Definition Headers : Type := list (jsstring * jsstring).

Inductive Body : Type :=
| TextBody (text : jsstring)
| FormData (fields : list (jsstring * File)).

(** [RequestInit], with the three properties this code sets; [None]
    is a property that is not there, and headers are an object of
    names and values. *)
Record RequestInit : Type := {
  method : option jsstring;
  headers : option Headers;
  body : option Body
}.

Definition Fetch : Type := jsstring -> RequestInit -> Outcome Response.

(** What a call ends with when it throws: an error with its message,
    or a [TypeError] of the engine. *)
Inductive Failure : Type :=
| Thrown (error : Error)
| TypeError.

Inductive Result (A : Type) : Type :=
| Returns (a : A)
| Fails (f : Failure).
Arguments Returns {A} a.
Arguments Fails {A} f.

(** [o[key]] on the own properties of an object. *)
Fixpoint lookup (key : jsstring) (props : list (jsstring * Json))
  : option Json :=
  match props with
  | [] => None
  | (k, v) :: rest => if jsstring_eqb k key then Some v else lookup key rest
  end.

Definition has_key (key : jsstring) (props : list (jsstring * Json)) : bool :=
  is_some (lookup key props).

(** [errorData.detail]: [None] is the [TypeError] of reading a property
    of [null]; [Some None] is [undefined], which is what a value
    without an own property [detail] gives. *)
Definition get_detail (errorData : Json) : option (option Json) :=
  match errorData with
  | JNull => None
  | JObject props => Some (lookup (js "detail") props)
  | _ => Some None
  end.

(** [ToBoolean] *)
Definition truthy_json (v : Json) : bool :=
  match v with
  | JNull => false
  | JBool b => b
  | JNumber falsy _ => negb falsy
  | JString s => truthy s
  | JArray _ | JObject _ => true
  end.

(** [parts.join(',')] *)
Fixpoint join_comma (parts : list jsstring) : jsstring :=
  match parts with
  | [] => []
  | [x] => x
  | x :: rest => x ++ 44%N :: join_comma rest
  end.

Fixpoint sequence {A} (l : list (option A)) : option (list A) :=
  match l with
  | [] => Some []
  | Some x :: rest =>
      match sequence rest with Some xs => Some (x :: xs) | None => None end
  | None :: _ => None
  end.

(** [ToString]; [None] is the [TypeError] of an object that cannot be
    made a primitive.  An array is its elements joined by commas,
    [null] counting for the empty string; an object is
    "[object Object]", unless it has an own property [toString],
    which is no function and leaves nothing to call. *)
Fixpoint to_string (v : Json) : option jsstring :=
  match v with
  | JNull => Some (js "null")
  | JBool true => Some (js "true")
  | JBool false => Some (js "false")
  | JNumber _ text => Some text
  | JString s => Some s
  | JArray items =>
      match sequence (map (fun item =>
                             match item with
                             | JNull => Some []
                             | _ => to_string item
                             end) items) with
      | Some parts => Some (join_comma parts)
      | None => None
      end
  | JObject props =>
      if has_key (js "toString") props then None
      else Some (js "[object Object]")
  end.

(** [`${response.status}`] *)
Definition decimal (n : N) : jsstring :=
  js (NilZero.string_of_uint (N.to_uint n)).

(** [throw new Error(message)] *)
Definition throw_new_Error {A} (message : Json) : Result A :=
  match to_string message with
  | Some text => Fails (Thrown text)
  | None => Fails TypeError
  end.

(** The body of [if (!response.ok)], which [request] and [uploadFile]
    have word for word, but for the text [prefix] before the status:
<<
    const errorData = await response.json().catch(() => ({}))
    throw new Error(errorData.detail || `...${response.status}`)
>> *)
Definition throw_for {A} (prefix : jsstring) (response : Response) : Result A :=
  let errorData :=
    match json response with
    | Resolved v => v
    | Rejected _ => JObject []
    end in
  match get_detail errorData with
  | None => Fails TypeError
  | Some detail =>
      let fallback := JString (prefix ++ decimal (status response)) in
      throw_new_Error
        match detail with
        | Some v => if truthy_json v then v else fallback
        | None => fallback
        end
  end.

(** [return response.json()] *)
Definition return_json (response : Response) : Result Json :=
  match json response with
  | Resolved v => Returns v
  | Rejected error => Fails (Thrown error)
  end.

(** [obj[key] = value] on a list of headers. *)
Fixpoint set_header (key value : jsstring) (h : Headers) : Headers :=
  match h with
  | [] => [(key, value)]
  | (k, v) :: rest =>
      if jsstring_eqb k key then (k, value) :: rest
      else (k, v) :: set_header key value rest
  end.

(** [{ ...base, ...over }] on headers. *)
Definition spread_headers (base : Headers) (over : option Headers) : Headers :=
  match over with
  | Some h => fold_left (fun acc kv => set_header (fst kv) (snd kv) acc) h base
  | None => base
  end.

(** [{ ...base, ...over }] on [RequestInit]: a property of [over]
    takes the place of the one of [base]. *)
Definition spread (base over : RequestInit) : RequestInit :=
  {| method := match method over with Some m => Some m | None => method base end;
     headers := match headers over with Some h => Some h | None => headers base end;
     body := match body over with Some b => Some b | None => body base end |}.

(** The second argument of [fetch] in [request]. *)
Definition request_init (options : RequestInit) : RequestInit :=
  spread
    {| method := None;
       headers := Some (spread_headers
                          [(js "Content-Type", js "application/json")]
                          (headers options));
       body := None |}
    options.

(** [request<T>(endpoint, options)] *)
Definition request (fetch : Fetch) (endpoint : jsstring)
  (options : RequestInit) : Result Json :=
  let url := API_BASE_URL ++ endpoint in
  match fetch url (request_init options) with
  | Rejected error => Fails (Thrown error)
  | Resolved response =>
      if negb (ok response)
      then throw_for (js "HTTP error! status: ") response
      else return_json response
  end.

(** The second argument of [fetch] in [uploadFile]. *)
Definition upload_init (file : File) : RequestInit :=
  let formData := [(js "file", file)] in
  {| method := Some (js "POST"); headers := None;
     body := Some (FormData formData) |}.

Definition uploadFile (fetch : Fetch) (file : File) : Result Json :=
  match fetch (API_BASE_URL ++ js "/upload") (upload_init file) with
  | Rejected error => Fails (Thrown error)
  | Resolved response =>
      if negb (ok response)
      then throw_for (js "Upload failed: ") response
      else return_json response
  end.

Definition getStatus (fetch : Fetch) : Result Json :=
  request fetch (js "/status")
    {| method := Some (js "GET"); headers := None; body := None |}.

Definition resetDatabase (fetch : Fetch) : Result Json :=
  request fetch (js "/reset")
    {| method := Some (js "DELETE"); headers := None; body := None |}.

Definition healthCheck (fetch : Fetch) : Result Json :=
  request fetch (js "/")
    {| method := Some (js "GET"); headers := None; body := None |}.

(** A call that threw an [Error] with this message. *)
Definition fails_with {A} (r : Result A) (message : jsstring) : Prop :=
  r = Fails (Thrown message).

(** An error body with no message to take: one that does not parse,
    or a value other than [null] whose [detail] is missing or falsy. *)
Definition no_detail (body : Outcome Json) : Prop :=
  match body with
  | Rejected _ => True
  | Resolved v =>
      match get_detail v with
      | None => False
      | Some None => True
      | Some (Some d) => truthy_json d = false
      end
  end.

(** A backend that answers every call with the status 422 and the
    body [body]. *)
Definition answers_422 (body : Outcome Json) : Fetch :=
  fun _ _ => Resolved {| ok := false; status := 422; json := body |}.

End Api.

(* ================================================================== *)
(** * Part 4: properties                                               *)
(* ================================================================== *)

(** ** The formatter on small inputs *)

Example format_plain_text :
  format (js "hello world") = [Paragraph (js "hello world")].
Proof. reflexivity. Qed.

Example format_numbered_list :
  format (ln (js "1. first") (js "2. second"))
  = [NumberedList [js "first"; js "second"]].
Proof. reflexivity. Qed.

Example format_empty_input : format (js "") = [] /\ format (js "   ") = [].
Proof. split; reflexivity. Qed.

Example format_two_sections :
  formatAnswer (ln (js "one") (ln (js "  ") (ln (js "") (ln (js " two") (js "more")))))
  = [Some (p (js "one")); Some (p (js "two more"))].
Proof. reflexivity. Qed.

(** Only the first span of a line is a heading; the text around it,
    later spans included, goes into the buffer. *)
Example format_line_with_two_spans :
  format (js "Intro **Head** tail **B** x")
  = [Heading (js "Head"); Paragraph (js "Intro  tail **B** x")].
Proof. reflexivity. Qed.

(** ** Basic facts *)

Lemma jsstring_eqb_eq (a b : jsstring) : jsstring_eqb a b = true <-> a = b.
Proof.
  revert b; induction a as [|x a IH]; intros [|y b]; simpl; split;
    try congruence; try discriminate.
  - intros H. apply andb_true_iff in H as [Hx Hab].
    apply N.eqb_eq in Hx. apply IH in Hab. congruence.
  - intros H. injection H as -> ->. rewrite N.eqb_refl. simpl. now apply IH.
Qed.

Lemma jsstring_eqb_refl (a : jsstring) : jsstring_eqb a a = true.
Proof. now apply jsstring_eqb_eq. Qed.

Lemma new_events_app (w w' : World) (evs : list Event) :
  trace w' = trace w ++ evs -> new_events w w' = evs.
Proof.
  intros H. unfold new_events. rewrite H.
  rewrite skipn_app, skipn_all, Nat.sub_diag. reflexivity.
Qed.

Lemma uploaded_files_app (a b : list Event) :
  uploaded_files (a ++ b) = uploaded_files a ++ uploaded_files b.
Proof. apply flat_map_app. Qed.

Lemma process_requests_app (a b : list Event) :
  process_requests (a ++ b) = process_requests a ++ process_requests b.
Proof. apply flat_map_app. Qed.

(** ** [handleFiles] *)

(** One turn of the loop: the file is uploaded; a document is appended
    when the call returns, the error is logged when it throws. *)
Lemma upload_one_run (env : Env) (w : World) (file : File) :
  exists w', upload_one file env w = (Resolved tt, w') /\
    ((exists r, api_uploadFile env (trace w) file = Resolved r /\
        trace w' = trace w ++ [UploadFile file (Resolved r)] /\
        documents (state w') =
          documents (state w) ++ [new_document env w file r] /\
        draws w' = S (draws w))
     \/
     (exists error, api_uploadFile env (trace w) file = Rejected error /\
        trace w' = trace w ++
          [UploadFile file (Rejected error);
           ConsoleError (js "Failed to upload " ++ file_name file ++ js ":") error] /\
        state w' = state w /\ draws w' = draws w)).
Proof.
  unfold upload_one, try_catch, bind, uploadFile, call.
  destruct (api_uploadFile env (trace w) file) as [r|error] eqn:E.
  - eexists. split; [reflexivity|]. left. exists r. repeat split.
  - eexists. split; [reflexivity|]. right. exists error.
    split; [reflexivity|]. cbn. rewrite <- app_assoc. repeat split.
Qed.

Lemma upload_loop_run (env : Env) (files : list File) : forall w,
  exists w' evs, for_of files upload_one env w = (Resolved tt, w') /\
    trace w' = trace w ++ evs /\
    uploaded_files evs = files /\
    (forall message error, In (ConsoleError message error) evs ->
       exists file, In file files /\
         In (UploadFile file (Rejected error)) evs /\
         message = js "Failed to upload " ++ file_name file ++ js ":").
Proof.
  induction files as [|file files IH]; intros w.
  - exists w, []. cbn. rewrite app_nil_r. repeat split. intros ? ? [].
  - destruct (upload_one_run env w file) as (w1 & Hrun & Hcases).
    destruct (IH w1) as (w' & evs & Hloop & Htr & Hup & Hlog).
    assert (Hfor : for_of (file :: files) upload_one env w = (Resolved tt, w')).
    { cbn. unfold bind at 1. rewrite Hrun. exact Hloop. }
    destruct Hcases as [(r & _ & Htr1 & _)|(error & _ & Htr1 & _)].
    + exists w', (UploadFile file (Resolved r) :: evs).
      split; [exact Hfor|]. split; [|split].
      * rewrite Htr, Htr1, <- app_assoc. reflexivity.
      * cbn. now rewrite <- Hup.
      * intros message error [Heq|Hin]; [discriminate|].
        destruct (Hlog _ _ Hin) as (f & Hf & Hev & Hmsg).
        exists f. repeat split; [now right|now right|exact Hmsg].
    + exists w', (UploadFile file (Rejected error)
                  :: ConsoleError (js "Failed to upload " ++ file_name file ++ js ":") error
                  :: evs).
      split; [exact Hfor|]. split; [|split].
      * rewrite Htr, Htr1, <- app_assoc. reflexivity.
      * cbn. now rewrite <- Hup.
      * intros message error' [Heq|[Heq|Hin]]; [discriminate| |].
        -- injection Heq as <- <-. exists file.
           repeat split; [now left|now left].
        -- destruct (Hlog _ _ Hin) as (f & Hf & Hev & Hmsg).
           exists f. repeat split; [now right|now right; right|exact Hmsg].
Qed.

Lemma handleFiles_run (env : Env) (files : list File) (w : World) :
  exists evs, trace (exec (handleFiles files) env w) = trace w ++ evs /\
    uploaded_files evs = filter valid_file files /\
    (forall message error, In (ConsoleError message error) evs ->
       exists file, In file (filter valid_file files) /\
         In (UploadFile file (Rejected error)) evs /\
         message = js "Failed to upload " ++ file_name file ++ js ":").
Proof.
  unfold exec, handleFiles, bind at 1. cbn [setIsUploading modify].
  set (w0 := {| state := _; trace := trace w; draws := draws w |}).
  destruct (upload_loop_run env (filter valid_file files) w0)
    as (w' & evs & Hloop & Htr & Hup & Hlog).
  exists evs. unfold bind. rewrite Hloop. cbn. auto.
Qed.

Lemma valid_file_iff (file : File) :
  valid_file file = true <->
  file_type file = js "application/pdf" /\
  (file_size file <= 200 * 1024 * 1024)%N.
Proof.
  unfold valid_file. rewrite andb_true_iff, jsstring_eqb_eq, N.leb_le.
  reflexivity.
Qed.

(** C8.  [handleFiles] keeps exactly the files of type
    "application/pdf" and of size at most 200 * 1024 * 1024 bytes: the
    upload calls it makes are those for the kept files, in input order,
    whatever the backend answers; the only errors it logs are those of
    upload calls that threw, so a dropped file leaves no trace at all;
    and of a 10 MiB PDF, a 5 MiB text file and a 250 MiB PDF only the
    first is uploaded. *)
Theorem handleFiles_uploads_exactly_valid_files :
  (forall file, valid_file file = true <->
     file_type file = js "application/pdf" /\
     (file_size file <= 200 * 1024 * 1024)%N)
  /\ (forall env files w,
        uploaded_files (new_events w (exec (handleFiles files) env w))
        = filter valid_file files)
  /\ (forall env files w message error,
        In (ConsoleError message error)
           (new_events w (exec (handleFiles files) env w)) ->
        exists file, In file files /\ valid_file file = true /\
          In (UploadFile file (Rejected error))
             (new_events w (exec (handleFiles files) env w)))
  /\ (forall env w,
        uploaded_files (new_events w (exec (handleFiles sample_files) env w))
        = [pdf "a.pdf"]).
Proof.
  split; [exact valid_file_iff|].
  split; [|split].
  - intros env files w.
    destruct (handleFiles_run env files w) as (evs & Htr & Hup & _).
    now rewrite (new_events_app _ _ _ Htr).
  - intros env files w message error.
    destruct (handleFiles_run env files w) as (evs & Htr & _ & Hlog).
    rewrite (new_events_app _ _ _ Htr). intros Hin.
    destruct (Hlog _ _ Hin) as (file & Hf & Hev & _).
    apply filter_In in Hf as [Hf Hv]. exists file. auto.
  - intros env w.
    destruct (handleFiles_run env sample_files w) as (evs & Htr & Hup & _).
    now rewrite (new_events_app _ _ _ Htr), Hup.
Qed.

(** ** [handleProcess] *)

Lemma only_marked_refl (ds : list Document) : only_marked ds ds.
Proof. induction ds; constructor; auto. Qed.

Lemma only_marked_map (id : jsstring) (ds : list Document) :
  only_marked ds (map (mark_processed id) ds).
Proof.
  induction ds as [|d ds IH]; cbn; constructor; auto.
  unfold mark_processed. destruct (jsstring_eqb (doc_id d) id); auto.
Qed.

Lemma only_marked_trans (a b c : list Document) :
  only_marked a b -> only_marked b c -> only_marked a c.
Proof.
  intros Hab; revert c; induction Hab as [|x y a b Hxy Hab IH]; intros c Hbc;
    inversion Hbc as [|y' z b' c' Hyz Hbc']; subst; constructor.
  - destruct Hxy as [->| ->], Hyz as [->| ->]; auto.
  - now apply IH.
Qed.

Lemma only_marked_ids (ds ds' : list Document) :
  only_marked ds ds' -> map doc_id ds' = map doc_id ds.
Proof.
  induction 1 as [|d d' ds ds' [->| ->] _ IH]; cbn; congruence.
Qed.

Lemma only_marked_length (ds ds' : list Document) :
  only_marked ds ds' -> length ds' = length ds.
Proof. intros H. symmetry. exact (Forall2_length H). Qed.

(** One turn of the loop on a document that has a temporary path. *)
Lemma process_one_run (env : Env) (h : bool) (doc : Document) (w : World) :
  has_temp_path doc = true ->
  match api_processDocument env (trace w) (doc_request h doc) with
  | Resolved r =>
      exists w', process_one h doc env w = (Resolved tt, w') /\
        trace w' = trace w ++ [ProcessDocument (doc_request h doc) (Resolved r)] /\
        draws w' = draws w /\
        databaseStatus (state w') = databaseStatus (state w) /\
        documents (state w') =
          (if process_success r
           then map (mark_processed (doc_id doc)) (documents (state w))
           else documents (state w))
  | Rejected error =>
      process_one h doc env w =
        (Rejected error,
         emit (ProcessDocument (doc_request h doc) (Rejected error)) w)
  end.
Proof.
  unfold has_temp_path, process_one, doc_request.
  destruct (temp_path doc) as [path|]; [|discriminate].
  intros ->. unfold bind, processDocument, call.
  destruct (api_processDocument env (trace w) (process_request h doc path))
    as [r|error]; [|reflexivity].
  destruct (process_success r); eexists; (split; [reflexivity|]); cbn; auto.
Qed.

(** The loop of [handleProcess] over documents that have a temporary
    path: either every document is sent and every call returns, or
    the calls stop at the first one that throws. *)
Lemma process_loop_run (env : Env) (h : bool) (docs : list Document) :
  Forall (fun doc => has_temp_path doc = true) docs ->
  forall w, exists r w' evs,
    for_of docs (process_one h) env w = (r, w') /\
    trace w' = trace w ++ evs /\
    draws w' = draws w /\
    databaseStatus (state w') = databaseStatus (state w) /\
    only_marked (documents (state w)) (documents (state w')) /\
    match r with
    | Resolved _ =>
        Forall process_returned evs /\
        process_requests evs = map (doc_request h) docs
    | Rejected error =>
        exists pre doc post pevs,
          docs = pre ++ doc :: post /\
          evs = pevs ++ [ProcessDocument (doc_request h doc) (Rejected error)] /\
          Forall process_returned pevs /\
          process_requests pevs = map (doc_request h) pre
    end.
Proof.
  induction 1 as [|doc docs Hdoc Hdocs IH]; intros w.
  - exists (Resolved tt), w, []. cbn. rewrite app_nil_r.
    repeat split; auto using only_marked_refl.
  - pose proof (process_one_run env h doc w Hdoc) as Hone.
    destruct (api_processDocument env (trace w) (doc_request h doc))
      as [r1|error] eqn:Eapi.
    + destruct Hone as (w1 & Hrun & Htr1 & Hdr1 & Hst1 & Hdocs1).
      destruct (IH w1) as (r & w' & evs & Hloop & Htr & Hdr & Hst & Hmark & Hcase).
      exists r, w', (ProcessDocument (doc_request h doc) (Resolved r1) :: evs).
      split; [cbn; unfold bind at 1; rewrite Hrun; exact Hloop|].
      split; [rewrite Htr, Htr1, <- app_assoc; reflexivity|].
      split; [congruence|]. split; [congruence|].
      split.
      { apply only_marked_trans with (documents (state w1)); [|exact Hmark].
        rewrite Hdocs1. destruct (process_success r1);
          auto using only_marked_refl, only_marked_map. }
      destruct r as [[]|error].
      * destruct Hcase as [Hall Hreq]. split.
        -- constructor; [now exists (doc_request h doc), r1|exact Hall].
        -- cbn. now rewrite <- Hreq.
      * destruct Hcase as (pre & d & post & pevs & -> & -> & Hall & Hreq).
        exists (doc :: pre), d, post,
          (ProcessDocument (doc_request h doc) (Resolved r1) :: pevs).
        repeat split.
        -- constructor; [now exists (doc_request h doc), r1|exact Hall].
        -- cbn. now rewrite <- Hreq.
    + exists (Rejected error),
        (emit (ProcessDocument (doc_request h doc) (Rejected error)) w),
        [ProcessDocument (doc_request h doc) (Rejected error)].
      split; [cbn; unfold bind at 1; rewrite Hone; reflexivity|].
      cbn. repeat split; auto using only_marked_refl.
      exists [], doc, docs, []. repeat split; auto.
Qed.

Lemma unprocessed_has_temp_path (ds : list Document) :
  Forall (fun doc => has_temp_path doc = true) (unprocessed ds).
Proof.
  apply Forall_forall. intros d Hd. apply filter_In in Hd as [_ Hd].
  now apply andb_true_iff in Hd.
Qed.

Lemma handleProcess_run (env : Env) (w : World) :
  let w' := exec handleProcess env w in
  exists evs,
    trace w' = trace w ++ evs /\
    draws w' = draws w /\
    isProcessing (state w') = false /\
    only_marked (documents (state w)) (documents (state w')) /\
    (process_run_completed w w' evs \/ process_run_aborted w w' evs).
Proof.
  intros w'.
  assert (Hw' : w' = exec handleProcess env w) by reflexivity. clearbody w'.
  unfold exec, handleProcess, bind at 1 in Hw'. cbn [read] in Hw'.
  unfold bind at 1 in Hw'. cbn [read] in Hw'.
  unfold bind at 1 in Hw'. cbn [setIsProcessing modify] in Hw'.
  set (w0 := {| state := _; trace := trace w; draws := draws w |}) in Hw'.
  unfold try_finally, try_catch, bind at 1 in Hw'.
  destruct (process_loop_run env (enableHandwriting (state w))
              (unprocessed (documents (state w)))
              (unprocessed_has_temp_path (documents (state w))) w0)
    as (r & w1 & pevs & Hloop & Htr & Hdr & Hst & Hmark & Hcase).
  rewrite Hloop in Hw'. destruct r as [[]|error].
  - destruct Hcase as [Hall Hreq].
    unfold bind, getStatus, call in Hw'.
    destruct (api_getStatus env (trace w1)) as [s|error] eqn:Eapi; subst w'.
    + exists (pevs ++ [GetStatus (Resolved s)]). cbn.
      split; [rewrite Htr; cbn; now rewrite app_assoc|].
      repeat split; auto.
      left. exists pevs, [GetStatus (Resolved s)]. repeat split; auto.
      left. exists s. auto.
    + exists (pevs ++ [GetStatus (Rejected error);
                       ConsoleError (js "Processing failed:") error]). cbn.
      split; [rewrite Htr; cbn; now rewrite <- !app_assoc|].
      repeat split; auto.
      left. exists pevs, [GetStatus (Rejected error);
                          ConsoleError (js "Processing failed:") error].
      repeat split; auto. right. exists error. auto.
  - destruct Hcase as (pre & doc & post & pevs0 & Hsplit & -> & Hall & Hreq).
    subst w'.
    exists (pevs0 ++
      [ProcessDocument (doc_request (enableHandwriting (state w)) doc)
         (Rejected error);
       ConsoleError (js "Processing failed:") error]). cbn.
    split; [rewrite Htr; cbn; now rewrite <- !app_assoc|].
    repeat split; auto.
    right. exists pre, doc, post, pevs0, error. repeat split; auto.
Qed.

Lemma process_returned_not_status (evs : list Event) :
  Forall process_returned evs -> ~ status_fetched evs.
Proof.
  intros Hall (res & Hin).
  rewrite Forall_forall in Hall. destruct (Hall _ Hin) as (? & ? & ?).
  discriminate.
Qed.

Lemma process_returned_not_threw (evs : list Event) :
  Forall process_returned evs -> ~ process_threw evs.
Proof.
  intros Hall (req & error & Hin).
  rewrite Forall_forall in Hall. destruct (Hall _ Hin) as (? & ? & ?).
  discriminate.
Qed.

Lemma completed_run_facts (w w' : World) (evs : list Event) :
  process_run_completed w w' evs ->
  status_fetched evs /\ ~ process_threw evs /\
  (forall s, In (GetStatus (Resolved s)) evs ->
     databaseStatus (state w') = status_of s) /\
  process_requests evs =
    map (doc_request (enableHandwriting (state w)))
        (unprocessed (documents (state w))).
Proof.
  intros (pevs & tail & -> & Hall & Hreq & Htail).
  pose proof (process_returned_not_status pevs Hall) as Hns.
  pose proof (process_returned_not_threw pevs Hall) as Hnt.
  rewrite process_requests_app, Hreq.
  destruct Htail as [(s & -> & Hst)|(error & -> & Hst)].
  - split; [exists (Resolved s); apply in_or_app; right; now left|].
    split; [|split].
    + intros (req & error & Hin). apply in_app_or in Hin as [Hin|[Hin|[]]].
      * apply Hnt. now exists req, error.
      * discriminate.
    + intros s' Hin. apply in_app_or in Hin as [Hin|[Hin|[]]].
      * exfalso. apply Hns. now exists (Resolved s').
      * injection Hin as ->. exact Hst.
    + cbn. now rewrite app_nil_r.
  - split; [exists (Rejected error); apply in_or_app; right; now left|].
    split; [|split].
    + intros (req & error' & Hin).
      apply in_app_or in Hin as [Hin|[Hin|[Hin|[]]]]; try discriminate.
      apply Hnt. now exists req, error'.
    + intros s' Hin.
      apply in_app_or in Hin as [Hin|[Hin|[Hin|[]]]]; try discriminate.
      exfalso. apply Hns. now exists (Resolved s').
    + cbn. now rewrite app_nil_r.
Qed.

Lemma aborted_run_facts (w w' : World) (evs : list Event) :
  process_run_aborted w w' evs ->
  ~ status_fetched evs /\ process_threw evs /\
  databaseStatus (state w') = databaseStatus (state w).
Proof.
  intros (pre & doc & post & pevs & error & Hsplit & -> & Hall & Hreq & Hst).
  split; [|split; [|exact Hst]].
  - intros (res & Hin).
    apply in_app_or in Hin as [Hin|[Hin|[Hin|[]]]]; try discriminate.
    apply (process_returned_not_status pevs Hall). now exists res.
  - exists (doc_request (enableHandwriting (state w)) doc), error.
    apply in_or_app. right. now left.
Qed.

(** *** C3 *)

(** C3, as stated, fails: when a process call throws, [handleProcess]
    leaves the loop for its [catch] and makes no status call; the
    database status is what it was. *)
Lemma handleProcess_skips_status_when_process_throws :
  let w' := exec handleProcess env_b_throws two_docs in
  process_threw (new_events two_docs w') /\
  ~ status_fetched (new_events two_docs w') /\
  databaseStatus (state w') = databaseStatus (state two_docs) /\
  ~ (forall env w, status_fetched (new_events w (exec handleProcess env w))).
Proof.
  assert (Hno : ~ status_fetched
            (new_events two_docs (exec handleProcess env_b_throws two_docs))).
  { intros (res & Hin). vm_compute in Hin.
    destruct Hin as [H|[H|[H|[]]]]; discriminate. }
  cbv zeta. split; [|split; [exact Hno|split; [reflexivity|]]].
  - eexists _, _. vm_compute. right. left. reflexivity.
  - intros H. exact (Hno (H env_b_throws two_docs)).
Qed.

(** C3, amended.  [handleProcess] calls [getStatus] after its loop
    exactly when no process call threw: a response with
    [success = false] does not prevent the refresh, a thrown error
    does.  When the status call returns, the database status is the
    one it returned; when a process call threw, the database status is
    left as it was. *)
Theorem handleProcess_refreshes_status_iff_no_process_throws :
  forall env w,
    let w' := exec handleProcess env w in
    let evs := new_events w w' in
    (status_fetched evs <-> ~ process_threw evs)
    /\ (forall s, In (GetStatus (Resolved s)) evs ->
          databaseStatus (state w') = status_of s)
    /\ (process_threw evs ->
          databaseStatus (state w') = databaseStatus (state w)).
Proof.
  intros env w w' evs.
  destruct (handleProcess_run env w) as (evs' & Htr & _ & _ & _ & Hrun).
  fold w' in Htr, Hrun.
  assert (Hevs : evs = evs') by (apply new_events_app; exact Htr).
  rewrite Hevs. clearbody w'. clear Hevs evs Htr.
  destruct Hrun as [Hrun|Hrun].
  - destruct (completed_run_facts w w' evs' Hrun) as (Hf & Hnt & Hst & _).
    repeat split; auto. intros Ht. contradiction.
  - destruct (aborted_run_facts w w' evs' Hrun) as (Hnf & Ht & Hst).
    repeat split; auto; try contradiction.
    intros s Hin. exfalso. apply Hnf. now exists (Resolved s).
Qed.

(** A response with [success = false] does not stop the refresh. *)
Example handleProcess_refreshes_after_refusal :
  let w' := exec handleProcess env_a_refused two_docs in
  map is_processed (documents (state w')) = [false; true] /\
  In (GetStatus (Resolved sample_status)) (new_events two_docs w') /\
  databaseStatus (state w') = status_of sample_status.
Proof. cbv zeta. repeat split. vm_compute. auto. Qed.

(** *** C7 *)

(** C7.  When a process call throws, the calls [handleProcess] made
    are those for the documents before the failing one and the failing
    one, in order: the documents after it are not sent.  The error is
    logged with "Processing failed:", nothing else happens, and
    [isProcessing] is false at the end. *)
Theorem handleProcess_aborts_on_throw :
  forall env w req error,
    let w' := exec handleProcess env w in
    let h := enableHandwriting (state w) in
    In (ProcessDocument req (Rejected error)) (new_events w w') ->
    exists pre doc post pevs,
      unprocessed (documents (state w)) = pre ++ doc :: post /\
      req = doc_request h doc /\
      new_events w w' =
        pevs ++ [ProcessDocument req (Rejected error);
                 ConsoleError (js "Processing failed:") error] /\
      Forall process_returned pevs /\
      process_requests (new_events w w') = map (doc_request h) (pre ++ [doc]) /\
      isProcessing (state w') = false.
Proof.
  intros env w req error w' h.
  destruct (handleProcess_run env w) as (evs & Htr & _ & Hflag & _ & Hrun).
  fold w' in Htr, Hrun, Hflag.
  rewrite (new_events_app _ _ _ Htr). clearbody w'. intros Hin.
  destruct Hrun as [Hrun|Hrun].
  - destruct (completed_run_facts w w' evs Hrun) as (_ & Hnt & _).
    exfalso. apply Hnt. now exists req, error.
  - destruct Hrun as (pre & doc & post & pevs & error' & Hsplit & -> & Hall & Hreq & _).
    fold h in Hreq |- *.
    apply in_app_or in Hin as [Hin|[Hin|[Hin|[]]]]; try discriminate.
    + exfalso. apply (process_returned_not_threw pevs Hall).
      now exists req, error.
    + injection Hin as <- <-.
      exists pre, doc, post, pevs. repeat split; auto.
      rewrite process_requests_app, Hreq, map_app. reflexivity.
Qed.

Lemma handleProcess_aborts_on_throw_witness :
  let w' := exec handleProcess env_b_throws two_docs in
  new_events two_docs w' =
    [ProcessDocument (doc_request false (sample_doc "d1" "a.pdf"))
       (Resolved (sample_process true));
     ProcessDocument (doc_request false (sample_doc "d2" "b.pdf"))
       (Rejected (js "HTTP error! status: 500"));
     ConsoleError (js "Processing failed:") (js "HTTP error! status: 500")]
  /\ exists pre doc post pevs,
      unprocessed (documents (state two_docs)) = pre ++ doc :: post /\
      doc_request false (sample_doc "d2" "b.pdf") = doc_request false doc /\
      new_events two_docs w' =
        pevs ++ [ProcessDocument (doc_request false (sample_doc "d2" "b.pdf"))
                   (Rejected (js "HTTP error! status: 500"));
                 ConsoleError (js "Processing failed:")
                   (js "HTTP error! status: 500")] /\
      Forall process_returned pevs /\
      process_requests (new_events two_docs w') =
        map (doc_request false) (pre ++ [doc]) /\
      isProcessing (state w') = false.
Proof.
  split; [reflexivity|].
  apply (handleProcess_aborts_on_throw env_b_throws two_docs
           (doc_request false (sample_doc "d2" "b.pdf"))
           (js "HTTP error! status: 500")).
  vm_compute. right. left. reflexivity.
Defined.

(** *** C10 *)

(** C10.  A process call that returns with [success = false] ends its
    turn of the loop with nothing but the call recorded: the documents
    are as they were, so the document stays unprocessed, and the loop
    goes on with the documents that are left.  Only a call that throws
    ends the loop early: in a run of [handleProcess] in which no
    process call threw, every unprocessed document was sent, in
    order. *)
Theorem process_failure_flag_does_not_abort :
  (forall env h doc rest w r,
     has_temp_path doc = true ->
     api_processDocument env (trace w) (doc_request h doc) = Resolved r ->
     process_success r = false ->
     let w1 := emit (ProcessDocument (doc_request h doc) (Resolved r)) w in
     process_one h doc env w = (Resolved tt, w1) /\
     documents (state w1) = documents (state w) /\
     for_of (doc :: rest) (process_one h) env w =
       for_of rest (process_one h) env w1)
  /\ (forall env w,
        let evs := new_events w (exec handleProcess env w) in
        ~ process_threw evs ->
        process_requests evs =
          map (doc_request (enableHandwriting (state w)))
              (unprocessed (documents (state w)))).
Proof.
  split.
  - intros env h doc rest w r Hpath Hapi Hflag w1.
    assert (Hone : process_one h doc env w = (Resolved tt, w1)).
    { unfold has_temp_path, process_one, doc_request in *.
      destruct (temp_path doc) as [path|]; [|discriminate].
      rewrite Hpath. unfold bind, processDocument, call.
      rewrite Hapi, Hflag. reflexivity. }
    split; [exact Hone|]. split; [reflexivity|].
    cbn. unfold bind at 1. now rewrite Hone.
  - intros env w evs Hnt.
    destruct (handleProcess_run env w) as (evs' & Htr & _ & _ & _ & Hrun).
    assert (Hevs : evs = evs') by (apply new_events_app; exact Htr).
    rewrite Hevs in *. destruct Hrun as [Hrun|Hrun].
    + now destruct (completed_run_facts _ _ _ Hrun) as (_ & _ & _ & Hreq).
    + destruct (aborted_run_facts _ _ _ Hrun) as (_ & Ht & _). contradiction.
Qed.

Lemma process_failure_flag_does_not_abort_witness :
  (let doc := sample_doc "d1" "a.pdf" in
   let rest := [sample_doc "d2" "b.pdf"] in
   let w1 := emit (ProcessDocument (doc_request false doc)
                     (Resolved (sample_process false))) two_docs in
   process_one false doc env_a_refused two_docs = (Resolved tt, w1) /\
   documents (state w1) = documents (state two_docs) /\
   for_of (doc :: rest) (process_one false) env_a_refused two_docs =
     for_of rest (process_one false) env_a_refused w1)
  /\ process_requests (new_events two_docs (exec handleProcess env_a_refused two_docs))
     = [doc_request false (sample_doc "d1" "a.pdf");
        doc_request false (sample_doc "d2" "b.pdf")]
  /\ map is_processed (documents (state (exec handleProcess env_a_refused two_docs)))
     = [false; true].
Proof.
  split; [|split].
  - apply (proj1 process_failure_flag_does_not_abort env_a_refused false
             (sample_doc "d1" "a.pdf") [sample_doc "d2" "b.pdf"] two_docs
             (sample_process false)); reflexivity.
  - apply (proj2 process_failure_flag_does_not_abort env_a_refused two_docs).
    intros (req & error & Hin). vm_compute in Hin.
    destruct Hin as [H|[H|[H|[]]]]; discriminate.
  - reflexivity.
Defined.

(** ** [handleAsk] *)

(** C5.  With a question that is not blank, [handleAsk] sends it to
    [queryDocuments] and then: on a response with [success = true] the
    current answer is the answer of the response and an item with the
    question and that answer is put in front of the history; on a
    response with [success = false] the current answer is the
    not-found message and the history is as it was; when the call
    throws the current answer is the error message and the history is
    as it was. *)
Theorem handleAsk_outcomes :
  forall env w,
    truthy (trim (question (state w))) = true ->
    let q := question (state w) in
    let w' := exec handleAsk env w in
    match api_queryDocuments env (trace w) (ask_request q) with
    | Resolved r =>
        if query_success r then
          currentAnswer (state w') = query_answer r /\
          exists item,
            qnaHistory (state w') = item :: qnaHistory (state w) /\
            qna_question item = q /\ qna_answer item = query_answer r
        else
          currentAnswer (state w') = not_found_message /\
          qnaHistory (state w') = qnaHistory (state w)
    | Rejected error =>
        currentAnswer (state w') = error_message /\
        qnaHistory (state w') = qnaHistory (state w)
    end.
Proof.
  intros env w Hq q w'.
  assert (Hw' : w' = exec handleAsk env w) by reflexivity. clearbody w'.
  unfold exec, handleAsk, bind at 1 in Hw'. cbn [read] in Hw'.
  rewrite Hq in Hw'. cbn [negb] in Hw'.
  unfold bind at 1 in Hw'. cbn [setIsAsking modify] in Hw'.
  unfold bind at 1 in Hw'. cbn [setQuestion modify state trace draws] in Hw'.
  unfold try_finally, try_catch, bind at 1, queryDocuments, call in Hw'.
  cbn [trace] in Hw'. fold q in Hw'. fold (ask_request q) in Hw'.
  destruct (api_queryDocuments env (trace w) (ask_request q)) as [r|error].
  - destruct (query_success r); subst w'; cbn; [|auto].
    split; [reflexivity|]. eexists. repeat split.
  - subst w'. cbn. auto.
Qed.

Lemma handleAsk_outcomes_witness :
  let w' := exec handleAsk env_a_refused asking in
  currentAnswer (state w') = js "**Summary**" /\
  exists item,
    qnaHistory (state w') = item :: qnaHistory (state asking) /\
    qna_question item = js "what?" /\ qna_answer item = js "**Summary**".
Proof.
  apply (handleAsk_outcomes env_a_refused asking). reflexivity.
Defined.

(** ** [handleResetDatabase] *)

(** C6.  [handleResetDatabase] calls [resetDatabase] and then: on a
    response with [success = true] it empties the documents, the
    history and the current answer and calls [getStatus], whose
    response, when it returns, becomes the database status; on a
    response with [success = false] it changes nothing and calls
    nothing more; when the call throws it changes nothing and logs the
    error with "Reset failed:". *)
Theorem handleResetDatabase_outcomes :
  forall env w,
    let w' := exec handleResetDatabase env w in
    let evs := new_events w w' in
    match api_resetDatabase env (trace w) with
    | Resolved r =>
        if reset_success r then
          documents (state w') = [] /\
          qnaHistory (state w') = [] /\
          currentAnswer (state w') = [] /\
          match api_getStatus env (trace w ++ [ResetDatabase (Resolved r)]) with
          | Resolved s =>
              evs = [ResetDatabase (Resolved r); GetStatus (Resolved s)] /\
              databaseStatus (state w') = status_of s
          | Rejected error =>
              evs = [ResetDatabase (Resolved r); GetStatus (Rejected error);
                     ConsoleError (js "Reset failed:") error] /\
              databaseStatus (state w') = databaseStatus (state w)
          end
        else
          state w' = state w /\ evs = [ResetDatabase (Resolved r)]
    | Rejected error =>
        state w' = state w /\
        evs = [ResetDatabase (Rejected error);
               ConsoleError (js "Reset failed:") error]
    end.
Proof.
  intros env w w' evs.
  assert (Hw' : w' = exec handleResetDatabase env w) by reflexivity.
  assert (Hevs : evs = new_events w w') by reflexivity.
  clearbody w' evs.
  unfold exec, handleResetDatabase, try_catch, bind at 1,
    resetDatabase, call in Hw'.
  destruct (api_resetDatabase env (trace w)) as [r|error].
  - destruct (reset_success r).
    + unfold bind at 1 in Hw'. cbn [setDocuments modify] in Hw'.
      unfold bind at 1 in Hw'. cbn [setQnaHistory modify] in Hw'.
      unfold bind at 1 in Hw'. cbn [setCurrentAnswer modify] in Hw'.
      unfold bind, getStatus, call in Hw'.
      cbn [emit state trace draws] in Hw'.
      destruct (api_getStatus env (trace w ++ [ResetDatabase (Resolved r)]))
        as [s|error]; subst w'; cbn in *; subst evs; repeat split;
        apply new_events_app; cbn; now rewrite <- ?app_assoc.
    + subst w'. cbn in *. subst evs. split; [now destruct w as [[]]|].
      now apply new_events_app.
  - subst w'. cbn in *. subst evs. split; [now destruct w as [[]]|].
    apply new_events_app. cbn. now rewrite <- app_assoc.
Qed.

(** After an upload and an answered question, a reset that succeeds
    empties the documents, the history and the answer, and fetches the
    status. *)
Example reset_after_upload_and_ask :
  let w1 := exec (handleFiles [pdf "a.pdf"]) env_a_refused asking in
  let w2 := exec handleAsk env_a_refused w1 in
  let w3 := exec handleResetDatabase env_a_refused w2 in
  length (documents (state w2)) = 1 /\
  length (qnaHistory (state w2)) = 1 /\
  currentAnswer (state w2) = js "**Summary**" /\
  documents (state w3) = [] /\
  qnaHistory (state w3) = [] /\
  currentAnswer (state w3) = [] /\
  new_events w2 w3 =
    [ResetDatabase (Resolved (sample_reset true));
     GetStatus (Resolved sample_status)].
Proof. cbv zeta. repeat split. Qed.

(** ** The invariant of the documents *)

Lemma ids_drawn_same (env : Env) (w w' : World) :
  map doc_id (documents (state w')) = map doc_id (documents (state w)) ->
  draws w <= draws w' ->
  ids_drawn env w -> ids_drawn env w'.
Proof.
  intros Hids Hdr [Hnd Hin]. unfold ids_drawn, unique_ids. rewrite Hids.
  split; [exact Hnd|]. intros id Hid. destruct (Hin id Hid) as (i & Hi & ->).
  exists i. split; [lia|reflexivity].
Qed.

Lemma ids_drawn_empty (env : Env) (w : World) :
  documents (state w) = [] -> ids_drawn env w.
Proof.
  intros H. unfold ids_drawn, unique_ids. rewrite H. split; [constructor|].
  intros ? [].
Qed.

(** *** The handlers between awaits are the handlers *)

Lemma bind_resolved {A B} (m : M A) (f : A -> M B) (env : Env) (w w' : World)
  (a : A) :
  m env w = (Resolved a, w') -> bind m f env w = f a env w'.
Proof. intros H. unfold bind. now rewrite H. Qed.

Lemma uploaded_returns (env : Env) (file : File) (r : Outcome UploadResponse)
  (w : World) :
  uploaded file r env w = (Resolved tt, exec (uploaded file r) env w).
Proof. destruct r; reflexivity. Qed.

Lemma upload_one_settles (env : Env) (file : File) (w : World) :
  let r := api_uploadFile env (trace w) file in
  upload_one file env w =
    (Resolved tt, exec (uploaded file r) env (emit (UploadFile file r) w)).
Proof.
  cbv zeta. unfold upload_one, try_catch, bind at 1, uploadFile, call.
  destruct (api_uploadFile env (trace w) file); reflexivity.
Qed.

Lemma uploading_drive (env : Env) (files : list File) (w : World) :
  files <> [] ->
  drive env (uploading files) w =
    exec (for_of files upload_one ;; setIsUploading false) env w.
Proof.
  revert w. induction files as [|file rest IH]; intros w Hne; [easy|].
  cbn [uploading drive for_of].
  set (r := api_uploadFile env (trace w) file).
  pose proof (upload_one_settles env file w) as Hone. cbv zeta in Hone.
  fold r in Hone.
  set (w1 := exec (uploaded file r) env (emit (UploadFile file r) w)) in *.
  assert (Hw1 : uploaded file r env (emit (UploadFile file r) w)
                = (Resolved tt, w1)) by apply uploaded_returns.
  assert (Hrhs : exec ((upload_one file ;; for_of rest upload_one) ;;
                       setIsUploading false) env w
                 = exec (for_of rest upload_one ;; setIsUploading false) env w1).
  { unfold exec. unfold bind at 1. rewrite (bind_resolved _ _ _ _ _ _ Hone).
    reflexivity. }
  rewrite Hrhs. clear Hrhs.
  unfold exec at 1. rewrite (bind_resolved _ _ _ _ _ _ Hw1).
  destruct rest as [|file' rest'].
  - reflexivity.
  - cbn [ret snd]. now apply IH.
Qed.

Lemma handleFiles_async_drive (env : Env) (files : list File) (w : World) :
  exists t w0,
    handleFiles_async files env w = (Resolved t, w0) /\
    drive env t w0 = exec (handleFiles files) env w.
Proof.
  unfold handleFiles_async, handleFiles, exec.
  unfold bind at 1. unfold bind at 3. cbn [setIsUploading modify].
  set (w0 := {| state := _; trace := trace w; draws := draws w |}).
  destruct (filter valid_file files) as [|file rest] eqn:E.
  - eexists _, _. split; reflexivity.
  - eexists _, _. split; [reflexivity|].
    now apply uploading_drive.
Qed.

Lemma fetchStatus_async_drive (env : Env) (w : World) :
  exists t w0,
    fetchStatus_async env w = (Resolved t, w0) /\
    drive env t w0 = exec fetchStatus env w.
Proof.
  eexists _, _. split; [reflexivity|].
  cbn [drive]. unfold exec, fetchStatus, try_catch, bind, getStatus, call.
  destruct (api_getStatus env (trace w)); reflexivity.
Qed.

Lemma processing_drive (env : Env) (h : bool) (docs : list Document)
  (w : World) :
  drive env (processing h docs) w =
    exec (try_finally
            (try_catch
               (for_of docs (process_one h) ;;
                status <- getStatus ;;
                setDatabaseStatus {| count := document_count status;
                                     status := database_status status |})
               (fun error => console_error (js "Processing failed:") error))
            (setIsProcessing false)) env w.
Proof.
  revert w. induction docs as [|doc rest IH]; intros w.
  - cbn [processing drive for_of].
    unfold exec, try_finally, try_catch, bind, getStatus, call. cbn [ret].
    destruct (api_getStatus env (trace w)); reflexivity.
  - cbn [processing for_of]. unfold process_one at 1.
    destruct (temp_path doc) as [path|] eqn:Epath;
      [destruct (truthy path) eqn:Etruthy|];
      [|rewrite IH; reflexivity..].
    cbn [drive].
    set (req := process_request h doc path).
    set (r := api_processDocument env (trace w) req).
    unfold exec at 2, try_finally, try_catch.
    unfold bind at 1. unfold bind at 1. unfold bind at 1.
    unfold processDocument, call. fold r.
    destruct r as [resp|error].
    + cbn [processed_one]. rewrite IH.
      unfold exec at 2, try_finally, try_catch.
      destruct (process_success resp); reflexivity.
    + reflexivity.
Qed.

Lemma handleProcess_async_drive (env : Env) (w : World) :
  exists t w0,
    handleProcess_async env w = (Resolved t, w0) /\
    drive env t w0 = exec handleProcess env w.
Proof.
  eexists _, _. split; [reflexivity|].
  rewrite processing_drive. reflexivity.
Qed.

Lemma handleResetDatabase_async_drive (env : Env) (w : World) :
  exists t w0,
    handleResetDatabase_async env w = (Resolved t, w0) /\
    drive env t w0 = exec handleResetDatabase env w.
Proof.
  eexists _, _. split; [reflexivity|].
  cbn [drive]. unfold exec at 2, handleResetDatabase, try_catch.
  unfold bind at 1, resetDatabase, call.
  destruct (api_resetDatabase env (trace w)) as [resp|error];
    [|reflexivity].
  cbn [was_reset]. destruct (reset_success resp); [|reflexivity].
  cbn [drive]. unfold exec, bind, getStatus, call.
  cbn [setDocuments setQnaHistory setCurrentAnswer modify snd emit trace].
  destruct (api_getStatus env _); reflexivity.
Qed.

Lemma handleAsk_async_drive (env : Env) (w : World) :
  exists t w0,
    handleAsk_async env w = (Resolved t, w0) /\
    drive env t w0 = exec handleAsk env w.
Proof.
  unfold handleAsk_async, handleAsk, exec.
  unfold bind at 1. unfold bind at 4. cbn [read].
  destruct (negb (truthy (trim (question (state w))))).
  - eexists _, _. split; reflexivity.
  - eexists _, _. split; [reflexivity|].
    cbn [drive]. unfold exec, try_finally, try_catch, bind, queryDocuments, call.
    cbn [setIsAsking setQuestion modify snd emit trace state].
    destruct (api_queryDocuments env (trace w) _) as [resp|error];
      [|reflexivity].
    cbn [answered]. destruct (query_success resp); reflexivity.
Qed.

(** An event whose handler runs alone does what the handler does. *)
Lemma run_alone_handler (env : Env) (e : UserEvent) (w : World) :
  run_alone env e w = exec (handler e) env w.
Proof.
  unfold run_alone. destruct e; cbn [start handler].
  - destruct (fetchStatus_async_drive env w) as (t & w0 & -> & H). exact H.
  - unfold handleDrag.
    destruct (_ || _); [reflexivity|]. destruct (jsstring_eqb _ _); reflexivity.
  - unfold handleDrop. unfold exec, bind. cbn [setDragActive modify].
    set (w1 := {| state := _; trace := trace w; draws := draws w |}).
    destruct (handleFiles_async_drive env files w1) as (t & w0 & -> & H).
    exact H.
  - destruct files as [files|]; [|reflexivity]. cbn [handleFileInput].
    destruct (handleFiles_async_drive env files w) as (t & w0 & -> & H).
    exact H.
  - reflexivity.
  - unfold onKeyDown. destruct (_ && _); [|reflexivity].
    destruct (handleAsk_async_drive env w) as (t & w0 & -> & H). exact H.
  - reflexivity.
  - destruct (handleProcess_async_drive env w) as (t & w0 & -> & H). exact H.
  - destruct (handleResetDatabase_async_drive env w) as (t & w0 & -> & H).
    exact H.
  - destruct (handleAsk_async_drive env w) as (t & w0 & -> & H). exact H.
Qed.

(** *** Runs that overlap *)

Lemma replace_at_same {A} (l : list A) (i : nat) (x : A) :
  nth_error l i = Some x -> replace_at i x l = l.
Proof.
  revert i. induction l as [|y l IH]; intros [|i] H; cbn in *;
    try congruence.
  now rewrite IH.
Qed.

Lemma replace_at_twice {A} (l : list A) (i : nat) (x y : A) :
  replace_at i y (replace_at i x l) = replace_at i y l.
Proof.
  revert i. induction l as [|z l IH]; intros [|i]; cbn; try reflexivity.
  now rewrite IH.
Qed.

Lemma nth_error_replace_at {A} (l : list A) (i : nat) (x y : A) :
  nth_error l i = Some y -> nth_error (replace_at i x l) i = Some x.
Proof.
  revert i. induction l as [|z l IH]; intros [|i] H; cbn in *;
    try congruence.
  now apply IH.
Qed.

Lemma Forall_replace_at {A} (P : A -> Prop) (l : list A) (i : nat) (x : A) :
  P x -> Forall P l -> Forall P (replace_at i x l).
Proof.
  intros Hx Hl. revert i. induction Hl as [|y l Hy Hl IH]; intros [|i]; cbn;
    constructor; auto.
Qed.

(** A handler that waits and then runs to its end with nothing in
    between: the configuration it leaves is one the component can be
    in. *)
Lemma drive_async_reachable (env : Env) (t : Task) :
  forall c i,
    async_reachable env c ->
    nth_error (pending c) i = Some t ->
    async_reachable env
      {| world := drive env t (world c);
         pending := replace_at i Done (pending c) |}.
Proof.
  induction t as [|file resume next IH|req resume next IH|req resume next IH
                  |resume next IH|resume next IH];
    intros c i Hc Hnth.
  - cbn [drive]. rewrite (replace_at_same _ _ _ Hnth). now destruct c.
  - cbn [drive]. set (r := api_uploadFile env (trace (world c)) file).
    pose proof (async_deliver env c i (UploadReply r) Hc) as Hc'.
    unfold deliver in Hc'. rewrite Hnth in Hc'. cbn [settle] in Hc'.
    specialize (IH r _ i Hc'). cbn [world pending] in IH.
    rewrite replace_at_twice in IH. apply IH.
    now apply nth_error_replace_at with (AwaitUpload file resume next).
  - cbn [drive]. set (r := api_processDocument env (trace (world c)) req).
    pose proof (async_deliver env c i (ProcessReply r) Hc) as Hc'.
    unfold deliver in Hc'. rewrite Hnth in Hc'. cbn [settle] in Hc'.
    specialize (IH r _ i Hc'). cbn [world pending] in IH.
    rewrite replace_at_twice in IH. apply IH.
    now apply nth_error_replace_at with (AwaitProcess req resume next).
  - cbn [drive]. set (r := api_queryDocuments env (trace (world c)) req).
    pose proof (async_deliver env c i (QueryReply r) Hc) as Hc'.
    unfold deliver in Hc'. rewrite Hnth in Hc'. cbn [settle] in Hc'.
    specialize (IH r _ i Hc'). cbn [world pending] in IH.
    rewrite replace_at_twice in IH. apply IH.
    now apply nth_error_replace_at with (AwaitQuery req resume next).
  - cbn [drive]. set (r := api_getStatus env (trace (world c))).
    pose proof (async_deliver env c i (StatusReply r) Hc) as Hc'.
    unfold deliver in Hc'. rewrite Hnth in Hc'. cbn [settle] in Hc'.
    specialize (IH r _ i Hc'). cbn [world pending] in IH.
    rewrite replace_at_twice in IH. apply IH.
    now apply nth_error_replace_at with (AwaitStatus resume next).
  - cbn [drive]. set (r := api_resetDatabase env (trace (world c))).
    pose proof (async_deliver env c i (ResetReply r) Hc) as Hc'.
    unfold deliver in Hc'. rewrite Hnth in Hc'. cbn [settle] in Hc'.
    specialize (IH r _ i Hc'). cbn [world pending] in IH.
    rewrite replace_at_twice in IH. apply IH.
    now apply nth_error_replace_at with (AwaitReset resume next).
Qed.

(** The handler of an event that runs to its end with nothing in
    between, from a configuration the component can be in. *)
Lemma handler_async_reachable (env : Env) (e : UserEvent) (c : Config) :
  async_reachable env c ->
  exists pool,
    async_reachable env
      {| world := exec (handler e) env (world c); pending := pool |}.
Proof.
  intros Hc. rewrite <- run_alone_handler. unfold run_alone.
  pose proof (async_begin env c e Hc) as Hb. unfold begin in Hb.
  destruct (start e env (world c)) as [[t|error] w0].
  - exists (replace_at 0 Done (t :: pending c)).
    now apply (drive_async_reachable env t _ 0 Hb).
  - now exists (pending c).
Qed.

(** The worlds between whole runs are among those of the
    configurations. *)
Lemma reachable_async_reachable (env : Env) (w : World) :
  reachable env w ->
  exists pool, async_reachable env {| world := w; pending := pool |}.
Proof.
  induction 1 as [|w Hw [pool IH]|w files Hw [pool IH]|w Hw [pool IH]
                  |w Hw [pool IH]|w Hw [pool IH]|w q Hw [pool IH]
                  |w b Hw [pool IH]|w b Hw [pool IH]].
  - exists []. constructor.
  - apply (handler_async_reachable env Mount _ IH).
  - apply (handler_async_reachable env (FileInput (Some files)) _ IH).
  - apply (handler_async_reachable env ClickProcess _ IH).
  - apply (handler_async_reachable env ClickReset _ IH).
  - apply (handler_async_reachable env ClickAsk _ IH).
  - apply (handler_async_reachable env (ChangeQuestion q) _ IH).
  - apply (handler_async_reachable env (CheckHandwriting b) _ IH).
  - destruct b.
    + apply (handler_async_reachable env (DragOver (js "dragenter")) _ IH).
    + apply (handler_async_reachable env (DragOver (js "dragleave")) _ IH).
Qed.

(** *** What the pieces of the handlers do to the documents *)

Lemma documents_step_refl (env : Env) (w w' : World) :
  documents (state w') = documents (state w) -> draws w' = draws w ->
  documents_step env w w'.
Proof. intros Hd Hn. apply step_same; [now rewrite Hd|lia]. Qed.

Lemma show_status_step (env : Env) (message : jsstring)
  (r : Outcome StatusResponse) (e : Event) (w : World) :
  documents_step env w (exec (show_status message r) env (emit e w)).
Proof. destruct r; now apply documents_step_refl. Qed.

Lemma uploaded_step (env : Env) (file : File) (r : Outcome UploadResponse)
  (w : World) :
  documents_step env w (exec (uploaded file r) env (emit (UploadFile file r) w)).
Proof.
  destruct r as [resp|error].
  - eapply step_append; reflexivity.
  - now apply documents_step_refl.
Qed.

Lemma uploading_steps (env : Env) (files : list File) :
  task_steps (documents_step env) env (uploading files).
Proof.
  induction files as [|file rest IH]; [exact I|].
  cbn [uploading task_steps]. intros r. split; [|exact IH].
  intros w. pose proof (uploaded_step env file r w) as H.
  unfold exec, bind. rewrite uploaded_returns. unfold exec in H.
  destruct rest; cbn [snd setIsUploading modify ret];
    (destruct H as [H1 H2|H1 H2|d H1 H2 H3];
     [apply step_same|apply step_clear|apply step_append with d]; assumption).
Qed.

Lemma map_mark_processed_ids (id : jsstring) (ds : list Document) :
  map doc_id (map (mark_processed id) ds) = map doc_id ds.
Proof.
  induction ds as [|d ds IH]; [reflexivity|]. cbn [map]. rewrite IH.
  f_equal. unfold mark_processed. now destruct (jsstring_eqb _ _).
Qed.

Lemma processing_steps (env : Env) (h : bool) (docs : list Document) :
  task_steps (documents_step env) env (processing h docs).
Proof.
  induction docs as [|doc rest IH].
  - cbn [processing task_steps]. intros r. split; [|exact I]. intros w.
    destruct r; now apply documents_step_refl.
  - cbn [processing]. destruct (temp_path doc) as [path|]; [|exact IH].
    destruct (truthy path); [|exact IH].
    cbn [task_steps]. intros r. split.
    + intros w. destruct r as [resp|error]; cbn [processed_one].
      * destruct (process_success resp); [|now apply documents_step_refl].
        apply step_same; [|cbn; lia]. cbn. apply map_mark_processed_ids.
      * now apply documents_step_refl.
    + destruct r; [exact IH|exact I].
Qed.

(** An event, up to the first [await] of its handler, leaves the
    documents as they are, and so does each piece of what is left. *)
Lemma start_steps (env : Env) (e : UserEvent) (w : World) :
  exists t w0,
    start e env w = (Resolved t, w0) /\
    documents_step env w w0 /\
    task_steps (documents_step env) env t.
Proof.
  assert (Hfiles : forall files w1,
            documents (state w1) = documents (state w) -> draws w1 = draws w ->
            exists t w0,
              handleFiles_async files env w1 = (Resolved t, w0) /\
              documents_step env w w0 /\
              task_steps (documents_step env) env t).
  { intros files w1 Hd Hn. unfold handleFiles_async, bind.
    cbn [setIsUploading modify].
    pose proof (uploading_steps env (filter valid_file files)) as Hsteps.
    destruct (filter valid_file files); eexists _, _;
      (split; [reflexivity|split; [now apply documents_step_refl|]]);
      [exact I|exact Hsteps]. }
  assert (Hask : exists t w0,
            handleAsk_async env w = (Resolved t, w0) /\
            documents_step env w w0 /\
            task_steps (documents_step env) env t).
  { unfold handleAsk_async, bind. cbn [read].
    destruct (negb (truthy (trim (question (state w))))); eexists _, _;
      (split; [reflexivity|split; [now apply documents_step_refl|]]);
      [exact I|].
    cbn [task_steps]. intros r. split; [|exact I]. intros w1.
    destruct r as [resp|error]; cbn [answered];
      [destruct (query_success resp)|];
      (apply step_same; [reflexivity|cbn; lia]). }
  destruct e; cbn [start].
  - eexists _, _. split; [reflexivity|split; [now apply documents_step_refl|]].
    cbn [task_steps]. intros r. split; [|exact I]. intros w1.
    apply show_status_step.
  - unfold handleDrag, bind.
    destruct (_ || _);
      [|destruct (jsstring_eqb type (js "dragleave"))];
      eexists _, _;
      (split; [reflexivity|split; [now apply documents_step_refl|exact I]]).
  - unfold bind at 1. cbn [setDragActive modify]. now apply Hfiles.
  - destruct files as [files|]; [now apply Hfiles|].
    eexists _, _.
    split; [reflexivity|split; [now apply documents_step_refl|exact I]].
  - eexists _, _.
    split; [reflexivity|split; [now apply documents_step_refl|exact I]].
  - destruct (_ && _); [exact Hask|]. eexists _, _.
    split; [reflexivity|split; [now apply documents_step_refl|exact I]].
  - eexists _, _.
    split; [reflexivity|split; [now apply documents_step_refl|exact I]].
  - eexists _, _.
    split; [reflexivity|split; [now apply documents_step_refl|]].
    apply processing_steps.
  - eexists _, _.
    split; [reflexivity|split; [now apply documents_step_refl|]].
    cbn [task_steps]. intros r. split.
    + intros w1. destruct r as [resp|error]; cbn [was_reset];
        [destruct (reset_success resp)|].
      * apply step_clear; [reflexivity|cbn; lia].
      * now apply documents_step_refl.
      * now apply documents_step_refl.
    + destruct r as [resp|error]; [|exact I].
      destruct (reset_success resp); [|exact I].
      cbn [task_steps]. intros r. split; [|exact I]. intros w1.
      apply show_status_step.
  - exact Hask.
Qed.

Lemma settle_steps (env : Env) (t t' : Task) (reply : Reply) (w w' : World) :
  task_steps (documents_step env) env t ->
  settle env t reply w = Some (w', t') ->
  documents_step env w w' /\ task_steps (documents_step env) env t'.
Proof.
  intros Ht Hs.
  destruct t, reply; cbn [settle] in Hs; try discriminate;
    injection Hs as <- <-; cbn [task_steps] in Ht;
    destruct (Ht r) as [H1 H2]; auto.
Qed.

(** *** The identifiers of the documents *)

Lemma documents_step_ids_drawn (env : Env) (n : nat) (w w' : World) :
  distinct_draws env n ->
  documents_step env w w' ->
  (draws w <= n -> ids_drawn env w) ->
  draws w' <= n -> ids_drawn env w'.
Proof.
  intros Hdist Hstep Hw Hn.
  destruct Hstep as [Hids Hdr|Hdocs Hdr|d Hdocs Hid Hdr].
  - apply ids_drawn_same with w; [exact Hids|exact Hdr|]. apply Hw. lia.
  - now apply ids_drawn_empty.
  - destruct Hw as [Hnd Hin]; [lia|]. unfold ids_drawn, unique_ids.
    rewrite Hdocs, map_app, Hdr. cbn [map]. rewrite Hid. split.
    + apply NoDup_app; [exact Hnd|repeat constructor; intros []|].
      intros id Hi [Heq|[]]. destruct (Hin id Hi) as (i & Hlt & ->).
      apply Hdist in Heq; lia.
    + intros id Hi. apply in_app_or in Hi as [Hi|[<-|[]]].
      * destruct (Hin id Hi) as (i & Hlt & ->). exists i. split; [lia|easy].
      * exists (draws w). split; [lia|easy].
Qed.

(** In a configuration the component can be in, the identifiers of
    the documents were drawn and differ, as long as the draws differ;
    and the handlers that wait do nothing else to the documents. *)
Lemma async_reachable_ids_drawn (env : Env) (n : nat) (c : Config) :
  distinct_draws env n ->
  async_reachable env c ->
  (draws (world c) <= n -> ids_drawn env (world c)) /\
  Forall (task_steps (documents_step env) env) (pending c).
Proof.
  intros Hdist. induction 1 as [|c e Hc [IHw IHp]|c i reply Hc [IHw IHp]].
  - split; [intros _; now apply ids_drawn_empty|constructor].
  - unfold begin.
    destruct (start_steps env e (world c)) as (t & w0 & -> & Hstep & Ht).
    cbn [world pending]. split; [|now constructor].
    now apply documents_step_ids_drawn with (world c).
  - unfold deliver. destruct (nth_error (pending c) i) as [t|] eqn:Hnth;
      [|now split].
    destruct (settle env t reply (world c)) as [[w t']|] eqn:Hs; [|now split].
    assert (Ht : task_steps (documents_step env) env t).
    { rewrite Forall_forall in IHp. apply IHp. eapply nth_error_In, Hnth. }
    destruct (settle_steps env t t' reply (world c) w Ht Hs) as [Hstep Ht'].
    cbn [world pending]. split; [|now apply Forall_replace_at].
    now apply documents_step_ids_drawn with (world c).
Qed.

Lemma async_reachable_documents_sound (env : Env) (c : Config) :
  async_reachable env c -> documents_sound env (world c).
Proof.
  intros Hc. split; [apply filter_length_le|]. intros Hdist.
  destruct (async_reachable_ids_drawn env _ c Hdist Hc) as [H _].
  now destruct H.
Qed.




(* ------------------------------------------------------------------ *)
(** ** Trimmed text                                                    *)
(* ------------------------------------------------------------------ *)

Lemma trimStart_clean (s : jsstring) :
  trimStart s = [] \/ starts_clean (trimStart s).
Proof.
  induction s as [|c t IH]; cbn; [now left|].
  destruct (is_ws c) eqn:E; [exact IH|]. right. now exists c, t.
Qed.

Lemma trimStart_starts_clean (s : jsstring) :
  starts_clean s -> trimStart s = s.
Proof. intros (c & t & -> & Hc). cbn. now rewrite Hc. Qed.

Lemma trimStart_snoc_clean (s : jsstring) (c : N) :
  is_ws c = false -> trimStart (s ++ [c]) = trimStart s ++ [c].
Proof.
  intros Hc. induction s as [|x s IH]; cbn; [now rewrite Hc|].
  destruct (is_ws x); [exact IH|reflexivity].
Qed.

Lemma trimEnd_cons_clean (c : N) (s : jsstring) :
  is_ws c = false -> trimEnd (c :: s) = c :: trimEnd s.
Proof.
  intros Hc. unfold trimEnd. cbn [rev].
  rewrite (trimStart_snoc_clean _ c Hc), rev_app_distr. reflexivity.
Qed.

Lemma trimEnd_clean (s : jsstring) :
  trimEnd s = [] \/ ends_clean (trimEnd s).
Proof.
  unfold trimEnd. destruct (trimStart_clean (rev s)) as [->|(c & t & -> & Hc)].
  - now left.
  - right. exists (rev t), c. now cbn.
Qed.

Lemma trimEnd_ends_clean (s : jsstring) : ends_clean s -> trimEnd s = s.
Proof.
  intros (t & c & -> & Hc). unfold trimEnd.
  rewrite rev_app_distr. cbn. rewrite Hc. cbn.
  now rewrite rev_involutive.
Qed.

Lemma trim_clean (s : jsstring) : trim s = [] \/ tidy (trim s).
Proof.
  unfold trim. destruct (trimStart_clean s) as [->|(c & t & -> & Hc)].
  - now left.
  - right. rewrite (trimEnd_cons_clean c t Hc). split; [now exists c, (trimEnd t)|].
    rewrite <- (trimEnd_cons_clean c t Hc).
    destruct (trimEnd_clean (c :: t)) as [H|H]; [|exact H].
    rewrite (trimEnd_cons_clean c t Hc) in H. discriminate.
Qed.

Lemma trim_tidy (s : jsstring) : tidy s -> trim s = s.
Proof.
  intros [Hs He]. unfold trim.
  now rewrite (trimStart_starts_clean s Hs), (trimEnd_ends_clean s He).
Qed.

Lemma tidy_truthy (s : jsstring) : tidy s -> truthy s = true.
Proof. now intros [(c & t & -> & _) _]. Qed.

Lemma truthy_trim_tidy (s : jsstring) : truthy (trim s) = true -> tidy (trim s).
Proof.
  destruct (trim_clean s) as [->|H]; [discriminate|]. now intros _.
Qed.

Lemma section_lines_tidy (section : jsstring) :
  Forall tidy (section_lines section).
Proof.
  apply Forall_forall. intros l Hl. unfold section_lines in Hl.
  apply filter_In in Hl as [Hl Ht]. apply in_map_iff in Hl as (x & <- & _).
  now apply truthy_trim_tidy.
Qed.

Lemma spaced_snoc (pieces : list jsstring) (x : jsstring) :
  spaced pieces ++ x ++ [SPACE] = spaced (pieces ++ [x]).
Proof.
  unfold spaced. rewrite map_app, concat_app. cbn. now rewrite app_nil_r.
Qed.

Lemma join_space_cons (x y : jsstring) (rest : list jsstring) :
  join_space (x :: y :: rest) = x ++ SPACE :: join_space (y :: rest).
Proof. reflexivity. Qed.

Lemma spaced_join (x : jsstring) (rest : list jsstring) :
  spaced (x :: rest) = join_space (x :: rest) ++ [SPACE].
Proof.
  revert x. induction rest as [|y rest IH]; intros x.
  - cbn. now rewrite app_nil_r.
  - rewrite join_space_cons. change (spaced (x :: y :: rest))
      with ((x ++ [SPACE]) ++ spaced (y :: rest)).
    rewrite IH, <- !app_assoc. reflexivity.
Qed.

Lemma join_space_tidy (x : jsstring) (rest : list jsstring) :
  Forall tidy (x :: rest) -> tidy (join_space (x :: rest)).
Proof.
  revert x. induction rest as [|y rest IH]; intros x H.
  - now inversion H.
  - inversion H as [|? ? Hx Hrest]; subst. rewrite join_space_cons.
    destruct (IH y Hrest) as [_ (t & d & Ht & Hd)].
    destruct Hx as [(c & t0 & -> & Hc) _]. split.
    + now exists c, (t0 ++ SPACE :: join_space (y :: rest)).
    + exists ((c :: t0) ++ SPACE :: t), d. split; [|exact Hd].
      rewrite Ht, <- app_assoc. reflexivity.
Qed.

Lemma trim_snoc_space (s : jsstring) : tidy s -> trim (s ++ [SPACE]) = s.
Proof.
  intros [Hs He]. unfold trim.
  assert (H1 : starts_clean (s ++ [SPACE])).
  { destruct Hs as (c & t & -> & Hc). now exists c, (t ++ [SPACE]). }
  rewrite (trimStart_starts_clean _ H1). unfold trimEnd.
  rewrite rev_app_distr. cbn [rev app]. cbn [trimStart].
  change (is_ws SPACE) with true. cbn iota.
  fold (trimEnd s). now apply trimEnd_ends_clean.
Qed.

(** Trimming a buffer of tidy pieces joins them with single spaces. *)
Lemma trim_spaced (pieces : list jsstring) :
  Forall tidy pieces -> trim (spaced pieces) = join_space pieces.
Proof.
  destruct pieces as [|x rest]; [reflexivity|]. intros H.
  rewrite spaced_join. apply trim_snoc_space. now apply join_space_tidy.
Qed.

Lemma truthy_trim_spaced (pieces : list jsstring) :
  Forall tidy pieces ->
  truthy (trim (spaced pieces)) = match pieces with [] => false | _ => true end.
Proof.
  intros H. rewrite (trim_spaced pieces H). destruct pieces as [|x rest]; [reflexivity|].
  apply tidy_truthy. now apply join_space_tidy.
Qed.

(* ------------------------------------------------------------------ *)
(** ** The matcher                                                     *)
(* ------------------------------------------------------------------ *)

(** A repetition succeeds as soon as its continuation accepts one way
    of cutting the input after characters of the class. *)
Lemma many_finds (A : Type) (cls : N -> bool) (a : jsstring) :
  forall (k : jsstring -> jsstring -> option A) (b : jsstring),
    forallb cls a = true -> k a b <> None -> many cls k (a ++ b) <> None.
Proof.
  induction a as [|c a IH]; intros k b Ha Hk.
  - cbn [app]. destruct b as [|x b]; cbn; [exact Hk|].
    destruct (cls x); [|exact Hk].
    destruct (many cls (fun m r => k (x :: m) r) b); [discriminate|exact Hk].
  - cbn in Ha. apply andb_true_iff in Ha as [Hc Ha]. cbn. rewrite Hc.
    specialize (IH (fun m r => k (c :: m) r) b Ha Hk).
    destruct (many cls (fun m r => k (c :: m) r) (a ++ b)); [discriminate|].
    contradiction.
Qed.

Lemma many_total (A : Type) (cls : N -> bool) (s : jsstring)
  (k : jsstring -> jsstring -> option A) :
  (forall m r, k m r <> None) -> many cls k s <> None.
Proof. intros Hk. apply (many_finds A cls [] k s); auto. Qed.

Lemma many_not_class (A : Type) (cls : N -> bool) (c : N) (t : jsstring)
  (k : jsstring -> jsstring -> option A) :
  cls c = false -> many cls k (c :: t) = k [] (c :: t).
Proof. intros H. cbn. now rewrite H. Qed.

Lemma line_terminator_is_ws (c : N) :
  is_line_terminator c = true -> is_ws c = true.
Proof.
  unfold is_line_terminator. rewrite !orb_true_iff, !N.eqb_eq.
  intros [[[->| ->]| ->]| ->]; reflexivity.
Qed.

Lemma clean_char_dot (c : N) : is_ws c = false -> dot c = true.
Proof.
  intros H. unfold dot. destruct (is_line_terminator c) eqn:E; [|reflexivity].
  apply line_terminator_is_ws in E. congruence.
Qed.

(** A text that ends clean is white space, then a clean character,
    then the rest. *)
Lemma ends_clean_split (s : jsstring) :
  ends_clean s ->
  exists a d b, s = a ++ d :: b /\ forallb is_ws a = true /\ is_ws d = false.
Proof.
  intros (t & c & -> & Hc). induction t as [|x t IH].
  - exists [], c, []. auto.
  - destruct (is_ws x) eqn:Ex.
    + destruct IH as (a & d & b & Heq & Ha & Hd).
      exists (x :: a), d, b. cbn. rewrite Heq, Ex, Ha. auto.
    + exists [], x, (t ++ [c]). auto.
Qed.

Lemma is_some_true (A : Type) (o : option A) : is_some o = true <-> o <> None.
Proof. destruct o; cbn; split; congruence. Qed.

(** On a trimmed line the pattern with the group matches whenever the
    pattern of [lines.some] does: after the marker and the white space
    there is something for [(.+)] to take. *)
Lemma bullet_marker_has_item (line : jsstring) :
  tidy line -> re_bullet_marker line <> None -> re_bullet line <> None.
Proof.
  intros [(c & t & -> & Hc) He]. unfold re_bullet_marker, re_bullet.
  rewrite !(many_not_class _ is_ws c t _ Hc). unfold chr.
  destruct (is_bullet_marker c) eqn:Em; [|auto].
  assert (Hc' : is_ws c = false) by exact Hc.
  destruct t as [|x t]; [auto|]. unfold many1.
  destruct (is_ws x) eqn:Ex; [|auto]. intros _.
  assert (Ht : ends_clean t).
  { destruct He as (u & d & Heq & Hd).
    destruct u as [|u0 [|u1 u]]; cbn in Heq.
    - discriminate.
    - injection Heq as _ Heq _. congruence.
    - injection Heq as _ _ ->. now exists u, d. }
  destruct (ends_clean_split t Ht) as (a & d & b & -> & Ha & Hd).
  apply many_finds; [exact Ha|]. cbn.
  rewrite (clean_char_dot d Hd). now apply many_total.
Qed.

(* ------------------------------------------------------------------ *)
(** ** Sections with a list                                            *)
(* ------------------------------------------------------------------ *)

(** Closing a buffer of tidy pieces. *)
Lemma flush_spaced (items : list Jsx) (run : list jsstring) :
  Forall tidy run ->
  (if truthy (trim (spaced run))
   then items ++ [p (trim (spaced run))]
   else items) = items ++ map paragraph_of (close_run run).
Proof.
  intros H. rewrite (truthy_trim_spaced run H), (trim_spaced run H).
  destruct run; cbn; [now rewrite app_nil_r|reflexivity].
Qed.

Lemma list_step_spaced (item : jsstring -> option jsstring)
  (items : list Jsx) (run : list jsstring) (line : jsstring) :
  Forall tidy run ->
  list_step item (items, spaced run) line =
  match item line with
  | Some t => ((items ++ map paragraph_of (close_run run)) ++ [li t], spaced [])
  | None => (items, spaced (run ++ [line]))
  end.
Proof.
  intros H. unfold list_step. destruct (item line) as [t|].
  - rewrite (truthy_trim_spaced run H), (trim_spaced run H).
    destruct run; cbn; [now rewrite app_nil_r|reflexivity].
  - now rewrite spaced_snoc.
Qed.

Lemma filter_li_paragraphs (runs : list (list jsstring)) :
  filter is_li (map paragraph_of runs) = [] /\
  filter not_li (map paragraph_of runs) = map paragraph_of runs.
Proof.
  induction runs as [|r runs [IH1 IH2]]; cbn; [auto|]. now rewrite IH1, IH2.
Qed.

(** What the loop of a list branch leaves in its array once the last
    buffer is closed: the paragraphs of the runs and the items, each
    kind in line order. *)
Lemma list_loop_run (item : jsstring -> option jsstring)
  (lines : list jsstring) :
  Forall tidy lines ->
  forall (items : list Jsx) (run : list jsstring),
    Forall tidy run ->
    let '(items', content) :=
      fold_left (list_step item) lines (items, spaced run) in
    let final :=
      if truthy (trim content) then items' ++ [p (trim content)] else items' in
    filter is_li final =
      filter is_li items ++ map li (list_items item lines) /\
    filter not_li final =
      filter not_li items ++ map paragraph_of (prose_runs item run lines).
Proof.
  induction 1 as [|line lines Hline Hlines IH]; intros items run Hrun.
  - cbn [fold_left]. rewrite (flush_spaced items run Hrun).
    destruct (filter_li_paragraphs (close_run run)) as [H1 H2].
    rewrite !filter_app, H1, H2. cbn. now rewrite !app_nil_r.
  - cbn [fold_left]. rewrite (list_step_spaced item items run line Hrun).
    cbn [list_items flat_map prose_runs]. destruct (item line) as [t|].
    + specialize (IH ((items ++ map paragraph_of (close_run run)) ++ [li t])
                    [] (Forall_nil _)).
      destruct (fold_left _ lines _) as [items' content].
      destruct IH as [IH1 IH2].
      destruct (filter_li_paragraphs (close_run run)) as [H1 H2].
      split.
      * rewrite IH1, !filter_app, H1. cbn.
        now rewrite app_nil_r, <- app_assoc.
      * rewrite IH2, !filter_app, H2, map_app. cbn.
        now rewrite app_nil_r, <- app_assoc.
    + specialize (IH items (run ++ [line])).
      destruct (fold_left _ lines _) as [items' content].
      apply IH. apply Forall_app. auto.
Qed.

Lemma list_section_run (item : jsstring -> option jsstring)
  (wrap : list Jsx -> Jsx) (lines : list jsstring) :
  Forall tidy lines ->
  list_section item wrap lines =
  let paragraphs := map paragraph_of (prose_runs item [] lines) in
  let lis := map li (list_items item lines) in
  div (render_if (nonempty paragraphs) (div paragraphs)
       ++ render_if (nonempty lis) (wrap lis)).
Proof.
  intros H. unfold list_section.
  pose proof (list_loop_run item lines H [] [] (Forall_nil _)) as Hloop.
  change (@nil N) with (spaced []) at 1.
  destruct (fold_left _ lines _) as [items' content].
  destruct Hloop as [H1 H2]. cbn [filter app] in H1, H2.
  fold not_li. now rewrite H1, H2.
Qed.

Lemma blocks_paragraphs (runs : list (list jsstring)) :
  flat_map blocks (map paragraph_of runs) =
  map (fun run => Paragraph (join_space run)) runs.
Proof. induction runs as [|r runs IH]; cbn; congruence. Qed.

Lemma li_text_items (items : list jsstring) :
  flat_map li_text (map li items) = items.
Proof. induction items as [|x items IH]; cbn; congruence. Qed.

Lemma blocks_render_div (es : list Jsx) :
  flat_map blocks (render_if (nonempty es) (div es)) = flat_map blocks es.
Proof. destruct es; cbn; [reflexivity|now rewrite app_nil_r]. Qed.

Lemma some_marker_some_item (lines : list jsstring) :
  Forall tidy lines ->
  existsb (fun line => is_some (re_bullet_marker line)) lines = true ->
  list_items re_bullet lines <> [].
Proof.
  induction 1 as [|line lines Hline Hlines IH]; cbn; [discriminate|].
  intros H. apply orb_true_iff in H as [H|H].
  - apply is_some_true in H.
    pose proof (bullet_marker_has_item line Hline H) as Hitem.
    destruct (re_bullet line); [discriminate|contradiction].
  - specialize (IH H). destruct (re_bullet line); [discriminate|exact IH].
Qed.

(** *** C2 *)

(** C2, as stated, fails: text between two items is closed as a
    paragraph of its own when the next item comes, so a section with
    text before and between its items shows two paragraphs before the
    list, not one. *)
Lemma bullet_section_can_emit_two_paragraphs :
  existsb has_header_span (section_lines interleaved) = false /\
  existsb (fun line => is_some (re_bullet_marker line))
    (section_lines interleaved) = true /\
  format interleaved =
    [Paragraph (js "a"); Paragraph (js "b"); BulletList [js "x"; js "y"]] /\
  spec_bullet_blocks (section_lines interleaved) =
    [Paragraph (js "a b"); BulletList [js "x"; js "y"]] /\
  blocks_opt (format_section interleaved)
    <> spec_bullet_blocks (section_lines interleaved).
Proof.
  repeat split; try reflexivity. vm_compute. discriminate.
Qed.

(** C2, amended.  In a section with no [**] anywhere and with a line
    that starts with a bullet marker and white space, [formatAnswer]
    shows one paragraph for each maximal run of consecutive lines that
    are not items, the lines of the run joined by single spaces, and
    then one bullet list with the items of all the bullet lines; runs
    and items are in line order, and every paragraph comes before the
    list. *)
Theorem bullet_section_blocks :
  forall section,
    includes_stars section = false ->
    existsb (fun line => is_some (re_bullet_marker line))
      (section_lines section) = true ->
    blocks_opt (format_section section) =
      map (fun run => Paragraph (join_space run))
          (prose_runs re_bullet [] (section_lines section))
      ++ [BulletList (list_items re_bullet (section_lines section))].
Proof.
  intros section Hstars Hbullets. unfold format_section.
  pose proof (section_lines_tidy section) as Htidy.
  pose proof (some_marker_some_item _ Htidy Hbullets) as Hitems.
  destruct (section_lines section) as [|l0 lines] eqn:El; [discriminate|].
  cbn [length Nat.eqb]. rewrite Hstars, Hbullets. cbn [blocks_opt].
  rewrite (list_section_run re_bullet ul (l0 :: lines) Htidy).
  cbv zeta. cbn [blocks]. rewrite flat_map_app, blocks_render_div, blocks_paragraphs.
  f_equal.
  destruct (list_items re_bullet (l0 :: lines)) as [|i items]; [contradiction|].
  cbn [map nonempty length Nat.ltb Nat.leb render_if flat_map blocks app].
  now rewrite li_text_items.
Qed.

Lemma bullet_section_blocks_witness :
  format intro_and_two_items =
    [Paragraph (js "Intro text");
     BulletList [js "item one"; js "item two"]]
  /\ blocks_opt (format_section intro_and_two_items) =
      map (fun run => Paragraph (join_space run))
          (prose_runs re_bullet [] (section_lines intro_and_two_items))
      ++ [BulletList (list_items re_bullet (section_lines intro_and_two_items))].
Proof.
  split; [reflexivity|].
  apply (bullet_section_blocks intro_and_two_items); reflexivity.
Defined.

(** A bullet line with [**] in it sends its section to the header
    branch, where the line is lost. *)
Lemma bullet_line_with_stars_is_not_an_item :
  existsb has_header_span (section_lines (js "* a ** b")) = false /\
  existsb (fun line => is_some (re_bullet_marker line))
    (section_lines (js "* a ** b")) = true /\
  format (js "* a ** b") = [].
Proof. repeat split. Qed.

(* ------------------------------------------------------------------ *)
(** ** Sections with headers                                           *)
(* ------------------------------------------------------------------ *)

Lemma includes_stars_cons (c : N) (s : jsstring) :
  includes_stars s = true -> includes_stars (c :: s) = true.
Proof.
  intros H. destruct s as [|x s]; [discriminate|].
  change (includes_stars (c :: x :: s))
    with (((c =? STAR) && (x =? STAR))%N || includes_stars (x :: s)).
  rewrite H. apply orb_true_r.
Qed.

Lemma includes_stars_app_r (a b : jsstring) :
  includes_stars b = true -> includes_stars (a ++ b) = true.
Proof.
  intros H. induction a as [|c a IH]; [exact H|].
  now apply includes_stars_cons.
Qed.

Lemma includes_stars_app_l (a b : jsstring) :
  includes_stars a = true -> includes_stars (a ++ b) = true.
Proof.
  induction a as [|c a IH]; [discriminate|]. intros H.
  destruct a as [|x a]; [discriminate|].
  change (includes_stars (c :: x :: a))
    with (((c =? STAR) && (x =? STAR))%N || includes_stars (x :: a)) in H.
  change (includes_stars ((c :: x :: a) ++ b))
    with (((c =? STAR) && (x =? STAR))%N || includes_stars ((x :: a) ++ b)).
  apply orb_true_iff in H as [H|H]; [now rewrite H|].
  rewrite (IH H). apply orb_true_r.
Qed.

Lemma includes_stars_middle (a m b : jsstring) :
  includes_stars m = true -> includes_stars (a ++ m ++ b) = true.
Proof.
  intros H. apply includes_stars_app_r. now apply includes_stars_app_l.
Qed.

Lemma trimStart_suffix (s : jsstring) : exists a, s = a ++ trimStart s.
Proof.
  induction s as [|c s [a IH]]; [now exists []|]. cbn.
  destruct (is_ws c); [|now exists []].
  exists (c :: a). cbn. now rewrite <- IH.
Qed.

Lemma trimEnd_prefix (s : jsstring) : exists b, s = trimEnd s ++ b.
Proof.
  unfold trimEnd. destruct (trimStart_suffix (rev s)) as [a Ha].
  exists (rev a). rewrite <- rev_app_distr, <- Ha. now rewrite rev_involutive.
Qed.

Lemma trim_inside (s : jsstring) : exists a b, s = a ++ trim s ++ b.
Proof.
  unfold trim. destruct (trimStart_suffix s) as [a Ha].
  destruct (trimEnd_prefix (trimStart s)) as [b Hb].
  exists a, b. now rewrite <- Hb.
Qed.

Lemma split_LF_from_inside (s : jsstring) : forall cur x,
  In x (split_LF_from cur s) -> exists a b, rev cur ++ s = a ++ x ++ b.
Proof.
  induction s as [|c s IH]; intros cur x Hin; cbn in Hin.
  - destruct Hin as [<-|[]]. exists [], []. now rewrite !app_nil_r.
  - destruct (c =? LF)%N.
    + destruct Hin as [<-|Hin].
      * exists [], (c :: s). reflexivity.
      * destruct (IH [] x Hin) as (a & b & Heq). cbn in Heq.
        exists (rev cur ++ c :: a), b. rewrite Heq, <- app_assoc. reflexivity.
    + destruct (IH (c :: cur) x Hin) as (a & b & Heq).
      exists a, b. rewrite <- Heq. cbn. now rewrite <- app_assoc.
Qed.

(** A line with [**] comes from a section with [**]. *)
Lemma line_stars_section_stars (section line : jsstring) :
  In line (section_lines section) ->
  includes_stars line = true -> includes_stars section = true.
Proof.
  intros Hin Hline. unfold section_lines in Hin.
  apply filter_In in Hin as [Hin _].
  apply in_map_iff in Hin as (x & <- & Hx).
  destruct (split_LF_from_inside section [] x Hx) as (a & b & Heq).
  cbn in Heq. rewrite Heq. apply includes_stars_middle.
  destruct (trim_inside x) as (a' & b' & Hx'). rewrite Hx'.
  now apply includes_stars_middle.
Qed.

Lemma header_search_stars (s : jsstring) : forall before r,
  header_search before s = Some r -> includes_stars s = true.
Proof.
  induction s as [|c s IH]; intros before r H.
  - discriminate.
  - cbn [header_search] in H.
    destruct (re_header (c :: s)) as [[g r']|] eqn:E.
    + unfold re_header, chr, is_char in E.
      destruct (c =? STAR)%N eqn:Ec; [|discriminate].
      destruct s as [|x s]; [discriminate|].
      destruct (x =? STAR)%N eqn:Ex; [|discriminate].
      change (includes_stars (c :: x :: s))
        with (((c =? STAR) && (x =? STAR))%N || includes_stars (x :: s)).
      now rewrite Ec, Ex.
    + apply includes_stars_cons. exact (IH _ _ H).
Qed.

Lemma match_header_stars (line : jsstring) :
  match_header line <> None -> includes_stars line = true.
Proof.
  unfold match_header. destruct (header_search [] line) as [r|] eqn:E.
  - intros _. exact (header_search_stars line [] r E).
  - congruence.
Qed.

Lemma header_step_unbalanced (elements : list Jsx) (content line : jsstring) :
  unbalanced line ->
  header_step (elements, content) line =
    if truthy (trim content)
    then (elements ++ [p (trim content)], [])
    else (elements, content).
Proof.
  intros [Hs Hm]. unfold header_step. rewrite Hs, Hm.
  now destruct (truthy (trim content)).
Qed.

Lemma header_loop_unbalanced (lines : list jsstring) :
  Forall unbalanced lines -> fold_left header_step lines ([], []) = ([], []).
Proof.
  induction 1 as [|line lines Hline _ IH]; [reflexivity|].
  change (fold_left header_step (line :: lines) ([], []))
    with (fold_left header_step lines (header_step ([], []) line)).
  now rewrite (header_step_unbalanced [] [] line Hline).
Qed.

(** *** C9 *)

(** C9.  In the header branch a line with [**] and no span that
    closes closes the pending paragraph and leaves nothing else: no
    heading is made and the line does not go into the buffer.  A
    section all of whose lines are such lines is rendered as an empty
    [<div>]; "** hello" is one, and [formatAnswer] shows nothing of
    it. *)
Theorem unbalanced_line_is_dropped :
  (forall elements content line,
     unbalanced line ->
     header_step (elements, content) line =
       if truthy (trim content)
       then (elements ++ [p (trim content)], [])
       else (elements, content))
  /\ (forall section,
        section_lines section <> [] ->
        Forall unbalanced (section_lines section) ->
        format_section section = Some (div []) /\
        blocks_opt (format_section section) = [])
  /\ (unbalanced (js "** hello") /\
      formatAnswer (js "** hello") = [Some (div [])] /\
      format (js "** hello") = []).
Proof.
  split; [exact header_step_unbalanced|]. split.
  - intros section Hne Hall.
    assert (Hstars : includes_stars section = true).
    { destruct (section_lines section) as [|l0 lines] eqn:El; [contradiction|].
      inversion Hall as [|? ? [Hl0 _] _]; subst.
      apply (line_stars_section_stars section l0); [|exact Hl0].
      rewrite El. now left. }
    assert (Hsec : format_section section = Some (div [])).
    { unfold format_section, header_section.
      rewrite Hstars, (header_loop_unbalanced _ Hall).
      destruct (section_lines section); [contradiction|reflexivity]. }
    now rewrite Hsec.
  - repeat split.
Qed.

Lemma unbalanced_line_is_dropped_witness :
  header_step ([h3 (js "Title")], js "pending ") (js "** hello") =
    ([h3 (js "Title"); p (js "pending")], [])
  /\ format_section (ln (js "** hello") (js "more **")) = Some (div [])
  /\ blocks_opt (format_section (ln (js "** hello") (js "more **"))) = [].
Proof.
  split.
  - apply (proj1 unbalanced_line_is_dropped
             [h3 (js "Title")] (js "pending ") (js "** hello")).
    split; reflexivity.
  - apply (proj1 (proj2 unbalanced_line_is_dropped)
             (ln (js "** hello") (js "more **"))).
    + discriminate.
    + repeat constructor.
Defined.

(** *** C1 *)

Lemma spec_flush_blocks (run : list jsstring) :
  flat_map blocks (map paragraph_of (close_run run)) = spec_flush run.
Proof. now destruct run. Qed.

(** One step of the loop of the header branch does what the
    specification says, on a line that has a span whenever it has
    [**]. *)
Lemma header_step_refines (elements : list Jsx) (buffer : list jsstring)
  (line : jsstring) :
  Forall tidy buffer -> tidy line ->
  (includes_stars line = true -> match_header line <> None) ->
  exists elements' buffer',
    header_step (elements, spaced buffer) line = (elements', spaced buffer') /\
    Forall tidy buffer' /\
    spec_header_step (flat_map blocks elements, buffer) line =
      (flat_map blocks elements', buffer').
Proof.
  intros Hbuf Hline Hbal. unfold header_step, spec_header_step.
  unfold match_header, replace_header in *.
  destruct (header_search [] line) as [[[before inner] after]|] eqn:E.
  - rewrite (header_search_stars line [] _ E).
    rewrite (truthy_trim_spaced buffer Hbuf), (trim_spaced buffer Hbuf).
    destruct (truthy (trim (before ++ after))) eqn:Er.
    + exists ((elements ++ map paragraph_of (close_run buffer)) ++ [h3 inner]),
        [trim (before ++ after)].
      split; [|split].
      * destruct buffer; cbn; rewrite ?app_nil_r; reflexivity.
      * constructor; [now apply truthy_trim_tidy|constructor].
      * rewrite !flat_map_app, spec_flush_blocks, <- app_assoc. reflexivity.
    + exists ((elements ++ map paragraph_of (close_run buffer)) ++ [h3 inner]), [].
      split; [|split].
      * destruct buffer; cbn; rewrite ?app_nil_r; reflexivity.
      * constructor.
      * rewrite !flat_map_app, spec_flush_blocks, <- app_assoc. reflexivity.
  - destruct (includes_stars line) eqn:Es.
    + exfalso. now apply Hbal.
    + exists elements, (buffer ++ [line]). rewrite spaced_snoc.
      split; [reflexivity|]. split; [|reflexivity].
      apply Forall_app. auto.
Qed.

Lemma header_loop_refines (lines : list jsstring) :
  Forall tidy lines ->
  Forall (fun line => includes_stars line = true -> match_header line <> None)
    lines ->
  forall elements buffer, Forall tidy buffer ->
  exists elements' buffer',
    fold_left header_step lines (elements, spaced buffer)
      = (elements', spaced buffer') /\
    Forall tidy buffer' /\
    fold_left spec_header_step lines (flat_map blocks elements, buffer)
      = (flat_map blocks elements', buffer').
Proof.
  induction 1 as [|line lines Hline Hlines IH]; intros Hbal elements buffer Hbuf.
  - exists elements, buffer. auto.
  - inversion Hbal as [|? ? Hb Hbal']; subst.
    destruct (header_step_refines elements buffer line Hbuf Hline Hb)
      as (e1 & b1 & Hstep & Hb1 & Hspec).
    destruct (IH Hbal' e1 b1 Hb1) as (e2 & b2 & Hloop & Hb2 & Hspec2).
    exists e2, b2. cbn [fold_left]. rewrite Hstep, Hspec. auto.
Qed.

(** In a section where every line with [**] has a span that closes,
    the header branch shows what the specification says. *)
Lemma header_section_refines (section : jsstring) :
  existsb has_header_span (section_lines section) = true ->
  Forall (fun line => includes_stars line = true -> match_header line <> None)
    (section_lines section) ->
  blocks_opt (format_section section)
  = spec_header_blocks (section_lines section).
Proof.
  intros Hspan Hbal. pose proof (section_lines_tidy section) as Htidy.
  assert (Hstars : includes_stars section = true).
  { apply existsb_exists in Hspan as (line & Hin & Hline).
    apply (line_stars_section_stars section line Hin).
    apply match_header_stars. now apply is_some_true. }
  unfold format_section. rewrite Hstars.
  destruct (section_lines section) as [|l0 lines] eqn:El; [discriminate|].
  cbn [length Nat.eqb blocks_opt]. unfold header_section, spec_header_blocks.
  destruct (header_loop_refines (l0 :: lines) Htidy Hbal [] [] (Forall_nil _))
    as (e & b & Hloop & Hb & Hspec).
  change (@nil N) with (spaced []) at 1. cbn [flat_map] in Hspec.
  rewrite Hloop, Hspec, (flush_spaced e b Hb). cbn [blocks].
  now rewrite flat_map_app, spec_flush_blocks.
Qed.

(** C1.  On "**Summary**" and "This is the body." [formatAnswer] shows
    the heading and the paragraph.  But a section with a header span
    and a line with [**] that closes no span loses that line: the
    line is no heading, and the specification puts text that is no
    heading into the buffer, which the end of the section closes as a
    paragraph. *)
Theorem header_section_loses_unbalanced_line :
  format summary_and_body =
    [Heading (js "Summary"); Paragraph (js "This is the body.")]
  /\ existsb has_header_span (section_lines title_and_unbalanced) = true
  /\ format title_and_unbalanced = [Heading (js "Title")]
  /\ spec_header_blocks (section_lines title_and_unbalanced) =
       [Heading (js "Title"); Paragraph (js "** hello")].
Proof. repeat split. Qed.


(* ================================================================== *)
(** * Part 5: further properties of the formatter                      *)
(* ================================================================== *)

(** ** What a match tells about the input *)

Lemma many_inv (A : Type) (cls : N -> bool) (s : jsstring) :
  forall (k : jsstring -> jsstring -> option A) (x : A),
    many cls k s = Some x ->
    exists a b, s = a ++ b /\ forallb cls a = true /\ k a b = Some x.
Proof.
  induction s as [|c t IH]; intros k x H.
  - exists [], []. auto.
  - cbn in H. destruct (cls c) eqn:Ec.
    + destruct (many cls (fun m r => k (c :: m) r) t) as [y|] eqn:Em.
      * injection H as <-. destruct (IH _ _ Em) as (a & b & -> & Ha & Hk).
        exists (c :: a), b. cbn. rewrite Ec, Ha. auto.
      * exists [], (c :: t). auto.
    + exists [], (c :: t). auto.
Qed.

Lemma many1_inv (A : Type) (cls : N -> bool) (s : jsstring)
  (k : jsstring -> jsstring -> option A) (x : A) :
  many1 cls k s = Some x ->
  exists c a b, s = c :: a ++ b /\ cls c = true /\ forallb cls a = true /\
    k (c :: a) b = Some x.
Proof.
  destruct s as [|c t]; [discriminate|]. cbn. destruct (cls c) eqn:Ec; [|discriminate].
  intros H. destruct (many_inv _ _ _ _ _ H) as (a & b & -> & Ha & Hk).
  now exists c, a, b.
Qed.

Lemma many1_finds (A : Type) (cls : N -> bool) (c : N) (a b : jsstring)
  (k : jsstring -> jsstring -> option A) :
  cls c = true -> forallb cls a = true -> k (c :: a) b <> None ->
  many1 cls k (c :: a ++ b) <> None.
Proof.
  intros Hc Ha Hk. cbn. rewrite Hc.
  now apply (many_finds A cls a (fun m r => k (c :: m) r) b).
Qed.

Lemma chr_inv (A : Type) (cls : N -> bool) (k : jsstring -> option A)
  (s : jsstring) (x : A) :
  chr cls k s = Some x -> exists c t, s = c :: t /\ cls c = true /\ k t = Some x.
Proof.
  destruct s as [|c t]; [discriminate|]. cbn. destruct (cls c) eqn:Ec; [|discriminate].
  intros H. now exists c, t.
Qed.

Lemma is_char_eq (a c : N) : is_char a c = true -> c = a.
Proof. apply N.eqb_eq. Qed.

(** A match of the header pattern is [**], the group, [**]; the group
    is not empty and has no [*]. *)
Lemma re_header_inv (s g r : jsstring) :
  re_header s = Some (g, r) ->
  s = STAR :: STAR :: g ++ STAR :: STAR :: r /\
  g <> [] /\ forallb not_star g = true.
Proof.
  unfold re_header. intros H.
  apply chr_inv in H as (c1 & t1 & -> & H1 & H). apply is_char_eq in H1 as ->.
  apply chr_inv in H as (c2 & t2 & -> & H2 & H). apply is_char_eq in H2 as ->.
  apply many1_inv in H as (c & a & b & -> & Hc & Ha & H).
  apply chr_inv in H as (c3 & t3 & -> & H3 & H). apply is_char_eq in H3 as ->.
  apply chr_inv in H as (c4 & t4 & -> & H4 & H). apply is_char_eq in H4 as ->.
  injection H as <- <-. repeat split.
  - discriminate.
  - cbn. now rewrite Hc, Ha.
Qed.

Lemma header_search_inv (s : jsstring) : forall before b g a,
  header_search before s = Some (b, g, a) ->
  exists mid,
    b = rev before ++ mid /\
    s = mid ++ STAR :: STAR :: g ++ STAR :: STAR :: a /\
    g <> [] /\ forallb not_star g = true /\
    forall m1 m2, mid = m1 ++ m2 -> m2 <> [] ->
      re_header (m2 ++ STAR :: STAR :: g ++ STAR :: STAR :: a) = None.
Proof.
  induction s as [|c s IH]; intros before b g a H.
  - discriminate.
  - cbn [header_search] in H.
    destruct (re_header (c :: s)) as [[g' r']|] eqn:E.
    + injection H as <- <- <-. apply re_header_inv in E as (Hs & Hg & Hns).
      exists []. rewrite app_nil_r. repeat split; auto.
      intros m1 m2 Hm Hne. destruct m1, m2; try discriminate. contradiction.
    + destruct (IH _ _ _ _ H) as (mid & -> & -> & Hg & Hns & Hleft).
      exists (c :: mid). cbn [rev]. rewrite <- app_assoc. repeat split; auto.
      intros m1 m2 Hm Hne. destruct m1 as [|x m1].
      * cbn in Hm. subst m2. exact E.
      * injection Hm as -> ->. now apply (Hleft m1 m2).
Qed.

(** What [(.+)] takes is not empty. *)
Lemma many1_group_nonempty (cls : N -> bool) (s t : jsstring) :
  many1 cls (fun g _ => Some g) s = Some t -> t <> [].
Proof.
  intros H. apply many1_inv in H as (c & a & b & _ & _ & _ & H).
  injection H as <-. discriminate.
Qed.

Lemma re_bullet_nonempty (line t : jsstring) :
  re_bullet line = Some t -> t <> [].
Proof.
  unfold re_bullet. intros H.
  apply many_inv in H as (a & b & _ & _ & H).
  apply chr_inv in H as (c & b' & _ & _ & H).
  apply many1_inv in H as (w & a' & b'' & _ & _ & _ & H).
  exact (many1_group_nonempty _ _ _ H).
Qed.

Lemma re_number_nonempty (line t : jsstring) :
  re_number line = Some t -> t <> [].
Proof.
  unfold re_number. intros H.
  apply many_inv in H as (a & b & _ & _ & H).
  apply many1_inv in H as (d & ds & b' & _ & _ & _ & H).
  apply chr_inv in H as (c & b'' & _ & _ & H).
  apply many1_inv in H as (w & a' & b3 & _ & _ & _ & H).
  exact (many1_group_nonempty _ _ _ H).
Qed.

(** On a trimmed line the numbered pattern with the group matches
    whenever the pattern of [lines.some] does. *)
Lemma number_marker_has_item (line : jsstring) :
  tidy line -> re_number_marker line <> None -> re_number line <> None.
Proof.
  intros [(c & t & -> & Hc) He]. unfold re_number_marker, re_number.
  rewrite !(many_not_class _ is_ws c t _ Hc).
  destruct (many1 is_digit _ (c :: t)) as [[]|] eqn:E; [intros _|congruence].
  apply many1_inv in E as (d & ds & b & Heq & Hd & Hds & E).
  apply chr_inv in E as (pt & b' & -> & Hpt & E).
  apply many1_inv in E as (w & ws & b'' & -> & Hw & _ & _).
  rewrite Heq. apply many1_finds; [exact Hd|exact Hds|].
  cbn [chr]. rewrite Hpt.
  assert (Hrest : ends_clean (ws ++ b'')).
  { destruct He as (u & z & Hu & Hz). rewrite Heq in Hu.
    assert (Hlast : last (d :: ds ++ pt :: w :: ws ++ b'') 0%N = z).
    { rewrite Hu. apply last_last. }
    destruct (ws ++ b'') as [|y ys] eqn:Ey.
    - exfalso. replace (d :: ds ++ [pt; w]) with ((d :: ds ++ [pt]) ++ [w]) in Hlast
        by (cbn; now rewrite <- app_assoc).
      rewrite last_last in Hlast. congruence.
    - destruct (exists_last (l := y :: ys)) as (u' & z' & Hu'); [discriminate|].
      exists u', z'. split; [exact Hu'|].
      replace (d :: ds ++ pt :: w :: y :: ys)
        with ((d :: ds ++ pt :: w :: u') ++ [z']) in Hlast.
      + rewrite last_last in Hlast. congruence.
      + rewrite Hu'. cbn. rewrite <- app_assoc. reflexivity. }
  destruct (ends_clean_split _ Hrest) as (a & x & b3 & Hsplit & Ha & Hx).
  change (many1 is_ws ?k (w :: ws ++ b'')) with (many1 is_ws k (w :: ws ++ b'')).
  rewrite Hsplit. cbn [many1]. rewrite Hw.
  apply many_finds; [exact Ha|]. cbn. rewrite (clean_char_dot x Hx).
  now apply many_total.
Qed.

(** ** Numbered sections *)

Lemma some_number_marker_some_item (lines : list jsstring) :
  Forall tidy lines ->
  existsb (fun line => is_some (re_number_marker line)) lines = true ->
  list_items re_number lines <> [].
Proof.
  induction 1 as [|line lines Hline Hlines IH]; cbn; [discriminate|].
  intros H. apply orb_true_iff in H as [H|H].
  - apply is_some_true in H.
    pose proof (number_marker_has_item line Hline H) as Hitem.
    destruct (re_number line); [discriminate|contradiction].
  - specialize (IH H). destruct (re_number line); [discriminate|exact IH].
Qed.

(** X1.  In a section with no [**] and no bullet line, and with a line
    that starts with digits, a dot and white space, [formatAnswer]
    shows one paragraph for each maximal run of consecutive lines
    that are not numbered, and then one numbered list with the items
    of all the numbered lines, in line order. *)
Theorem numbered_section_blocks :
  forall section,
    includes_stars section = false ->
    existsb (fun line => is_some (re_bullet_marker line))
      (section_lines section) = false ->
    existsb (fun line => is_some (re_number_marker line))
      (section_lines section) = true ->
    blocks_opt (format_section section) =
      map (fun run => Paragraph (join_space run))
          (prose_runs re_number [] (section_lines section))
      ++ [NumberedList (list_items re_number (section_lines section))].
Proof.
  intros section Hstars Hbullets Hnumbers. unfold format_section.
  pose proof (section_lines_tidy section) as Htidy.
  pose proof (some_number_marker_some_item _ Htidy Hnumbers) as Hitems.
  destruct (section_lines section) as [|l0 lines] eqn:El; [discriminate|].
  cbn [length Nat.eqb]. rewrite Hstars, Hbullets, Hnumbers. cbn [blocks_opt].
  rewrite (list_section_run re_number ol (l0 :: lines) Htidy).
  cbv zeta. cbn [blocks].
  rewrite flat_map_app, blocks_render_div, blocks_paragraphs. f_equal.
  destruct (list_items re_number (l0 :: lines)) as [|i items]; [contradiction|].
  cbn [map nonempty length Nat.ltb Nat.leb render_if flat_map blocks app].
  now rewrite li_text_items.
Qed.

Lemma numbered_section_blocks_witness :
  format (ln (js "Steps:") (ln (js "1. first") (ln (js "then") (js "22. second"))))
  = [Paragraph (js "Steps:"); Paragraph (js "then");
     NumberedList [js "first"; js "second"]]
  /\ blocks_opt (format_section (ln (js "1. first") (js "2. second")))
     = map (fun run => Paragraph (join_space run))
         (prose_runs re_number []
            (section_lines (ln (js "1. first") (js "2. second"))))
       ++ [NumberedList (list_items re_number
            (section_lines (ln (js "1. first") (js "2. second"))))].
Proof.
  split; [reflexivity|].
  apply (numbered_section_blocks (ln (js "1. first") (js "2. second")));
    reflexivity.
Defined.

(** ** No block is empty *)

Lemma header_step_keeps (P : Jsx -> Prop) (st : list Jsx * jsstring)
  (line : jsstring) :
  (forall t, tidy t -> P (p t)) ->
  (forall t, t <> [] -> P (h3 t)) ->
  Forall P (fst st) -> Forall P (fst (header_step st line)).
Proof.
  intros Hp Hh. destruct st as [elements content]. cbn [fst]. intros Hall.
  unfold header_step. destruct (includes_stars line); [|exact Hall].
  assert (Hflush : Forall P (fst (if truthy (trim content)
                     then (elements ++ [p (trim content)], [])
                     else (elements, content)))).
  { destruct (truthy (trim content)) eqn:Et; [|exact Hall]. cbn.
    apply Forall_app. split; [exact Hall|]. constructor; [|constructor].
    apply Hp. now apply truthy_trim_tidy. }
  destruct (if truthy (trim content) then _ else _) as [elements' content'].
  cbn [fst] in Hflush. unfold match_header.
  destruct (header_search [] line) as [[[b g] a]|] eqn:E; [|exact Hflush].
  assert (Hh3 : Forall P (elements' ++ [h3 g])).
  { apply Forall_app. split; [exact Hflush|]. constructor; [|constructor].
    apply Hh. now destruct (header_search_inv line [] b g a E) as (_ & _ & _ & Hg & _). }
  now destruct (truthy (trim (replace_header line))).
Qed.

Lemma header_loop_keeps (P : Jsx -> Prop) (lines : list jsstring) :
  (forall t, tidy t -> P (p t)) ->
  (forall t, t <> [] -> P (h3 t)) ->
  forall st, Forall P (fst st) ->
    Forall P (fst (fold_left header_step lines st)).
Proof.
  intros Hp Hh. induction lines as [|line lines IH]; intros st Hst; [exact Hst|].
  cbn [fold_left]. apply IH. now apply header_step_keeps.
Qed.

(** The elements of a header section are paragraphs and headings. *)
Lemma header_section_elements (P : Jsx -> Prop) (lines : list jsstring) :
  (forall t, tidy t -> P (p t)) ->
  (forall t, t <> [] -> P (h3 t)) ->
  exists elements, header_section lines = div elements /\ Forall P elements.
Proof.
  intros Hp Hh. unfold header_section.
  pose proof (header_loop_keeps P lines Hp Hh ([], []) (Forall_nil _)) as H.
  destruct (fold_left header_step lines ([], [])) as [elements content].
  cbn [fst] in H. destruct (truthy (trim content)) eqn:Et.
  - eexists. split; [reflexivity|]. apply Forall_app. split; [exact H|].
    constructor; [|constructor]. apply Hp. now apply truthy_trim_tidy.
  - now exists elements.
Qed.

Lemma prose_runs_tidy (item : jsstring -> option jsstring)
  (lines : list jsstring) :
  Forall tidy lines -> forall run, Forall tidy run ->
  Forall (fun r => tidy (join_space r)) (prose_runs item run lines).
Proof.
  assert (Hclose : forall run, Forall tidy run ->
            Forall (fun r => tidy (join_space r)) (close_run run)).
  { intros [|x run] H; constructor; [|constructor]. now apply join_space_tidy. }
  induction 1 as [|line lines Hline Hlines IH]; intros run Hrun; cbn.
  - now apply Hclose.
  - destruct (item line).
    + apply Forall_app. split; [now apply Hclose|]. apply IH. constructor.
    + apply IH. apply Forall_app. auto.
Qed.

Lemma list_items_nonempty (item : jsstring -> option jsstring)
  (lines : list jsstring) :
  (forall line t, item line = Some t -> t <> []) ->
  Forall (fun t => t <> []) (list_items item lines).
Proof.
  intros Hitem. induction lines as [|line lines IH]; cbn; [constructor|].
  destruct (item line) as [t|] eqn:E; [|exact IH].
  constructor; [exact (Hitem line t E)|exact IH].
Qed.

Lemma list_section_shows_text (item : jsstring -> option jsstring)
  (wrap : list Jsx -> Jsx) (lines : list jsstring) :
  (forall line t, item line = Some t -> t <> []) ->
  (forall items, items <> [] -> Forall (fun t => t <> []) items ->
     Forall shows_text (blocks (wrap (map li items)))) ->
  Forall tidy lines ->
  Forall shows_text (blocks (list_section item wrap lines)).
Proof.
  intros Hitem Hwrap Htidy. rewrite (list_section_run item wrap lines Htidy).
  cbv zeta. cbn [blocks]. rewrite flat_map_app, blocks_render_div, blocks_paragraphs.
  apply Forall_app. split.
  - pose proof (prose_runs_tidy item lines Htidy [] (Forall_nil _)) as H.
    induction H; cbn; constructor; auto.
  - pose proof (list_items_nonempty item lines Hitem) as Hne.
    destruct (list_items item lines) as [|i items] eqn:E; [constructor|].
    cbn [map nonempty length Nat.ltb Nat.leb render_if flat_map].
    rewrite app_nil_r. change (li i :: map li items) with (map li (i :: items)).
    apply Hwrap; [discriminate|exact Hne].
Qed.

Lemma format_section_shows_text (section : jsstring) :
  Forall shows_text (blocks_opt (format_section section)).
Proof.
  unfold format_section. pose proof (section_lines_tidy section) as Htidy.
  destruct (section_lines section) as [|l0 lines] eqn:El; [constructor|].
  cbn [length Nat.eqb]. destruct (includes_stars section).
  - cbn [blocks_opt].
    destruct (header_section_elements leaf_ok (l0 :: lines)) as (es & -> & Hes);
      [auto|auto|].
    cbn [blocks]. induction Hes as [|e es He _ IH]; [constructor|].
    cbn [flat_map]. apply Forall_app. split; [|exact IH].
    destruct e; cbn in He |- *; try contradiction;
      try (constructor; [exact He|constructor]); constructor.
  - destruct (existsb _ (l0 :: lines)).
    + apply list_section_shows_text; [exact re_bullet_nonempty| |exact Htidy].
      intros items Hne Hall. cbn. rewrite li_text_items.
      constructor; [now split|constructor].
    + destruct (existsb _ (l0 :: lines)).
      * apply list_section_shows_text; [exact re_number_nonempty| |exact Htidy].
        intros items Hne Hall. cbn. rewrite li_text_items.
      constructor; [now split|constructor].
      * cbn. constructor; [|constructor]. now apply join_space_tidy.
Qed.

(** X2.  Whatever the answer, no block [formatAnswer] shows is empty:
    the text of a paragraph is not empty and neither starts nor ends
    with white space, the text of a heading is not empty, and a list
    has at least one item and no empty item. *)
Theorem format_shows_text :
  forall text block, In block (format text) -> shows_text block.
Proof.
  intros text block Hin. unfold format in Hin.
  apply in_flat_map in Hin as (o & Ho & Hin).
  unfold formatAnswer in Ho. apply in_map_iff in Ho as (section & <- & _).
  pose proof (format_section_shows_text section) as H.
  rewrite Forall_forall in H. now apply H.
Qed.

Lemma format_shows_text_witness :
  shows_text (Paragraph (js "Intro text")) /\
  shows_text (BulletList [js "item one"; js "item two"]).
Proof.
  split.
  - apply (format_shows_text intro_and_two_items). now left.
  - apply (format_shows_text intro_and_two_items). right. now left.
Defined.

(** ** Sections with [**] show no list *)

(** X3.  A section with [**] in it goes to the header branch whatever
    else its lines look like: it shows headings and paragraphs only,
    never a list, even when lines start with a bullet or a number. *)
Theorem starred_section_shows_no_list :
  forall section,
    includes_stars section = true ->
    Forall is_prose (blocks_opt (format_section section)).
Proof.
  intros section Hstars. unfold format_section. rewrite Hstars.
  destruct (section_lines section) as [|l0 lines]; [constructor|].
  cbn [length Nat.eqb blocks_opt].
  destruct (header_section_elements
              (fun e => match e with p _ | h3 _ => True | _ => False end)
              (l0 :: lines)) as (es & -> & Hes); [auto|auto|].
  cbn [blocks]. induction Hes as [|e es He _ IH]; [constructor|].
  cbn [flat_map]. apply Forall_app. split; [|exact IH].
  destruct e; try contradiction; repeat constructor.
Qed.

Lemma starred_section_shows_no_list_witness :
  format (ln (js "* **Key** point") (js "1. next")) =
    [Heading (js "Key"); Paragraph (js "*  point 1. next")]
  /\ Forall is_prose
       (blocks_opt (format_section (ln (js "* **Key** point") (js "1. next")))).
Proof.
  split; [reflexivity|].
  apply (starred_section_shows_no_list (ln (js "* **Key** point") (js "1. next"))).
  reflexivity.
Defined.

(** ** White space *)

Lemma trimStart_nil_iff (s : jsstring) : trimStart s = [] <-> all_ws s = true.
Proof.
  induction s as [|c s IH]; cbn; [tauto|].
  destruct (is_ws c); cbn; [exact IH|]. split; discriminate.
Qed.

Lemma trim_nil_iff (s : jsstring) : trim s = [] <-> all_ws s = true.
Proof.
  rewrite <- trimStart_nil_iff. unfold trim. split.
  - destruct (trimStart_clean s) as [H|(c & t & E & Hc)]; [auto|].
    rewrite E, (trimEnd_cons_clean c t Hc). discriminate.
  - intros ->. reflexivity.
Qed.

Lemma truthy_trim_iff (s : jsstring) :
  truthy (trim s) = true <-> all_ws s = false.
Proof.
  pose proof (trim_nil_iff s) as H. destruct (trim s), (all_ws s); cbn;
    split; try congruence; intros; exfalso.
  - destruct H as [H _]. specialize (H eq_refl). discriminate.
  - destruct H as [_ H]. specialize (H eq_refl). discriminate.
Qed.

Lemma all_ws_app (a b : jsstring) : all_ws (a ++ b) = all_ws a && all_ws b.
Proof. apply forallb_app. Qed.

Lemma filter_nil_all_false (A : Type) (f : A -> bool) (l : list A) :
  filter f l = [] -> forall x, In x l -> f x = false.
Proof.
  intros H x Hx. destruct (f x) eqn:E; [|reflexivity].
  assert (Hin : In x (filter f l)) by (apply filter_In; auto).
  rewrite H in Hin. contradiction.
Qed.

Lemma split_LF_from_all_ws (s : jsstring) : forall cur,
  Forall (fun x => all_ws x = true) (split_LF_from cur s) ->
  all_ws (rev cur ++ s) = true.
Proof.
  induction s as [|c s IH]; intros cur H; cbn in H.
  - inversion H; subst. now rewrite app_nil_r.
  - destruct (c =? LF)%N eqn:Ec.
    + apply N.eqb_eq in Ec. subst c. inversion H as [|? ? Hcur Hrest]; subst.
      specialize (IH [] Hrest). cbn in IH.
      rewrite all_ws_app, Hcur. cbn. exact IH.
    + specialize (IH (c :: cur) H). cbn [rev] in IH.
      now rewrite <- app_assoc in IH.
Qed.

(** A section with something in it has a line. *)
Lemma section_lines_nonempty (section : jsstring) :
  truthy (trim section) = true -> section_lines section <> [].
Proof.
  intros Ht Hnil. apply truthy_trim_iff in Ht.
  assert (H : all_ws section = true); [|congruence].
  apply (split_LF_from_all_ws section []). apply Forall_forall. intros x Hx.
  apply trim_nil_iff.
  assert (Hf : truthy (trim x) = false).
  { apply (filter_nil_all_false _ truthy (map trim (split_LF section)) Hnil).
    now apply in_map. }
  destruct (trim x); [reflexivity|discriminate].
Qed.

(** X4.  The callback of [sections.map] never returns [null]: the
    check [lines.length === 0] cannot succeed on a section that passed
    the filter, so there is one rendered element for each section
    that is not blank. *)
Theorem formatAnswer_never_null :
  forall text o, In o (formatAnswer text) -> o <> None.
Proof.
  intros text o Hin. unfold formatAnswer in Hin.
  apply in_map_iff in Hin as (section & <- & Hs).
  apply filter_In in Hs as [_ Ht].
  pose proof (section_lines_nonempty section Ht) as Hne.
  unfold format_section. destruct (section_lines section) as [|l0 lines];
    [contradiction|].
  cbn [length Nat.eqb]. destruct (includes_stars section); [discriminate|].
  destruct (existsb _ (l0 :: lines)); [discriminate|].
  destruct (existsb _ (l0 :: lines)); discriminate.
Qed.

Lemma formatAnswer_never_null_witness :
  In (Some (div [])) (formatAnswer (js "** hello")) /\
  Some (div []) <> None.
Proof.
  split; [now left|].
  apply (formatAnswer_never_null (js "** hello")). now left.
Defined.

Lemma re_blank_line_inv (s r : jsstring) :
  re_blank_line s = Some r ->
  exists a, s = LF :: a ++ LF :: r /\ all_ws a = true.
Proof.
  unfold re_blank_line. intros H.
  apply chr_inv in H as (c & t & -> & Hc & H). apply is_char_eq in Hc as ->.
  apply many_inv in H as (a & b & -> & Ha & H).
  apply chr_inv in H as (c' & t' & -> & Hc' & H). apply is_char_eq in Hc' as ->.
  injection H as <-. now exists a.
Qed.

Lemma split_blank_from_all_ws (s : jsstring) : forall skip cur,
  all_ws (firstn skip s) = true ->
  Forall (fun x => all_ws x = true) (split_blank_from skip cur s) ->
  all_ws (rev cur ++ s) = true.
Proof.
  induction s as [|c t IH]; intros skip cur Hskip H.
  - cbn in H. inversion H; subst. now rewrite app_nil_r.
  - destruct skip as [|n].
    + cbn [split_blank_from] in H.
      destruct (re_blank_line (c :: t)) as [r|] eqn:E.
      * inversion H as [|? ? Hcur Hrest]; subst.
        apply re_blank_line_inv in E as (a & Heq & Ha).
        injection Heq as -> ->.
        assert (Hlen : length (a ++ LF :: r) - length r = length (a ++ [LF])).
        { rewrite !length_app. cbn. lia. }
        rewrite Hlen in Hrest.
        assert (Hfirst : all_ws (firstn (length (a ++ [LF])) (a ++ LF :: r)) = true).
        { replace (a ++ LF :: r) with ((a ++ [LF]) ++ r)
            by (now rewrite <- app_assoc).
          rewrite firstn_app, firstn_all, Nat.sub_diag. cbn [firstn].
          rewrite app_nil_r, all_ws_app, Ha. reflexivity. }
        specialize (IH _ [] Hfirst Hrest). cbn in IH.
        rewrite all_ws_app, Hcur. cbn. exact IH.
      * specialize (IH 0 (c :: cur) eq_refl H). cbn [rev] in IH.
        now rewrite <- app_assoc in IH.
    + cbn [split_blank_from] in H. cbn [firstn] in Hskip.
      cbn in Hskip. apply andb_true_iff in Hskip as [Hc Hn].
      specialize (IH n cur Hn H).
      rewrite all_ws_app in IH |- *. apply andb_true_iff in IH as [H1 H2].
      rewrite H1. cbn. unfold all_ws in H2. now rewrite Hc, H2.
Qed.

(** X5.  [formatAnswer] returns the empty sequence exactly for the
    answers made of white space only (the empty answer among them):
    an answer with anything else in it is rendered as at least one
    section. *)
Theorem formatAnswer_empty_iff_blank :
  forall text, formatAnswer text = [] <-> all_ws text = true.
Proof.
  intros text. unfold formatAnswer, replace_stars_by_stars. split.
  - intros H. apply map_eq_nil in H. apply trim_nil_iff.
    assert (Hall : all_ws (trim text) = true).
    { apply (split_blank_from_all_ws (trim text) 0 [] eq_refl).
      apply Forall_forall. intros x Hx.
      pose proof (filter_nil_all_false _ _ _ H x Hx) as Hf. cbn in Hf.
      apply trim_nil_iff. destruct (trim x); [reflexivity|discriminate]. }
    destruct (trim_clean text) as [Ht|[(c & t & E & Hc) _]]; [exact Ht|].
    rewrite E in Hall. cbn in Hall. rewrite Hc in Hall. discriminate.
  - intros H. apply trim_nil_iff in H. rewrite H. reflexivity.
Qed.

Lemma trimStart_ws_app (a s : jsstring) :
  all_ws a = true -> trimStart (a ++ s) = trimStart s.
Proof.
  induction a as [|c a IH]; cbn; [reflexivity|]. intros H.
  apply andb_true_iff in H as [Hc Ha]. rewrite Hc. now apply IH.
Qed.

Lemma all_ws_rev (a : jsstring) : all_ws (rev a) = all_ws a.
Proof.
  induction a as [|c a IH]; [reflexivity|]. cbn [rev].
  rewrite all_ws_app, IH. cbn. rewrite andb_true_r. apply andb_comm.
Qed.

Lemma trimEnd_app_ws (s b : jsstring) :
  all_ws b = true -> trimEnd (s ++ b) = trimEnd s.
Proof.
  intros H. unfold trimEnd. rewrite rev_app_distr, trimStart_ws_app; [reflexivity|].
  now rewrite all_ws_rev.
Qed.

Lemma trimStart_app_clean (s b : jsstring) :
  trimStart s <> [] -> trimStart (s ++ b) = trimStart s ++ b.
Proof.
  induction s as [|c s IH]; cbn; [congruence|].
  destruct (is_ws c); [exact IH|reflexivity].
Qed.

Lemma trim_surrounded (a text b : jsstring) :
  all_ws a = true -> all_ws b = true -> trim (a ++ text ++ b) = trim text.
Proof.
  intros Ha Hb. unfold trim. rewrite (trimStart_ws_app a _ Ha).
  destruct (trimStart text) as [|c t] eqn:E.
  - apply trimStart_nil_iff in E.
    assert (H : trimStart (text ++ b) = []).
    { apply trimStart_nil_iff. now rewrite all_ws_app, E, Hb. }
    now rewrite H.
  - rewrite trimStart_app_clean, E; [|congruence]. now apply trimEnd_app_ws.
Qed.

(** X6.  White space around the answer changes nothing: with white
    space [a] before it and [b] after it, the answer is rendered as
    it is without them. *)
Theorem formatAnswer_ignores_surrounding_space :
  forall a text b,
    all_ws a = true -> all_ws b = true ->
    formatAnswer (a ++ text ++ b) = formatAnswer text.
Proof.
  intros a text b Ha Hb. unfold formatAnswer, replace_stars_by_stars.
  now rewrite (trim_surrounded a text b Ha Hb).
Qed.

Lemma formatAnswer_ignores_surrounding_space_witness :
  formatAnswer (js "  " ++ summary_and_body ++ [LF; LF; SPACE])
  = formatAnswer summary_and_body.
Proof.
  apply (formatAnswer_ignores_surrounding_space (js "  ") summary_and_body
           [LF; LF; SPACE]); reflexivity.
Defined.

(** ** The header span *)

(** X7.  When a line has a header span, [match] and [replace] agree on
    it: the line is the text before the span, [**], the heading,
    [**], and the text after the span; the heading is not empty and
    has no [*] in it; [replace] leaves the text before and the text
    after; and the span is the first of the line, no span starting
    anywhere before it. *)
Theorem header_span_is_cut_out :
  forall line heading,
    match_header line = Some heading ->
    exists before after,
      line = before ++ STAR :: STAR :: heading ++ STAR :: STAR :: after /\
      replace_header line = before ++ after /\
      heading <> [] /\
      forallb not_star heading = true /\
      forall b1 b2, before = b1 ++ b2 -> b2 <> [] ->
        re_header (b2 ++ STAR :: STAR :: heading ++ STAR :: STAR :: after)
        = None.
Proof.
  intros line heading H. unfold match_header, replace_header in *.
  destruct (header_search [] line) as [[[b g] a]|] eqn:E; [|discriminate].
  injection H as ->.
  destruct (header_search_inv line [] b heading a E)
    as (mid & Hb & Hline & Hg & Hns & Hleft).
  cbn in Hb. subst mid. exists b, a. repeat split; auto.
Qed.

Lemma header_span_is_cut_out_witness :
  exists before after,
    js "a * b **Head** c **Tail**" =
      before ++ STAR :: STAR :: js "Head" ++ STAR :: STAR :: after /\
    replace_header (js "a * b **Head** c **Tail**") = before ++ after /\
    js "Head" <> [] /\
    forallb not_star (js "Head") = true /\
    forall b1 b2, before = b1 ++ b2 -> b2 <> [] ->
      re_header (b2 ++ STAR :: STAR :: js "Head" ++ STAR :: STAR :: after)
      = None.
Proof.
  apply (header_span_is_cut_out (js "a * b **Head** c **Tail**") (js "Head")).
  reflexivity.
Defined.

(* ================================================================== *)
(** * Part 6: further properties of the handlers                       *)
(* ================================================================== *)

(** ** Errors stay inside the handlers *)

(** X8.  No handler lets an error out: whatever the backend does,
    the mount effect, [handleFiles], [handleProcess],
    [handleResetDatabase] and [handleAsk] return, so no promise of
    theirs is rejected. *)
Theorem handlers_never_throw :
  forall env w,
    fst (fetchStatus env w) = Resolved tt /\
    (forall files, fst (handleFiles files env w) = Resolved tt) /\
    fst (handleProcess env w) = Resolved tt /\
    fst (handleResetDatabase env w) = Resolved tt /\
    fst (handleAsk env w) = Resolved tt.
Proof.
  intros env w. repeat split.
  - unfold fetchStatus, try_catch, bind, getStatus, call.
    now destruct (api_getStatus env (trace w)).
  - intros files. unfold handleFiles, bind at 1. cbn [setIsUploading modify].
    set (w0 := {| state := _; trace := trace w; draws := draws w |}).
    destruct (upload_loop_run env (filter valid_file files) w0)
      as (w' & evs & H & _).
    unfold bind. now rewrite H.
  - unfold handleProcess, bind at 1. cbn [read].
    unfold bind at 1. cbn [read]. unfold bind at 1. cbn [setIsProcessing modify].
    unfold try_finally, try_catch.
    destruct (bind _ _ env _) as [[[]|error] w1]; reflexivity.
  - unfold handleResetDatabase, try_catch.
    destruct (bind _ _ env w) as [[[]|error] w1]; reflexivity.
  - unfold handleAsk, bind at 1. cbn [read].
    destruct (negb (truthy (trim (question (state w))))); [reflexivity|].
    unfold bind at 1. cbn [setIsAsking modify].
    unfold bind at 1. cbn [setQuestion modify].
    unfold try_finally, try_catch.
    destruct (bind _ _ env _) as [[[]|error] w1]; reflexivity.
Qed.

(** ** [handleAsk] and the question box *)

(** X9.  A question of white space only, the empty question among
    them, is ignored: [handleAsk] calls nothing and leaves the
    component as it is, the question box included. *)
Theorem handleAsk_ignores_blank_question :
  forall env w,
    all_ws (question (state w)) = true ->
    handleAsk env w = (Resolved tt, w).
Proof.
  intros env w H. apply trim_nil_iff in H.
  unfold handleAsk, bind. cbn [read]. now rewrite H.
Qed.

Lemma handleAsk_ignores_blank_question_witness :
  let w := world_with (with_question (js "   ") initial_state) in
  handleAsk env_a_refused w = (Resolved tt, w).
Proof.
  apply (handleAsk_ignores_blank_question env_a_refused). reflexivity.
Defined.

(** The run of [handleAsk] on a question that is not blank. *)
Lemma handleAsk_run (env : Env) (w : World) :
  all_ws (question (state w)) = false ->
  let q := question (state w) in
  let res := api_queryDocuments env (trace w) (ask_request q) in
  let w' := exec handleAsk env w in
  trace w' = trace w ++
    QueryDocuments (ask_request q) res ::
    match res with
    | Resolved _ => []
    | Rejected error => [ConsoleError (js "Query failed:") error]
    end /\
  question (state w') = [] /\
  isAsking (state w') = false /\
  documents (state w') = documents (state w) /\
  databaseStatus (state w') = databaseStatus (state w) /\
  isProcessing (state w') = isProcessing (state w) /\
  isUploading (state w') = isUploading (state w).
Proof.
  intros Hq q res w'. apply truthy_trim_iff in Hq.
  assert (Hw' : w' = exec handleAsk env w) by reflexivity. clearbody w'.
  unfold exec, handleAsk, bind at 1 in Hw'. cbn [read] in Hw'.
  rewrite Hq in Hw'. cbn [negb] in Hw'.
  unfold bind at 1 in Hw'. cbn [setIsAsking modify] in Hw'.
  unfold bind at 1 in Hw'. cbn [setQuestion modify state trace draws] in Hw'.
  unfold try_finally, try_catch, bind at 1, queryDocuments, call in Hw'.
  cbn [trace] in Hw'. fold q in Hw'. fold (ask_request q) in Hw'. fold res in Hw'.
  destruct res as [r|error].
  - destruct (query_success r); subst w'; cbn; repeat split.
  - subst w'. cbn. rewrite <- app_assoc. repeat split.
Qed.

(** X10.  On a question that is not blank [handleAsk] makes exactly
    one query call, with the question as it was typed (not trimmed)
    and [n_results = 10], and logs the error when the call throws; at
    the end the question box is empty and [isAsking] is false, and
    the documents and the database status are as they were. *)
Theorem handleAsk_sends_one_query :
  forall env w,
    all_ws (question (state w)) = false ->
    let q := question (state w) in
    let res := api_queryDocuments env (trace w) (ask_request q) in
    let w' := exec handleAsk env w in
    new_events w w' =
      QueryDocuments {| query := q; n_results := Some 10%Z |} res ::
      match res with
      | Resolved _ => []
      | Rejected error => [ConsoleError (js "Query failed:") error]
      end /\
    question (state w') = [] /\
    isAsking (state w') = false /\
    documents (state w') = documents (state w) /\
    databaseStatus (state w') = databaseStatus (state w).
Proof.
  intros env w Hq q res w'.
  destruct (handleAsk_run env w Hq) as (Htr & Hqn & Hask & Hdocs & Hst & _).
  fold q res w' in Htr, Hqn, Hask, Hdocs, Hst.
  repeat split; auto. exact (new_events_app _ _ _ Htr).
Qed.

Lemma handleAsk_sends_one_query_witness :
  let w := world_with (with_question (js " what? ") initial_state) in
  let w' := exec handleAsk env_a_refused w in
  new_events w w' =
    [QueryDocuments {| query := js " what? "; n_results := Some 10%Z |}
       (Resolved (sample_query true))] /\
  question (state w') = [] /\
  isAsking (state w') = false /\
  documents (state w') = documents (state w) /\
  databaseStatus (state w') = databaseStatus (state w).
Proof.
  apply (handleAsk_sends_one_query env_a_refused
           (world_with (with_question (js " what? ") initial_state))).
  reflexivity.
Defined.

(** X11.  The Enter key asks without looking at what disables the Ask
    button: with a question that is not blank, Enter without Shift
    sends the query also when a question is in flight or the database
    is empty; any other key, and Enter with Shift, does nothing. *)
Theorem enter_key_asks_past_the_button :
  (forall env w,
     all_ws (question (state w)) = false ->
     query_requests (new_events w (exec (onKeyDown (js "Enter") false) env w))
     = [ask_request (question (state w))])
  /\ (forall env w key shiftKey,
        key <> js "Enter" \/ shiftKey = true ->
        onKeyDown key shiftKey env w = (Resolved tt, w))
  /\ (forall s,
        isAsking s = true \/ count (databaseStatus s) = 0%Z ->
        ask_disabled s = true).
Proof.
  split; [|split].
  - intros env w Hq. change (onKeyDown (js "Enter") false) with handleAsk.
    destruct (handleAsk_run env w Hq) as (Htr & _).
    rewrite (new_events_app _ _ _ Htr). cbn.
    now destruct (api_queryDocuments env (trace w) _).
  - intros env w key shiftKey H. unfold onKeyDown.
    destruct (jsstring_eqb key (js "Enter")) eqn:E.
    + apply jsstring_eqb_eq in E. destruct H as [H| ->]; [contradiction|].
      reflexivity.
    + reflexivity.
  - intros s [H|H]; unfold ask_disabled; rewrite H.
    + now rewrite orb_true_r.
    + apply orb_true_r.
Qed.

Lemma enter_key_asks_past_the_button_witness :
  ask_disabled (state asking_when_disabled) = true /\
  query_requests
    (new_events asking_when_disabled
       (exec (onKeyDown (js "Enter") false) env_a_refused asking_when_disabled))
  = [ask_request (js "what?")] /\
  onKeyDown (js "Enter") true env_a_refused asking_when_disabled
  = (Resolved tt, asking_when_disabled).
Proof.
  split; [|split].
  - apply (proj2 (proj2 enter_key_asks_past_the_button)). now left.
  - apply (proj1 enter_key_asks_past_the_button env_a_refused asking_when_disabled).
    reflexivity.
  - apply (proj1 (proj2 enter_key_asks_past_the_button)). now right.
Defined.

(** ** [handleFiles] and its callers *)

Lemma state_with_documents_same (s : State) :
  s = with_documents (fun ds => ds ++ []) s.
Proof. destruct s. unfold with_documents. cbn. now rewrite app_nil_r. Qed.

(** One turn of the upload loop, with all it does to the state. *)
Lemma upload_one_state (env : Env) (w : World) (file : File) :
  exists w' evs news,
    upload_one file env w = (Resolved tt, w') /\
    trace w' = trace w ++ evs /\
    state w' = with_documents (fun ds => ds ++ news) (state w) /\
    uploaded_files evs = [file] /\
    Forall2 uploaded_as (accepted_uploads evs) news.
Proof.
  unfold upload_one, try_catch, bind, uploadFile, call.
  destruct (api_uploadFile env (trace w) file) as [r|error] eqn:E.
  - eexists _, [UploadFile file (Resolved r)], [_].
    split; [reflexivity|]. cbn. repeat split.
    repeat constructor.
  - eexists _, [UploadFile file (Rejected error);
                ConsoleError (js "Failed to upload " ++ file_name file ++ js ":") error], [].
    split; [reflexivity|]. cbn. rewrite <- app_assoc. repeat split.
    + apply state_with_documents_same.
    + constructor.
Qed.

Lemma accepted_uploads_app (a b : list Event) :
  accepted_uploads (a ++ b) = accepted_uploads a ++ accepted_uploads b.
Proof. apply flat_map_app. Qed.

Lemma upload_loop_state (env : Env) (files : list File) : forall w,
  exists w' evs news,
    for_of files upload_one env w = (Resolved tt, w') /\
    trace w' = trace w ++ evs /\
    state w' = with_documents (fun ds => ds ++ news) (state w) /\
    uploaded_files evs = files /\
    Forall2 uploaded_as (accepted_uploads evs) news.
Proof.
  induction files as [|file files IH]; intros w.
  - exists w, [], []. cbn. rewrite app_nil_r. repeat split.
    + apply state_with_documents_same.
    + constructor.
  - destruct (upload_one_state env w file)
      as (w1 & evs1 & news1 & Hrun & Htr1 & Hst1 & Hup1 & Hacc1).
    destruct (IH w1) as (w' & evs & news & Hloop & Htr & Hst & Hup & Hacc).
    exists w', (evs1 ++ evs), (news1 ++ news).
    split; [cbn; unfold bind at 1; rewrite Hrun; exact Hloop|].
    split; [rewrite Htr, Htr1, <- app_assoc; reflexivity|].
    split; [|split].
    + rewrite Hst, Hst1. unfold with_documents. cbn. now rewrite <- app_assoc.
    + rewrite uploaded_files_app, Hup1, Hup. reflexivity.
    + rewrite accepted_uploads_app. now apply Forall2_app.
Qed.

Lemma handleFiles_state (env : Env) (files : list File) (w : World) :
  let w' := exec (handleFiles files) env w in
  exists evs news,
    trace w' = trace w ++ evs /\
    state w' =
      with_isUploading false (with_documents (fun ds => ds ++ news) (state w)) /\
    uploaded_files evs = filter valid_file files /\
    Forall2 uploaded_as (accepted_uploads evs) news.
Proof.
  intros w'.
  assert (Hw' : w' = exec (handleFiles files) env w) by reflexivity.
  clearbody w'.
  unfold exec, handleFiles, bind at 1 in Hw'. cbn [setIsUploading modify] in Hw'.
  set (w0 := {| state := _; trace := trace w; draws := draws w |}) in Hw'.
  destruct (upload_loop_state env (filter valid_file files) w0)
    as (w1 & evs & news & Hloop & Htr & Hst & Hup & Hacc).
  exists evs, news. unfold bind in Hw'. rewrite Hloop in Hw'. subst w'. cbn.
  split; [exact Htr|]. split; [|auto]. now rewrite Hst.
Qed.

(** X12.  [handleFiles] only appends: the documents it finds stay, in
    place and untouched, and after them comes one document for each
    upload call that returned, in call order, unprocessed, with the
    name and size of the file and the temporary path of the response.
    An upload that throws adds nothing.  [isUploading] is false at the
    end and nothing else of the state changes. *)
Theorem handleFiles_appends_documents :
  forall env files w,
    let w' := exec (handleFiles files) env w in
    exists news,
      state w' =
        with_isUploading false
          (with_documents (fun ds => ds ++ news) (state w)) /\
      Forall2 uploaded_as (accepted_uploads (new_events w w')) news.
Proof.
  intros env files w w'.
  destruct (handleFiles_state env files w) as (evs & news & Htr & Hst & _ & Hacc).
  fold w' in Htr, Hst. exists news.
  now rewrite (new_events_app _ _ _ Htr).
Qed.

(** X13.  Files that are dropped and files that are picked go the way
    of [handleFiles]: the upload calls are those for the PDFs of at
    most 200 MiB, in order.  After a drop the drop zone is not
    active; a file input without files does nothing. *)
Theorem dropped_and_picked_files_are_filtered :
  forall env files w,
    (let w' := exec (handleDrop files) env w in
     uploaded_files (new_events w w') = filter valid_file files /\
     dragActive (state w') = false) /\
    uploaded_files (new_events w (exec (handleFileInput (Some files)) env w))
      = filter valid_file files /\
    handleFileInput None env w = (Resolved tt, w).
Proof.
  intros env files w. split; [|split; [|reflexivity]].
  - unfold exec, handleDrop, bind. cbn [setDragActive modify].
    set (w0 := {| state := _; trace := trace w; draws := draws w |}).
    destruct (handleFiles_state env files w0) as (evs & news & Htr & Hst & Hup & _).
    unfold exec in Htr, Hst. cbv zeta in Htr, Hst.
    split.
    + change (trace w0) with (trace w) in Htr.
      now rewrite (new_events_app w _ _ Htr).
    + rewrite Hst. reflexivity.
  - destruct (handleFiles_run env files w) as (evs & Htr & Hup & _).
    change (handleFileInput (Some files)) with (handleFiles files).
    now rewrite (new_events_app _ _ _ Htr).
Qed.

(** ** [handleProcess] *)

Lemma state_with_same_documents (s : State) :
  s = with_documents (fun _ => documents s) s.
Proof. now destruct s. Qed.

(** One turn of the process loop, with all it does to the state. *)
Lemma process_one_state (env : Env) (h : bool) (doc : Document) (w : World) :
  has_temp_path doc = true ->
  match api_processDocument env (trace w) (doc_request h doc) with
  | Resolved r =>
      process_one h doc env w =
        (Resolved tt,
         {| state :=
              if process_success r
              then with_documents (map (mark_processed (doc_id doc))) (state w)
              else state w;
            trace := trace w ++ [ProcessDocument (doc_request h doc) (Resolved r)];
            draws := draws w |})
  | Rejected error =>
      process_one h doc env w =
        (Rejected error,
         emit (ProcessDocument (doc_request h doc) (Rejected error)) w)
  end.
Proof.
  unfold has_temp_path, process_one, doc_request.
  destruct (temp_path doc) as [path|]; [|discriminate].
  intros ->. unfold bind, processDocument, call.
  destruct (api_processDocument env (trace w) (process_request h doc path))
    as [r|error]; [|reflexivity].
  now destruct (process_success r).
Qed.

Lemma process_loop_state (env : Env) (h : bool) (docs : list Document) :
  Forall (fun doc => has_temp_path doc = true) docs ->
  forall w, exists r w' evs ds',
    for_of docs (process_one h) env w = (r, w') /\
    trace w' = trace w ++ evs /\
    state w' = with_documents (fun _ => ds') (state w) /\
    (all_processed_ok evs ->
       r = Resolved tt /\ ds' = mark_all docs (documents (state w))).
Proof.
  induction 1 as [|doc docs Hdoc Hdocs IH]; intros w.
  - exists (Resolved tt), w, [], (documents (state w)). cbn. rewrite app_nil_r.
    repeat split. apply state_with_same_documents.
  - pose proof (process_one_state env h doc w Hdoc) as Hone.
    destruct (api_processDocument env (trace w) (doc_request h doc))
      as [r1|error] eqn:Eapi.
    + set (w1 := {| state := _; trace := _; draws := draws w |}) in Hone.
      destruct (IH w1) as (r & w' & evs & ds' & Hloop & Htr & Hst & Hok).
      exists r, w', (ProcessDocument (doc_request h doc) (Resolved r1) :: evs), ds'.
      split; [cbn; unfold bind at 1; rewrite Hone; exact Hloop|].
      split; [rewrite Htr; cbn; now rewrite <- app_assoc|].
      split.
      * rewrite Hst. cbn [state w1]. now destruct (process_success r1).
      * intros Hall.
        assert (H1 : process_success r1 = true).
        { destruct (Hall _ _ (or_introl eq_refl)) as (r' & Hr' & Hs).
          now injection Hr' as <-. }
        destruct Hok as [Hr Hds].
        { intros req res Hin. apply (Hall req res). now right. }
        split; [exact Hr|]. rewrite Hds. cbn [state w1]. now rewrite H1.
    + exists (Rejected error),
        (emit (ProcessDocument (doc_request h doc) (Rejected error)) w),
        [ProcessDocument (doc_request h doc) (Rejected error)],
        (documents (state w)).
      split; [cbn; unfold bind at 1; rewrite Hone; reflexivity|].
      cbn. repeat split; try apply state_with_same_documents;
        destruct (H _ _ (or_introl eq_refl)) as (r' & Hr' & _); discriminate.
Qed.

Lemma all_processed_ok_app_l (a b : list Event) :
  all_processed_ok (a ++ b) -> all_processed_ok a.
Proof. intros H req res Hin. apply (H req res). apply in_or_app. now left. Qed.

(** The run of [handleProcess], with all it does to the state. *)
Lemma handleProcess_state (env : Env) (w : World) :
  let w' := exec handleProcess env w in
  exists evs ds' st,
    trace w' = trace w ++ evs /\
    state w' =
      with_isProcessing false
        (with_databaseStatus st (with_documents (fun _ => ds') (state w))) /\
    (all_processed_ok evs ->
       ds' = mark_all (unprocessed (documents (state w))) (documents (state w))).
Proof.
  intros w'.
  assert (Hw' : w' = exec handleProcess env w) by reflexivity. clearbody w'.
  unfold exec, handleProcess, bind at 1 in Hw'. cbn [read] in Hw'.
  unfold bind at 1 in Hw'. cbn [read] in Hw'.
  unfold bind at 1 in Hw'. cbn [setIsProcessing modify] in Hw'.
  set (w0 := {| state := _; trace := trace w; draws := draws w |}) in Hw'.
  unfold try_finally, try_catch, bind at 1 in Hw'.
  destruct (process_loop_state env (enableHandwriting (state w))
              (unprocessed (documents (state w)))
              (unprocessed_has_temp_path (documents (state w))) w0)
    as (r & w1 & pevs & ds' & Hloop & Htr & Hst & Hok).
  rewrite Hloop in Hw'. destruct r as [[]|error].
  - unfold bind, getStatus, call in Hw'.
    destruct (api_getStatus env (trace w1)) as [s|error] eqn:Eapi; subst w'.
    + exists (pevs ++ [GetStatus (Resolved s)]), ds', (status_of s). cbn.
      split; [rewrite Htr; cbn; now rewrite app_assoc|].
      split; [now rewrite Hst|].
      intros Hall. now apply Hok, (all_processed_ok_app_l _ _ Hall).
    + exists (pevs ++ [GetStatus (Rejected error);
                       ConsoleError (js "Processing failed:") error]),
        ds', (databaseStatus (state w)). cbn.
      split; [rewrite Htr; cbn; now rewrite <- !app_assoc|].
      split; [now rewrite Hst|].
      intros Hall. now apply Hok, (all_processed_ok_app_l _ _ Hall).
  - subst w'.
    exists (pevs ++ [ConsoleError (js "Processing failed:") error]),
      ds', (databaseStatus (state w)). cbn.
    split; [rewrite Htr; cbn; now rewrite <- !app_assoc|].
    split; [now rewrite Hst|].
    intros Hall. destruct (Hok (all_processed_ok_app_l _ _ Hall)). discriminate.
Qed.

Lemma only_marked_same_but_processed (ds ds' : list Document) :
  only_marked ds ds' -> Forall2 same_but_processed ds ds'.
Proof.
  induction 1 as [|d d' ds ds' [->| ->] _ IH]; constructor; auto;
    unfold same_but_processed; cbn; repeat split; auto.
Qed.

(** X14.  Whatever the backend does, a throw included,
    [handleProcess] keeps every document in its place, with its
    identifier, name, size, date and temporary path, and a document
    that was processed stays processed; apart from the flags of the
    documents it changes the database status and [isProcessing],
    which is false at the end, and nothing else. *)
Theorem handleProcess_keeps_documents :
  forall env w,
    let w' := exec handleProcess env w in
    Forall2 same_but_processed (documents (state w)) (documents (state w')) /\
    exists st,
      state w' =
        with_isProcessing false
          (with_databaseStatus st
             (with_documents (fun _ => documents (state w')) (state w))).
Proof.
  intros env w w'. split.
  - destruct (handleProcess_run env w) as (evs & _ & _ & _ & Hmark & _).
    now apply only_marked_same_but_processed.
  - destruct (handleProcess_state env w) as (evs & ds' & st & _ & Hst & _).
    fold w' in Hst. exists st. rewrite Hst. reflexivity.
Qed.

Lemma mark_all_map (docs : list Document) : forall ds,
  mark_all docs ds = map (marked_by docs) ds.
Proof.
  induction docs as [|doc docs IH]; intros ds.
  - cbn. symmetry. apply map_id.
  - cbn [mark_all fold_left]. fold (mark_all docs). rewrite IH, map_map.
    apply map_ext. intros d. unfold marked_by, mark_processed. cbn [existsb].
    destruct (jsstring_eqb (doc_id d) (doc_id doc)); cbn [orb].
    + cbn [set_processed doc_id].
      now destruct (existsb _ docs).
    + reflexivity.
Qed.

Lemma filter_all_false (A : Type) (f : A -> bool) (l : list A) :
  (forall x, In x l -> f x = false) -> filter f l = [].
Proof.
  induction l as [|x l IH]; intros H; [reflexivity|]. cbn.
  rewrite (H x (or_introl eq_refl)). apply IH. intros y Hy. apply H. now right.
Qed.

(** Once every unprocessed document is marked, none is left. *)
Lemma unprocessed_mark_all (ds : list Document) :
  unprocessed (mark_all (unprocessed ds) ds) = [].
Proof.
  rewrite mark_all_map. apply filter_all_false. intros d' Hd'.
  apply in_map_iff in Hd' as (d & <- & Hd). unfold marked_by.
  destruct (existsb _ (unprocessed ds)) eqn:E; [reflexivity|].
  destruct (negb (is_processed d) && has_temp_path d) eqn:Eu; [|reflexivity].
  assert (Hin : In d (unprocessed ds)) by (apply filter_In; auto).
  assert (Hex : existsb (fun doc => jsstring_eqb (doc_id d) (doc_id doc))
                  (unprocessed ds) = true).
  { apply existsb_exists. exists d. split; [exact Hin|apply jsstring_eqb_refl]. }
  congruence.
Qed.



Lemma handleProcess_success_unprocessed (env : Env) (w : World) :
  all_processed_ok (new_events w (exec handleProcess env w)) ->
  unprocessed (documents (state (exec handleProcess env w))) = [].
Proof.
  intros Hall.
  destruct (handleProcess_state env w) as (evs & ds' & st & Htr & Hst & Hok).
  rewrite (new_events_app _ _ _ Htr) in Hall. specialize (Hok Hall).
  rewrite Hst. cbn. rewrite Hok. apply unprocessed_mark_all.
Qed.

Lemma no_requests_all_ok (evs : list Event) :
  process_requests evs = [] -> all_processed_ok evs.
Proof.
  intros H req res Hin. exfalso.
  induction evs as [|e evs IH]; [contradiction|].
  destruct Hin as [->|Hin]; [discriminate|].
  apply IH; [|exact Hin]. destruct e; cbn in H; try exact H. discriminate.
Qed.



(** ** The mount effect *)

(** X17.  The effect that runs when the component mounts makes one
    status call.  When the call returns, the database status becomes
    the count and the label of the response; when it throws, the
    error is logged and the state is as it was.  Nothing but the
    database status ever changes. *)
Theorem fetchStatus_outcomes :
  forall env w,
    let w' := exec fetchStatus env w in
    match api_getStatus env (trace w) with
    | Resolved s =>
        state w' = with_databaseStatus (status_of s) (state w) /\
        new_events w w' = [GetStatus (Resolved s)]
    | Rejected error =>
        state w' = state w /\
        new_events w w' =
          [GetStatus (Rejected error);
           ConsoleError (js "Failed to fetch database status:") error]
    end.
Proof.
  intros env w w'.
  assert (Hw' : w' = exec fetchStatus env w) by reflexivity. clearbody w'.
  unfold exec, fetchStatus, try_catch, bind, getStatus, call in Hw'.
  destruct (api_getStatus env (trace w)) as [s|error]; subst w'; cbn.
  - split; [reflexivity|]. now apply new_events_app.
  - split; [reflexivity|]. apply new_events_app. cbn. now rewrite <- app_assoc.
Qed.

(* ================================================================== *)
(** * Part 7: properties of [apiService]                               *)
(* ================================================================== *)

(** X18.  [request] hands [fetch] the method and the body of the
    caller.  The headers are "Content-Type: application/json" when
    the caller gives none; when the caller gives headers, they are
    the headers of the call as they are: the object that merges them
    with the default is replaced by the second spread, so a caller
    whose headers have no Content-Type sends none. *)
Theorem request_init_headers :
  forall options,
    Api.request_init options =
      {| Api.method := Api.method options;
         Api.headers :=
           Some match Api.headers options with
                | Some h => h
                | None => [(js "Content-Type", js "application/json")]
                end;
         Api.body := Api.body options |}.
Proof.
  intros [m h b]. unfold Api.request_init, Api.spread. cbn.
  now destruct m, h, b.
Qed.

Lemma throw_for_never_returns (prefix : jsstring) (response : Api.Response) :
  forall v : Api.Json, Api.throw_for prefix response <> Api.Returns v.
Proof.
  intros v. unfold Api.throw_for, Api.throw_new_Error.
  destruct (Api.get_detail _) as [[d|]|]; try discriminate.
  - destruct (Api.truthy_json d); [|discriminate].
    destruct (Api.to_string d); discriminate.
Qed.

Lemma throw_for_no_detail (prefix : jsstring) (response : Api.Response) :
  Api.no_detail (Api.json response) ->
  Api.fails_with (Api.throw_for prefix response : Api.Result Api.Json)
    (prefix ++ Api.decimal (Api.status response)).
Proof.
  unfold Api.no_detail, Api.throw_for, Api.fails_with.
  destruct (Api.json response) as [v|error].
  - destruct (Api.get_detail v) as [[d|]|]; [|reflexivity|contradiction].
    now intros ->.
  - reflexivity.
Qed.

Lemma throw_for_detail (prefix : jsstring) (response : Api.Response)
  (props : list (jsstring * Api.Json)) (d : jsstring) :
  Api.json response = Resolved (Api.JObject props) ->
  Api.lookup (js "detail") props = Some (Api.JString d) ->
  d <> [] ->
  Api.fails_with (Api.throw_for prefix response : Api.Result Api.Json) d.
Proof.
  intros Hj Hd Hne. unfold Api.throw_for, Api.fails_with. rewrite Hj.
  cbn [Api.get_detail]. rewrite Hd. destruct d; [contradiction|reflexivity].
Qed.

Lemma throw_for_null (prefix : jsstring) (response : Api.Response) :
  Api.json response = Resolved Api.JNull ->
  (Api.throw_for prefix response : Api.Result Api.Json) = Api.Fails Api.TypeError.
Proof. intros Hj. unfold Api.throw_for. now rewrite Hj. Qed.

(** X19.  On a response that is not ok, [request] and [uploadFile]
    never return.  They throw an error whose message is the [detail]
    of the body when that is a string that is not empty; and the
    fallback with the status in decimal ("HTTP error! status: 500",
    "Upload failed: 500") when the body does not parse or has no
    truthy [detail].  When the body is [null], reading [detail]
    throws a [TypeError], which is what the caller gets. *)
Theorem error_response_always_throws :
  forall fetch response,
    Api.ok response = false ->
    (forall endpoint options,
       fetch (Api.API_BASE_URL ++ endpoint) (Api.request_init options)
         = Resolved response ->
       let r := Api.request fetch endpoint options in
       (forall v, r <> Api.Returns v) /\
       (Api.no_detail (Api.json response) ->
        Api.fails_with r
          (js "HTTP error! status: " ++ Api.decimal (Api.status response))) /\
       (forall props d,
          Api.json response = Resolved (Api.JObject props) ->
          Api.lookup (js "detail") props = Some (Api.JString d) ->
          d <> [] -> Api.fails_with r d) /\
       (Api.json response = Resolved Api.JNull ->
        r = Api.Fails Api.TypeError))
    /\
    (forall file,
       fetch (Api.API_BASE_URL ++ js "/upload") (Api.upload_init file)
         = Resolved response ->
       let r := Api.uploadFile fetch file in
       (forall v, r <> Api.Returns v) /\
       (Api.no_detail (Api.json response) ->
        Api.fails_with r
          (js "Upload failed: " ++ Api.decimal (Api.status response))) /\
       (forall props d,
          Api.json response = Resolved (Api.JObject props) ->
          Api.lookup (js "detail") props = Some (Api.JString d) ->
          d <> [] -> Api.fails_with r d) /\
       (Api.json response = Resolved Api.JNull ->
        r = Api.Fails Api.TypeError)).
Proof.
  intros fetch response Hok. split.
  - intros endpoint options Hf r. subst r. unfold Api.request.
    rewrite Hf, Hok. cbn [negb].
    repeat split.
    + apply throw_for_never_returns.
    + apply throw_for_no_detail.
    + apply throw_for_detail.
    + apply throw_for_null.
  - intros file Hf r. subst r. unfold Api.uploadFile.
    rewrite Hf, Hok. cbn [negb].
    repeat split.
    + apply throw_for_never_returns.
    + apply throw_for_no_detail.
    + apply throw_for_detail.
    + apply throw_for_null.
Qed.

Lemma error_response_always_throws_witness :
  Api.fails_with
    (Api.getStatus
       (Api.answers_422
          (Resolved (Api.JObject [(js "detail", Api.JString (js "no such file"))]))))
    (js "no such file")
  /\ Api.fails_with
       (Api.uploadFile (Api.answers_422 (Rejected (js "Unexpected token <")))
          (pdf "a.pdf"))
       (js "Upload failed: 422")
  /\ Api.resetDatabase (Api.answers_422 (Resolved Api.JNull))
     = Api.Fails Api.TypeError.
Proof.
  split; [|split].
  - apply (proj1 (error_response_always_throws
                    (Api.answers_422 (Resolved (Api.JObject
                       [(js "detail", Api.JString (js "no such file"))])))
                    {| Api.ok := false; Api.status := 422;
                       Api.json := Resolved (Api.JObject
                         [(js "detail", Api.JString (js "no such file"))]) |}
                    eq_refl)
             (js "/status")
             {| Api.method := Some (js "GET"); Api.headers := None;
                Api.body := None |}
             eq_refl)
      with (props := [(js "detail", Api.JString (js "no such file"))]);
      [reflexivity|reflexivity|discriminate].
  - apply (proj2 (error_response_always_throws
                    (Api.answers_422 (Rejected (js "Unexpected token <")))
                    {| Api.ok := false; Api.status := 422;
                       Api.json := Rejected (js "Unexpected token <") |}
                    eq_refl)
             (pdf "a.pdf") eq_refl).
    exact I.
  - apply (proj1 (error_response_always_throws
                    (Api.answers_422 (Resolved Api.JNull))
                    {| Api.ok := false; Api.status := 422;
                       Api.json := Resolved Api.JNull |}
                    eq_refl)
             (js "/reset")
             {| Api.method := Some (js "DELETE"); Api.headers := None;
                Api.body := None |}
             eq_refl).
    reflexivity.
Defined.

Lemma sequence_plain_objects (objs : list (list (jsstring * Api.Json))) :
  Forall (fun props => Api.has_key (js "toString") props = false) objs ->
  Api.to_string (Api.JArray (map Api.JObject objs)) =
  Some (Api.join_comma (map (fun _ => js "[object Object]") objs)).
Proof.
  intros H.
  assert (Hseq : Api.sequence
            (map (fun item => match item with
                              | Api.JNull => Some []
                              | _ => Api.to_string item
                              end) (map Api.JObject objs))
          = Some (map (fun _ => js "[object Object]") objs)).
  { induction H as [|props objs Hp _ IH]; [reflexivity|].
    cbn [map Api.sequence]. rewrite IH. cbn [Api.to_string]. now rewrite Hp. }
  cbn [Api.to_string]. now rewrite Hseq.
Qed.

(** X20.  The [detail] of an error is shown as a string whatever it
    is.  When it is a list of objects that is not empty, as the
    backend sends for a request it cannot validate, the message keeps
    nothing of them: it is "[object Object]" once for each entry,
    joined by commas. *)
Theorem detail_list_becomes_object_Object :
  forall fetch endpoint options response props objs,
    fetch (Api.API_BASE_URL ++ endpoint) (Api.request_init options)
      = Resolved response ->
    Api.ok response = false ->
    Api.json response = Resolved (Api.JObject props) ->
    Api.lookup (js "detail") props = Some (Api.JArray (map Api.JObject objs)) ->
    Forall (fun o => Api.has_key (js "toString") o = false) objs ->
    Api.fails_with (Api.request fetch endpoint options)
      (Api.join_comma (map (fun _ => js "[object Object]") objs)).
Proof.
  intros fetch endpoint options response props objs Hf Hok Hj Hd Hobjs.
  unfold Api.request, Api.fails_with. rewrite Hf, Hok. cbn [negb].
  unfold Api.throw_for. rewrite Hj. cbn [Api.get_detail]. rewrite Hd.
  cbn [Api.truthy_json]. unfold Api.throw_new_Error.
  now rewrite (sequence_plain_objects objs Hobjs).
Qed.

Lemma detail_list_becomes_object_Object_witness :
  Api.fails_with
    (Api.getStatus
       (Api.answers_422
          (Resolved (Api.JObject
             [(js "detail",
               Api.JArray
                 (map Api.JObject
                    [[(js "msg", Api.JString (js "field required"))];
                     [(js "msg", Api.JString (js "not a number"))]]))]))))
    (js "[object Object],[object Object]").
Proof.
  apply (detail_list_becomes_object_Object
           (Api.answers_422
              (Resolved (Api.JObject
                 [(js "detail",
                   Api.JArray
                     (map Api.JObject
                        [[(js "msg", Api.JString (js "field required"))];
                         [(js "msg", Api.JString (js "not a number"))]]))])))
           (js "/status")
           {| Api.method := Some (js "GET"); Api.headers := None;
              Api.body := None |}
           {| Api.ok := false; Api.status := 422;
              Api.json := Resolved (Api.JObject
                 [(js "detail",
                   Api.JArray
                     (map Api.JObject
                        [[(js "msg", Api.JString (js "field required"))];
                         [(js "msg", Api.JString (js "not a number"))]]))]) |}
           [(js "detail",
             Api.JArray
               (map Api.JObject
                  [[(js "msg", Api.JString (js "field required"))];
                   [(js "msg", Api.JString (js "not a number"))]]))]
           [[(js "msg", Api.JString (js "field required"))];
            [(js "msg", Api.JString (js "not a number"))]]);
    try reflexivity.
  repeat constructor.
Defined.

(* ================================================================== *)
(** * Part 8: what a list section keeps of its lines                   *)
(* ================================================================== *)

(** A greedy repetition stops where the class stops, when the rest of
    the pattern accepts that. *)
Lemma many_greedy (A : Type) (cls : N -> bool) (a : jsstring) :
  forall (k : jsstring -> jsstring -> option A) (b : jsstring) (x : A),
    forallb cls a = true ->
    match b with [] => True | c :: _ => cls c = false end ->
    k a b = Some x ->
    many cls k (a ++ b) = Some x.
Proof.
  induction a as [|c a IH]; intros k b x Ha Hb Hk.
  - cbn [app]. destruct b as [|y b]; [exact Hk|]. cbn. now rewrite Hb.
  - cbn in Ha. apply andb_true_iff in Ha as [Hc Ha]. cbn. rewrite Hc.
    now rewrite (IH (fun m r => k (c :: m) r) b x Ha Hb Hk).
Qed.

Lemma many_ext (A : Type) (cls : N -> bool) (s : jsstring) :
  forall f g : jsstring -> jsstring -> option A,
    (forall m r, f m r = g m r) -> many cls f s = many cls g s.
Proof.
  induction s as [|c s IH]; intros f g Hfg; cbn; [apply Hfg|].
  destruct (cls c); [|apply Hfg].
  rewrite (IH (fun m r => f (c :: m) r) (fun m r => g (c :: m) r)).
  - now rewrite Hfg.
  - intros m r. apply Hfg.
Qed.

(** [(.+)] at the end of a pattern takes all that is of the class. *)
Lemma many_takes_all (cls : N -> bool) (s : jsstring) :
  forall pre : jsstring,
    forallb cls s = true ->
    many cls (fun m (_ : jsstring) => Some (pre ++ m)) s = Some (pre ++ s).
Proof.
  induction s as [|c s IH]; intros pre H.
  - reflexivity.
  - cbn in H. apply andb_true_iff in H as [Hc Hs]. cbn. rewrite Hc.
    rewrite (many_ext _ cls s _ (fun m _ => Some ((pre ++ [c]) ++ m))).
    + rewrite (IH (pre ++ [c]) Hs), <- app_assoc. reflexivity.
    + intros m r. now rewrite <- app_assoc.
Qed.

Lemma many1_takes_all (cls : N -> bool) (s : jsstring) :
  s <> [] -> forallb cls s = true ->
  many1 cls (fun g (_ : jsstring) => Some g) s = Some s.
Proof.
  destruct s as [|c s]; [contradiction|]. intros _ H. cbn in H.
  apply andb_true_iff in H as [Hc Hs]. cbn. rewrite Hc.
  exact (many_takes_all cls s [c] Hs).
Qed.

(** White space and then the group at the end of an item pattern, on
    text that ends clean: the group is the text from its first clean
    character on, when that has no line terminator. *)
Lemma item_tail (w : N) (s : jsstring) :
  is_ws w = true -> ends_clean (w :: s) ->
  exists a t,
    w :: s = a ++ t /\ a <> [] /\ all_ws a = true /\ starts_clean t /\
    (forallb dot t = true ->
     many1 is_ws (fun _ => many1 dot (fun g (_ : jsstring) => Some g)) (w :: s)
     = Some t).
Proof.
  intros Hw Hend.
  destruct (ends_clean_split (w :: s) Hend) as (a & d & b & Heq & Ha & Hd).
  destruct a as [|w' a].
  - cbn in Heq. injection Heq as <- _. congruence.
  - cbn in Heq. injection Heq as <- ->. cbn in Ha.
    apply andb_true_iff in Ha as [_ Ha].
    exists (w :: a), (d :: b). repeat split.
    + discriminate.
    + cbn. now rewrite Hw.
    + now exists d, b.
    + intros Hdot. cbn [many1]. rewrite Hw.
      apply many_greedy; [exact Ha|exact Hd|].
      apply many1_takes_all; [discriminate|exact Hdot].
Qed.

(** X21.  The item of a bullet line is the line without its marker
    and the white space after it: a trimmed line that starts with a
    marker and white space is the marker, the white space, and the
    item, which starts with a character that is no white space.  (A
    line terminator other than the line feed inside the line would
    end the item early; the line is taken to have none.) *)
Theorem bullet_item_is_the_rest_of_the_line :
  forall line,
    tidy line ->
    forallb dot line = true ->
    re_bullet_marker line <> None ->
    exists marker space item,
      line = marker :: space ++ item /\
      is_bullet_marker marker = true /\
      space <> [] /\ all_ws space = true /\
      starts_clean item /\
      re_bullet line = Some item.
Proof.
  intros line [(c & t & -> & Hc) He] Hdot. unfold re_bullet_marker, re_bullet.
  rewrite !(many_not_class _ is_ws c t _ Hc). unfold chr.
  destruct (is_bullet_marker c) eqn:Em; [|congruence].
  destruct t as [|w s]; [cbn; congruence|].
  destruct (is_ws w) eqn:Ew; [|cbn; rewrite Ew; congruence]. intros _.
  assert (Hend : ends_clean (w :: s)).
  { destruct He as (u & d & Heq & Hd). destruct u as [|u0 u]; cbn in Heq.
    - discriminate.
    - injection Heq as _ ->. now exists u, d. }
  destruct (item_tail w s Ew Hend) as (a & item & Heq & Hne & Ha & Hst & Hm).
  exists c, a, item. rewrite Heq. repeat split; auto.
  rewrite <- Heq. apply Hm.
  change (dot c && forallb dot (w :: s) = true) in Hdot.
  apply andb_true_iff in Hdot as [_ Hdot].
  rewrite Heq, forallb_app in Hdot.
  now apply andb_true_iff in Hdot as [_ Hdot].
Qed.

Lemma bullet_item_is_the_rest_of_the_line_witness :
  exists marker space item,
    js "-   two  words" = marker :: space ++ item /\
    is_bullet_marker marker = true /\
    space <> [] /\ all_ws space = true /\
    starts_clean item /\
    re_bullet (js "-   two  words") = Some item.
Proof.
  apply (bullet_item_is_the_rest_of_the_line (js "-   two  words")).
  - split.
    + exists 45%N, (js "   two  words"). now split.
    + exists (js "-   two  word"), 115%N. now split.
  - reflexivity.
  - discriminate.
Defined.

Lemma prose_runs_concat (item : jsstring -> option jsstring)
  (lines : list jsstring) : forall run,
  concat (prose_runs item run lines) =
  run ++ filter (fun line => negb (is_some (item line))) lines.
Proof.
  assert (Hclose : forall run, concat (close_run run) = run).
  { intros [|x run]; cbn; [reflexivity|now rewrite app_nil_r]. }
  induction lines as [|line lines IH]; intros run; cbn.
  - now rewrite Hclose, app_nil_r.
  - destruct (item line); cbn.
    + now rewrite concat_app, Hclose, IH.
    + now rewrite IH, <- app_assoc.
Qed.

Lemma prose_runs_nonempty (item : jsstring -> option jsstring)
  (lines : list jsstring) : forall run,
  Forall (fun r => r <> []) (prose_runs item run lines).
Proof.
  assert (Hclose : forall run, Forall (fun r : list jsstring => r <> [])
                                 (close_run run)).
  { intros [|x run]; repeat constructor. discriminate. }
  induction lines as [|line lines IH]; intros run; cbn; [apply Hclose|].
  destruct (item line); [|apply IH]. apply Forall_app. auto.
Qed.

(** X22.  A list section keeps each of its lines once: the runs whose
    joined lines make the paragraphs are not empty and, put end to
    end, are the lines that are no items, in their order; the items
    of the list are those of the other lines, in their order.  This
    holds for the bullet branch and for the numbered branch. *)
Theorem list_section_keeps_every_line :
  forall item wrap lines,
    Forall tidy lines ->
    exists runs,
      list_section item wrap lines =
        div (render_if (nonempty runs) (div (map paragraph_of runs))
             ++ render_if (nonempty (list_items item lines))
                  (wrap (map li (list_items item lines)))) /\
      Forall (fun r => r <> []) runs /\
      concat runs = filter (fun line => negb (is_some (item line))) lines.
Proof.
  intros item wrap lines Htidy. exists (prose_runs item [] lines).
  split; [|split].
  - rewrite (list_section_run item wrap lines Htidy). cbv zeta.
    unfold nonempty. now rewrite !length_map.
  - apply prose_runs_nonempty.
  - apply prose_runs_concat.
Qed.

Lemma list_section_keeps_every_line_witness :
  exists runs,
    list_section re_bullet ul (section_lines interleaved) =
      div (render_if (nonempty runs) (div (map paragraph_of runs))
           ++ render_if (nonempty (list_items re_bullet (section_lines interleaved)))
                (ul (map li (list_items re_bullet (section_lines interleaved))))) /\
    Forall (fun r => r <> []) runs /\
    concat runs = filter (fun line => negb (is_some (re_bullet line)))
                    (section_lines interleaved).
Proof.
  apply (list_section_keeps_every_line re_bullet ul (section_lines interleaved)).
  apply section_lines_tidy.
Defined.
